(** * ioc233: the bean container of ioc233-go, embedded in Rocq

    The development follows [ioc.go] (the container: [Provide],
    [ProvideByName], [StartUp], [initBasicFields], [injectInternal],
    [GetObjectByType], [GetControllersAny]), the default-value providers
    ([ApplyDefaultProviders]) and the four lifecycle interfaces.

    Go's reflection is made explicit: a [type] is a reflect.Type, a
    [program] holds the struct and interface declarations reflection reads,
    an [instance] is the pair (dynamic type, value) stored in an [any], and
    pointers address structs of a heap.  The two Go maps of the container are
    finite maps; ranging over a Go map visits the entries in an order chosen
    by the runtime, which the state carries as an oracle.  Calls to the logger
    and to the lifecycle hooks are recorded, in order, in the output of the
    state.  A reflect.Value.Set of a value that is not assignable panics, and
    so does the model.

    What the model leaves out or fixes:
    - the bodies of the lifecycle hooks are code of the container's client;
      a call of a hook is recorded and changes nothing else;
    - the mutex of the container is not modelled: one call runs at a time;
    - a pointer addresses a whole struct of the heap (no pointer into a
      field, no pointer to a pointer variable that is then dereferenced: the
      container never dereferences more than once);
    - a defined type is identified by its package and its name, and the
      defined types are structs and interfaces;
    - the logger's messages are Chinese format strings in the source; an
      event carries an English rendering of the message and the arguments,
      as strings; the loggers themselves (the silent default, the one that
      prints) and the choice of the logger are not modelled: an event is the
      call made to whatever logger is installed;
    - GetObjectByType[T] takes the type T as an argument, and [None] stands
      for the zero value of T;
    - time.Now().UnixNano() reads the next value of an oracle of the state;
    - the fields serviceMap, controllerMap and controllerList of the
      container are never written by the code and stay as they are. *)

From stdpp Require Import gmap strings list fin_maps countable.

From Stdlib Require Import ZArith.

Set Warnings "-register-all".

Local Open Scope string_scope.

(** ** Types, as reflect.Type shows them *)

Inductive type : Type :=
| TStruct (pkg name : string)      (* a named struct type pkg.name *)
| TIface (pkg name : string)       (* a named interface type pkg.name *)
| TPtr (elem : type)               (* *elem *)
| TMap (key elem : type)           (* map[key]elem *)
| TSlice (elem : type)             (* []elem *)
| TBasic (name : string).          (* int, string, bool, ... *)

Global Instance type_eq_dec : EqDecision type.
Proof. solve_decision. Defined.

Fixpoint type_to_tree (t : type) : gen_tree string :=
  match t with
  | TStruct p n => GenNode 0 [GenLeaf p; GenLeaf n]
  | TIface p n => GenNode 1 [GenLeaf p; GenLeaf n]
  | TPtr e => GenNode 2 [type_to_tree e]
  | TMap k e => GenNode 3 [type_to_tree k; type_to_tree e]
  | TSlice e => GenNode 4 [type_to_tree e]
  | TBasic n => GenNode 5 [GenLeaf n]
  end.

Fixpoint tree_to_type (g : gen_tree string) : type :=
  match g with
  | GenNode 0 [GenLeaf p; GenLeaf n] => TStruct p n
  | GenNode 1 [GenLeaf p; GenLeaf n] => TIface p n
  | GenNode 2 [e] => TPtr (tree_to_type e)
  | GenNode 3 [k; e] => TMap (tree_to_type k) (tree_to_type e)
  | GenNode 4 [e] => TSlice (tree_to_type e)
  | GenNode 5 [GenLeaf n] => TBasic n
  | _ => TBasic EmptyString
  end.

Lemma tree_to_type_to_tree (t : type) : tree_to_type (type_to_tree t) = t.
Proof. induction t; simpl; congruence. Qed.

Global Instance type_countable : Countable type :=
  inj_countable' type_to_tree tree_to_type tree_to_type_to_tree.

(** reflect.Kind, restricted to the kinds the container distinguishes. *)
Inductive Kind : Type := KStruct | KInterface | KPtr | KMap | KSlice | KBasic.

Global Instance Kind_eq_dec : EqDecision Kind.
Proof. solve_decision. Defined.

(** t.Kind() *)
Definition kind (t : type) : Kind :=
  match t with
  | TStruct _ _ => KStruct
  | TIface _ _ => KInterface
  | TPtr _ => KPtr
  | TMap _ _ => KMap
  | TSlice _ => KSlice
  | TBasic _ => KBasic
  end.

(** t.Name(): the name of a defined type without its package, empty for a
    type literal. *)
Definition Name (t : type) : string :=
  match t with
  | TStruct _ n | TIface _ n | TBasic n => n
  | _ => EmptyString
  end.

(** t.String() *)
Fixpoint String_ (t : type) : string :=
  match t with
  | TStruct p n | TIface p n =>
      if decide (p = EmptyString) then n else p +:+ "." +:+ n
  | TPtr e => "*" +:+ String_ e
  | TMap k e => "map[" +:+ String_ k +:+ "]" +:+ String_ e
  | TSlice e => "[]" +:+ String_ e
  | TBasic n => n
  end.

(** t.Elem() of a pointer type (the container calls it on pointers only). *)
Definition Elem (t : type) : type :=
  match t with
  | TPtr e | TSlice e | TMap _ e => e
  | _ => t
  end.

(** The name the container gives a type: in [Provide] (the default bean
    name), in [StartUp] and in [injectInternal] the same three steps are
    written out: Name(), else the Name() of the pointee, else String(). *)
Definition displayName (t : type) : string :=
  let n := Name t in
  let n := if decide (n = EmptyString ∧ kind t = KPtr) then Name (Elem t) else n in
  if decide (n = EmptyString) then String_ t else n.

(** ** Declarations: what reflection reads of the program *)

(** reflect.StructField: name, package path, type and tag.  The package
    path is empty for an exported field and names the package of an
    unexported one.  The tag is kept as its key/value pairs, in order. *)
Record StructField : Type := mkField {
  f_name : string;
  f_pkgPath : string;
  f_type : type;
  f_tag : list (string * string)
}.

(** field.Tag.Get(key): the value of the first pair with this key, or the
    empty string. *)
Fixpoint Tag_Get (tag : list (string * string)) (key : string) : string :=
  match tag with
  | [] => EmptyString
  | (k, v) :: rest => if decide (k = key) then v else Tag_Get rest key
  end.

(** field.IsExported(): the package path is empty.  A field reached through
    a pointer is settable exactly when it is exported. *)
Definition IsExported (field : StructField) : bool :=
  bool_decide (f_pkgPath field = EmptyString).

Record StructDecl : Type := mkStruct {
  sd_fields : list StructField;
  sd_methods : list string;       (* methods with receiver T *)
  sd_ptr_methods : list string    (* methods with receiver *T *)
}.

Record program : Type := mkProgram {
  structs : string → string → StructDecl;     (* package, name *)
  ifaces : string → string → list string      (* package, name: method names *)
}.

(** ** Values and instances *)

Definition addr := nat.

Inductive value : Type :=
| VNil                              (* nil pointer, map, slice or interface *)
| VPtr (a : addr)                   (* pointer to the struct at [a] *)
| VStruct (fs : list value)         (* a struct held by value *)
| VMap (kvs : list (value * value)) (* a non-nil map *)
| VSlice (xs : list value)          (* a non-nil slice *)
| VRand (seed : Z)                  (* a *rand.Rand made by rand.New(rand.NewSource(seed)) *)
| VIface (t : type) (v : value)     (* a non-nil interface value *)
| VBasic (z : Z).

(** A non-nil [any]: dynamic type and value.  The nil [any] is [None]. *)
Abbreviation instance := (type * value)%type.

Abbreviation any := (option instance).

(** A struct on the heap: its type (package, name) and its fields. *)
Record object : Type := mkObject {
  o_type : string * string;
  o_fields : list value
}.

(** ** The container and the state of the world around it *)

Record Container : Type := mkContainer {
  serviceMap : gmap type any;
  controllerMap : gmap type any;
  typeToObjectMap : gmap type any;
  nameToObjMap : gmap string any;
  controllerList : list any;
  fatalErrors : list string
}.

Inductive level : Type := LDebug | LInfo | LWarn | LError.

Inductive hook : Type :=
| OnProvideAfter | OnInjectBefore | OnInjectAfter | OnInjectComplete.

Global Instance hook_eq_dec : EqDecision hook.
Proof. solve_decision. Defined.

(** What the container is seen to do: a call to the logger (level, the
    message, its arguments) or a call of a lifecycle hook on a bean. *)
Inductive event : Type :=
| EvLog (l : level) (msg : string) (args : list string)
| EvHook (h : hook) (recv : instance).

Record State : Type := mkState {
  container : Container;
  heap : gmap addr object;
  out : list event;               (* logger and hook calls, oldest first *)
  map_order : list (list nat);    (* the runtime's choice for each range over a map *)
  nanos : list Z                  (* the readings of time.Now().UnixNano() *)
}.

(** Instance(): the container as first built. *)
Definition Instance : Container :=
  mkContainer ∅ ∅ ∅ ∅ [] [].

Definition set_container (c : Container) (s : State) : State :=
  mkState c (heap s) (out s) (map_order s) (nanos s).

Definition set_heap (h : gmap addr object) (s : State) : State :=
  mkState (container s) h (out s) (map_order s) (nanos s).

Definition add_event (e : event) (s : State) : State :=
  mkState (container s) (heap s) (out s ++ [e]) (map_order s) (nanos s).

(** ** A state monad with panics

    A Go function of the container reads and writes the state and either
    returns or panics; after a panic the rest of the function is skipped. *)

Inductive result (A : Type) : Type :=
| Ok (a : A)
| Panic (msg : string).

Arguments Ok {A} a.
Arguments Panic {A} msg.

Definition M (A : Type) : Type := State → result A * State.

Definition ret {A} (a : A) : M A := λ s, (Ok a, s).

Definition bind {A B} (m : M A) (f : A → M B) : M B :=
  λ s, match m s with
       | (Ok a, s') => f a s'
       | (Panic msg, s') => (Panic msg, s')
       end.

Notation "'let!' x ':=' m 'in' k" := (bind m (λ x, k))
  (at level 10, x pattern, m at level 100, k at level 200).

Notation "m1 ;;; m2" := (bind m1 (λ _, m2))
  (at level 100, m2 at level 200, right associativity).

Definition gets {A} (f : State → A) : M A := λ s, (Ok (f s), s).

Definition modify (f : State → State) : M unit := λ s, (Ok tt, f s).

Definition panic {A} (msg : string) : M A := λ s, (Panic msg, s).

(** for _, x := range l { f x } over a slice *)
Fixpoint forM_ {A} (l : list A) (f : A → M unit) : M unit :=
  match l with
  | [] => ret tt
  | x :: l' => f x ;;; forM_ l' f
  end.

(** The order in which a range visits the entries of a map: the runtime
    picks, entry after entry, which of the remaining ones comes next.  When
    its choices run out the remaining entries come as they are stored. *)
Fixpoint permute {A} (choice : list nat) (l : list A) : list A :=
  match choice with
  | [] => l
  | k :: choice' =>
      let i := (k mod length l)%nat in
      match l !! i with
      | Some x => x :: permute choice' (delete i l)
      | None => []
      end
  end.

(** for k, v := range m over a Go map: the entries, in the order of this
    range. *)
Definition range_map {V} (m : gmap type V) : M (list (type * V)) :=
  λ s, match map_order s with
       | [] => (Ok (map_to_list m), s)
       | o :: rest =>
           (Ok (permute o (map_to_list m)),
            mkState (container s) (heap s) (out s) rest (nanos s))
       end.

(** time.Now().UnixNano() *)
Definition time_Now_UnixNano : M Z :=
  λ s, match nanos s with
       | [] => (Ok 0%Z, s)
       | z :: rest =>
           (Ok z, mkState (container s) (heap s) (out s) (map_order s) rest)
       end.

Definition logf (l : level) (msg : string) (args : list string) : M unit :=
  modify (add_event (EvLog l msg args)).

Definition logDebug := logf LDebug.

Definition logInfo := logf LInfo.

Definition logWarn := logf LWarn.

Definition logError := logf LError.

(** A call of a lifecycle hook.  The body of a hook is code of the
    container's client; the model records the call. *)
Definition call_hook (h : hook) (recv : instance) : M unit :=
  modify (add_event (EvHook h recv)).

(** The method each lifecycle interface asks for: IProvideAfter,
    IInjectBefore, IInjectAfter, IObject. *)
Definition hook_method (h : hook) : string :=
  match h with
  | OnProvideAfter => "OnProvideAfter"
  | OnInjectBefore => "OnInjectBefore"
  | OnInjectAfter => "OnInjectAfter"
  | OnInjectComplete => "OnInjectComplete"
  end.

(** ** Reflection on fields *)

(** elem.Field(i) of the struct behind a pointer: the place of the field and
    whether it may be set. *)
Record FieldValue : Type := mkFieldValue {
  fv_addr : addr;
  fv_index : nat;
  fv_canset : bool
}.

Definition Field (a : addr) (i : nat) (field : StructField) : FieldValue :=
  mkFieldValue a i (IsExported field).

Definition CanSet (fv : FieldValue) : bool := fv_canset fv.

(** The value a field holds. *)
Definition field_of (s : State) (a : addr) (i : nat) : option value :=
  heap s !! a ≫= λ o, o_fields o !! i.

(** fv.IsNil() *)
Definition IsNil (fv : FieldValue) : M bool :=
  gets (λ s, match field_of s (fv_addr fv) (fv_index fv) with
             | Some VNil => true
             | _ => false
             end).

(** What a field of type [ft] holds once [x] is assigned to it: an interface
    field keeps the dynamic type with the value. *)
Definition store_value (ft : type) (x : instance) : value :=
  if decide (kind ft = KInterface) then VIface x.1 x.2 else x.2.

Definition write_field (a : addr) (i : nat) (v : value) (s : State) : State :=
  match heap s !! a with
  | Some o => set_heap (<[a := mkObject (o_type o) (<[i := v]> (o_fields o))]> (heap s)) s
  | None => s
  end.

Section WithProgram.

Context (Σ : program).

(** The method set of a type: a struct type has the methods declared on T,
    a pointer to it those declared on T or on *T, an interface its own. *)
Definition method_set (t : type) : list string :=
  match t with
  | TStruct p n => sd_methods (structs Σ p n)
  | TPtr (TStruct p n) =>
      sd_methods (structs Σ p n) ++ sd_ptr_methods (structs Σ p n)
  | TIface p n => ifaces Σ p n
  | _ => []
  end.

(** t.Implements(u), for an interface type [u] (reflect panics on another
    [u]; every call of the container is guarded by u.Kind() == Interface). *)
Definition Implements (t u : type) : bool :=
  match u with
  | TIface p n => forallb (λ m, bool_decide (m ∈ method_set t)) (ifaces Σ p n)
  | _ => false
  end.

(** t.AssignableTo(u): identical types, or [u] is an interface that [t]
    implements. *)
Definition AssignableTo (t u : type) : bool :=
  bool_decide (t = u) || Implements t u.

(** instance.(I) for a lifecycle interface I: the dynamic type has the
    method. *)
Definition has_hook (t : type) (h : hook) : bool :=
  bool_decide (hook_method h ∈ method_set t).

(** fv.Set(x) for a field of type [ft]: panics unless the field is settable
    and the type of [x] is assignable to [ft]. *)
Definition Set_ (fv : FieldValue) (ft : type) (x : instance) : M unit :=
  if negb (CanSet fv) then panic "reflect.Value.Set using unaddressable or unexported value"
  else if negb (AssignableTo x.1 ft) then panic "reflect.Set: value is not assignable to type"
  else modify (write_field (fv_addr fv) (fv_index fv) (store_value ft x)).

(** ** default value providers *)

(** The type of a nil pointer to rand.Rand. *)
Definition rand_Rand_ptr : type := TPtr (TStruct "rand" "Rand").

Definition ApplyDefaultProviders (field : StructField) (fv : FieldValue) : M bool :=
  if negb (CanSet fv) then ret false
  else
    let fieldType := f_type field in
    if decide (kind fieldType = KMap) then
      let! isnil := IsNil fv in
      if isnil then Set_ fv fieldType (fieldType, VMap []) ;;; ret true
      else ret false
    else if decide (kind fieldType = KSlice) then
      let! isnil := IsNil fv in
      if isnil then Set_ fv fieldType (fieldType, VSlice []) ;;; ret true
      else ret false
    else if decide (fieldType = rand_Rand_ptr) then
      let! isnil := IsNil fv in
      if isnil then
        let! seed := time_Now_UnixNano in
        Set_ fv fieldType (fieldType, VRand seed) ;;; ret true
      else ret false
    else ret false.

(** ** The container *)

Definition set_typeToObjectMap (m : gmap type any) (c : Container) : Container :=
  mkContainer (serviceMap c) (controllerMap c) m (nameToObjMap c)
    (controllerList c) (fatalErrors c).

Definition set_nameToObjMap (m : gmap string any) (c : Container) : Container :=
  mkContainer (serviceMap c) (controllerMap c) (typeToObjectMap c) m
    (controllerList c) (fatalErrors c).

Definition set_fatalErrors (l : list string) (c : Container) : Container :=
  mkContainer (serviceMap c) (controllerMap c) (typeToObjectMap c)
    (nameToObjMap c) (controllerList c) l.

Definition modify_container (f : Container → Container) : M unit :=
  modify (λ s, set_container (f (container s)) s).

(** The struct an instance points to: v.Kind() == Ptr, and v.Elem() is a
    struct (a nil pointer has no Elem).  Gives the address and the struct
    type. *)
Definition pointee (s : State) (x : any) : option (addr * (string * string)) :=
  match x with
  | Some (TPtr (TStruct p n), VPtr a) =>
      match heap s !! a with
      | Some _ => Some (a, (p, n))
      | None => None
      end
  | _ => None
  end.

(** The body of the loop of initBasicFields, for field [i] of the struct at
    [a]. *)
Definition initBasicField (a : addr) (tname : string) (ifield : nat * StructField) : M unit :=
  let '(i, field) := ifield in
  if negb (CanSet (Field a i field)) then ret tt
  else
    let aw := Tag_Get (f_tag field) "autowire" in
    let inj := Tag_Get (f_tag field) "inject" in
    if decide (aw ≠ EmptyString ∨ inj ≠ EmptyString) then ret tt
    else
      let fv := Field a i field in
      let! applied := ApplyDefaultProviders field fv in
      if applied then
        logDebug "default value provider applied" [tname; f_name field; String_ (f_type field)]
      else ret tt.

Definition fields_of (pn : string * string) : list (nat * StructField) :=
  imap pair (sd_fields (structs Σ pn.1 pn.2)).

Definition initBasicFields (x : any) : M unit :=
  let! target := gets (λ s, pointee s x) in
  match target with
  | None => ret tt
  | Some (a, pn) => forM_ (fields_of pn) (initBasicField a pn.2)
  end.

(** The test of the interface scan: objType.Implements(fieldType), or
    objType is a pointer and objType.Elem().Implements(fieldType). *)
Definition is_candidate (objType fieldType : type) : bool :=
  Implements objType fieldType
  || (bool_decide (kind objType = KPtr) && Implements (Elem objType) fieldType).

(** The instances the scan of the Type Index keeps, in the order of the
    range. *)
Definition scan_candidates (fieldType : type) (entries : list (type * any)) : list instance :=
  omap (λ e : type * any,
          match e.2 with
          | None => None
          | Some obj => if is_candidate obj.1 fieldType then Some obj else None
          end) entries.

(** The body of the loop of injectInternal, for field [i] of the struct of
    type [t] at [a]. *)
Definition injectField (a : addr) (t : type) (ifield : nat * StructField) : M unit :=
  let '(i, field) := ifield in
  let tag := Tag_Get (f_tag field) "autowire" in
  let tag := if decide (tag = EmptyString) then Tag_Get (f_tag field) "inject" else tag in
  if decide (tag = EmptyString) then ret tt
  else if negb (CanSet (Field a i field)) then
    logError "field is tagged autowire but not exported, skipped" [Name t; f_name field]
  else
    let fieldType := f_type field in
    let structName := displayName t in
    logInfo "trying to inject" [structName; f_name field; String_ fieldType; tag] ;;;
    if decide (tag = "true" ∨ tag = "false") then
      let mandatory := bool_decide (tag = "true") in
      if decide (kind fieldType = KInterface) then
        let! c := gets container in
        let! entries := range_map (typeToObjectMap c) in
        let candidates := scan_candidates fieldType entries in
        match candidates with
        | c0 :: rest =>
            Set_ (Field a i field) fieldType c0 ;;;
            match rest with
            | _ :: _ =>
                logWarn "interface has several implementations, injecting the first"
                  (structName :: f_name field :: String_ fieldType
                   :: ((λ cnd : instance, String_ cnd.1) <$> candidates))
            | [] =>
                logDebug "interface injected"
                  [structName; f_name field; String_ fieldType; String_ c0.1]
            end
        | [] =>
            if mandatory then
              logError "interface injection failed: no implementation found"
                [structName; f_name field; String_ fieldType]
            else
              logInfo "optional interface injection: no implementation found, stays nil"
                [structName; f_name field; String_ fieldType]
        end
      else
        let typeName := displayName fieldType in
        let! c := gets container in
        match nameToObjMap c !! typeName with
        | Some (Some obj) =>
            if AssignableTo obj.1 fieldType then
              Set_ (Field a i field) fieldType obj ;;;
              logDebug "injected by type name"
                [structName; f_name field; typeName; String_ obj.1]
            else if mandatory then
              logError "injection by type name: type mismatch"
                [structName; f_name field; String_ fieldType; String_ obj.1]
            else
              logInfo "optional injection by type name: type mismatch, stays nil"
                [structName; f_name field; String_ fieldType; String_ obj.1]
        | _ =>
            if mandatory then
              logError "injection by type name failed: no instance of this type name"
                [structName; f_name field; typeName]
            else
              logInfo "optional injection by type name: no instance, stays nil"
                [structName; f_name field; typeName]
        end
    else
      let! c := gets container in
      match nameToObjMap c !! tag with
      | Some (Some obj) =>
          let compatible :=
            AssignableTo obj.1 fieldType
            || (bool_decide (kind fieldType = KInterface)
                && (Implements obj.1 fieldType
                    || (bool_decide (kind obj.1 = KPtr)
                        && Implements (Elem obj.1) fieldType))) in
          if compatible then
            Set_ (Field a i field) fieldType obj ;;;
            logDebug "injected by name" [structName; f_name field; tag; String_ obj.1]
          else
            logError "injection by name: type mismatch"
              [structName; f_name field; tag; String_ fieldType; String_ obj.1]
      | _ =>
          logError "injection by name failed: no instance of this name"
            [structName; f_name field; tag]
      end.

Definition injectInternal (x : any) : M unit :=
  let! target := gets (λ s, pointee s x) in
  match target with
  | None => ret tt
  | Some (a, pn) => forM_ (fields_of pn) (injectField a (TStruct pn.1 pn.2))
  end.

(** strings.TrimSpace(name) == the empty string: [name] consists of white
    space only.  A Go string is a sequence of bytes read as UTF-8; white
    space is what unicode.IsSpace accepts: the ASCII characters tab, newline,
    vertical tab, form feed, carriage return and space, U+0085 and U+00A0
    (bytes C2 85, C2 A0), U+1680 (E1 9A 80), U+2000 to U+200A, U+2028, U+2029
    and U+202F (E2 80 ..), U+205F (E2 81 9F) and U+3000 (E3 80 80). *)
Definition is_space (c : Ascii.ascii) : bool :=
  let n := Ascii.nat_of_ascii c in
  ((9 <=? n)%nat && (n <=? 13)%nat) || (n =? 32)%nat.

Definition is_space2 (c d : Ascii.ascii) : bool :=
  let c := Ascii.nat_of_ascii c in
  let d := Ascii.nat_of_ascii d in
  (c =? 194)%nat && ((d =? 133)%nat || (d =? 160)%nat).

Definition is_space3 (c d e : Ascii.ascii) : bool :=
  let c := Ascii.nat_of_ascii c in
  let d := Ascii.nat_of_ascii d in
  let e := Ascii.nat_of_ascii e in
  ((c =? 225)%nat && (d =? 154)%nat && (e =? 128)%nat)
  || ((c =? 226)%nat && (d =? 128)%nat
      && (((128 <=? e)%nat && (e <=? 138)%nat)
          || (e =? 168)%nat || (e =? 169)%nat || (e =? 175)%nat))
  || ((c =? 226)%nat && (d =? 129)%nat && (e =? 159)%nat)
  || ((c =? 227)%nat && (d =? 128)%nat && (e =? 128)%nat).

Fixpoint is_blank (name : string) : bool :=
  match name with
  | EmptyString => true
  | String c rest =>
      if is_space c then is_blank rest
      else
        match rest with
        | String d rest2 =>
            if is_space2 c d then is_blank rest2
            else
              match rest2 with
              | String e rest3 => is_space3 c d e && is_blank rest3
              | EmptyString => false
              end
        | EmptyString => false
        end
  end.

(** The call of a hook the instance implements, with the log line before
    it. *)
Definition fire (h : hook) (msg : string) (t : type) (x : any) : M unit :=
  match x with
  | Some obj =>
      if has_hook obj.1 h then logInfo msg [String_ t] ;;; call_hook h obj
      else ret tt
  | None => ret tt
  end.

Definition Provide (x : any) : M unit :=
  match x with
  | None => ret tt
  | Some (t, _) =>
      (if decide (kind t ≠ KPtr) then
         logWarn "Provide: registering a pointer type is advised" [String_ t]
       else ret tt) ;;;
      initBasicFields x ;;;
      let! c := gets container in
      match typeToObjectMap c !! t with
      | Some _ => logWarn "Provide: duplicate type registration, ignored" [String_ t]
      | None =>
          modify_container (λ c, set_typeToObjectMap (<[t := x]> (typeToObjectMap c)) c) ;;;
          let beanName := displayName t in
          let! c := gets container in
          match nameToObjMap c !! beanName with
          | Some _ => logWarn "Provide: duplicate default bean name, ignored" [beanName]
          | None =>
              modify_container (λ c, set_nameToObjMap (<[beanName := x]> (nameToObjMap c)) c)
          end ;;;
          logInfo "registered bean" [String_ t; String_ t] ;;;
          fire OnProvideAfter "calling the hook after registration" t x
      end
  end.

Definition err_invalid_argument : string := "[ioc233] ProvideByName: invalid argument".

Definition err_duplicate (name : string) : string :=
  "[ioc233] ProvideByName: duplicate registration: name=" +:+ name.

Definition err_fatal : string := "[ioc233] the container has fatal errors, start-up failed".

Definition ProvideByName (name : string) (x : any) : M (option string) :=
  match x with
  | None => ret (Some err_invalid_argument)
  | Some (t, _) =>
      if is_blank name then ret (Some err_invalid_argument)
      else
        let! c := gets container in
        match nameToObjMap c !! name with
        | Some _ =>
            let err := err_duplicate name in
            logError "%s" [err] ;;;
            modify_container (λ c, set_fatalErrors (fatalErrors c ++ [err]) c) ;;;
            ret (Some err)
        | None =>
            (if decide (kind t ≠ KPtr) then
               logWarn "ProvideByName: registering a pointer type is advised" [String_ t]
             else ret tt) ;;;
            initBasicFields x ;;;
            modify_container (λ c, set_typeToObjectMap (<[t := x]> (typeToObjectMap c)) c) ;;;
            modify_container (λ c, set_nameToObjMap (<[name := x]> (nameToObjMap c)) c) ;;;
            logInfo "registered bean by name" [name; String_ t; String_ t] ;;;
            fire OnProvideAfter "calling the hook after registration" t x ;;;
            ret None
        end
  end.

(** The body of the first loop of StartUp. *)
Definition injectBean (e : type * any) : M unit :=
  let '(t, x) := e in
  logInfo "injecting the fields of" [displayName t] ;;;
  fire OnInjectBefore "calling the hook before injection" t x ;;;
  injectInternal x ;;;
  fire OnInjectAfter "calling the hook after injection" t x.

(** The body of the second loop of StartUp. *)
Definition completeBean (e : type * any) : M unit :=
  let '(t, x) := e in
  fire OnInjectComplete "calling the hook on completion" t x.

Definition StartUp : M (option string) :=
  logInfo "starting the container and injecting dependencies" [] ;;;
  let! c := gets container in
  if decide (0 < length (fatalErrors c))%nat then
    forM_ (fatalErrors c) (λ e, logError "fatal error" [e]) ;;;
    ret (Some err_fatal)
  else
    let! c := gets container in
    let! entries := range_map (typeToObjectMap c) in
    forM_ entries injectBean ;;;
    let! c := gets container in
    let! entries := range_map (typeToObjectMap c) in
    forM_ entries completeBean ;;;
    logInfo "container started, all dependencies injected" [] ;;;
    ret None.

End WithProgram.

Arguments fire : simpl never.
Arguments initBasicFields : simpl never.
Arguments injectInternal : simpl never.
Arguments injectBean : simpl never.
Arguments completeBean : simpl never.
Arguments Set_ : simpl never.
Arguments range_map : simpl never.
Arguments pointee : simpl never.
Arguments Provide : simpl never.
Arguments ProvideByName : simpl never.
Arguments StartUp : simpl never.

(** ** Looking beans up *)

Section Lookup.

Context (Σ : program).

(** instance.(T): for an interface type T the assertion holds when the
    dynamic type of the instance implements T, for any other type T when the
    dynamic type is T.  It fails on a nil instance. *)
Definition type_assert (T : type) (x : any) : option instance :=
  match x with
  | None => None
  | Some obj =>
      if decide (kind T = KInterface) then
        if Implements Σ obj.1 T then Some obj else None
      else if decide (obj.1 = T) then Some obj else None
  end.

(** One loop of GetObjectByType over the entries of a table, for an
    interface type T: the first instance, in the order of the range, that
    passes the test of the scan and then the type assertion. *)
Fixpoint find_implementation (T : type) (entries : list (type * any)) : option instance :=
  match entries with
  | [] => None
  | (_, instance) :: rest =>
      match instance with
      | None => find_implementation T rest
      | Some obj =>
          if is_candidate Σ obj.1 T then
            match type_assert T instance with
            | Some typed => Some typed
            | None => find_implementation T rest
            end
          else find_implementation T rest
      end
  end.

(** if instance, ok := table[T]; ok { if typed, ok := instance.(T); ok ... *)
Definition lookup_table (T : type) (table : gmap type any) : option instance :=
  match table !! T with
  | Some instance => type_assert T instance
  | None => None
  end.

(** GetObjectByType[T](): the instance found, or [None] for the zero value
    of T, which is returned after the error has been logged. *)
Definition GetObjectByType (T : type) : M (option instance) :=
  let! c := gets container in
  let targetType := T in
  if decide (kind targetType = KInterface) then
    let! entries := range_map (typeToObjectMap c) in
    match find_implementation targetType entries with
    | Some typed => ret (Some typed)
    | None =>
        let! entries := range_map (serviceMap c) in
        match find_implementation targetType entries with
        | Some typed => ret (Some typed)
        | None =>
            let! entries := range_map (controllerMap c) in
            match find_implementation targetType entries with
            | Some typed => ret (Some typed)
            | None =>
                logError "no instance implements the interface" [String_ targetType] ;;;
                ret None
            end
        end
    end
  else
    match lookup_table targetType (serviceMap c) with
    | Some typed => ret (Some typed)
    | None =>
        match lookup_table targetType (controllerMap c) with
        | Some typed => ret (Some typed)
        | None =>
            match lookup_table targetType (typeToObjectMap c) with
            | Some typed => ret (Some typed)
            | None =>
                logError "no instance of the type" [String_ targetType] ;;;
                ret None
            end
        end
    end.

End Lookup.

(** GetControllersAny() *)
Definition GetControllersAny : M (list any) :=
  gets (λ s, controllerList (container s)).

Arguments GetObjectByType : simpl never.

Local Open Scope list_scope.

(** ** Runs of calls on the container *)

Inductive call : Type :=
| CallProvide (x : any)
| CallProvideByName (name : string) (x : any)
| CallStartUp.

(** The state a call leaves, whether it returns or panics. *)
Definition after_call (Σ : program) (k : call) (s : State) : State :=
  match k with
  | CallProvide x => (Provide Σ x s).2
  | CallProvideByName name x => (ProvideByName Σ name x s).2
  | CallStartUp => (StartUp Σ s).2
  end.

Definition after_calls (Σ : program) (ks : list call) (s : State) : State :=
  foldl (λ s k, after_call Σ k s) s ks.

(** ** The vocabulary of the statements

    The events the container is seen to produce, the hooks called on a
    bean, well-formed states, and the conditions the claims speak of. *)

Definition add_events (evs : list event) (s : State) : State :=
  mkState (container s) (heap s) (out s ++ evs) (map_order s) (nanos s).

Definition is_log (e : event) : Prop :=
  match e with EvLog _ _ _ => True | EvHook _ _ => False end.

(** The event is no hook call, or a call of hook [h]. *)
Definition hook_only (h : hook) (e : event) : Prop :=
  match e with EvLog _ _ _ => True | EvHook h' _ => h' = h end.

Definition any_event (e : event) : Prop := True.

Definition ev_starting : event :=
  EvLog LInfo "starting the container and injecting dependencies" [].

Definition ev_started : event :=
  EvLog LInfo "container started, all dependencies injected" [].

Definition ev_round (t : type) : event :=
  EvLog LInfo "injecting the fields of" [displayName t].

(** The value of the wiring tag of a field: autowire, else inject. *)
Definition wiring_tag (fd : StructField) : string :=
  let tag := Tag_Get (f_tag fd) "autowire" in
  if decide (tag = EmptyString) then Tag_Get (f_tag fd) "inject" else tag.

Definition ev_trying (t : type) (fd : StructField) : event :=
  EvLog LInfo "trying to inject"
    [displayName t; f_name fd; String_ (f_type fd); wiring_tag fd].

Definition ev_no_implementation (t : type) (fd : StructField) : event :=
  EvLog LError "interface injection failed: no implementation found"
    [displayName t; f_name fd; String_ (f_type fd)].

Section vocabulary.
Context (Σ : program).

(** The events of [fire]. *)
Definition fire_events (h : hook) (msg : string) (t : type) (x : any) : list event :=
  match x with
  | Some obj =>
      if has_hook Σ obj.1 h then [EvLog LInfo msg [String_ t]; EvHook h obj] else []
  | None => []
  end.

(** The events of the round of a bean in the first loop of StartUp: the
    line that opens the round, the hook before injection if the bean has it,
    the log lines of injectInternal, the hook after injection if the bean
    has it. *)
Definition round_of (e : type * any) (evs : list event) : Prop :=
  ∃ logs, Forall is_log logs
    ∧ evs = ev_round e.1
            :: fire_events OnInjectBefore "calling the hook before injection" e.1 e.2
            ++ logs
            ++ fire_events OnInjectAfter "calling the hook after injection" e.1 e.2.

(** The events of a bean in the second loop: the hook on completion if the
    bean has it. *)
Definition completion_of (e : type * any) : list event :=
  fire_events OnInjectComplete "calling the hook on completion" e.1 e.2.

End vocabulary.

Arguments fire_events : simpl never.

(** The hooks called, in order, on instances of dynamic type [t]. *)
Definition hooks_on (t : type) (evs : list event) : list hook :=
  omap (λ e, match e with
             | EvHook h y => if decide (y.1 = t) then Some h else None
             | EvLog _ _ _ => None
             end) evs.



(** A field that initBasicFields considers: settable and without an
    autowire or inject tag. *)
Definition untagged (fd : StructField) : Prop :=
  Tag_Get (f_tag fd) "autowire" = EmptyString ∧ Tag_Get (f_tag fd) "inject" = EmptyString.

(** A settable field tagged autowire with the name of a bean (a tag other
    than [true] and [false]). *)
Definition by_name_field (fd : StructField) (name : string) : Prop :=
  Tag_Get (f_tag fd) "autowire" = name
  ∧ name ≠ EmptyString ∧ name ≠ "true" ∧ name ≠ "false"
  ∧ IsExported fd = true.

(** What initBasicFields does to a settable, untagged field of the struct
    an instance points to. *)
Definition seeds_field (s s' : State) (a : addr) (i : nat) (fd : StructField) : Prop :=
  (kind (f_type fd) = KMap → field_of s a i = Some VNil →
   field_of s' a i = Some (VMap []))
  ∧ (kind (f_type fd) = KSlice → field_of s a i = Some VNil →
     field_of s' a i = Some (VSlice []))
  ∧ (field_of s a i ≠ Some VNil → field_of s' a i = field_of s a i).

(** A registered bean whose concrete type implements the interface [I]. *)
Definition implementer (Σ : program) (c : Container) (I : type) (x : instance) : Prop :=
  ∃ t, typeToObjectMap c !! t = Some (Some x) ∧ Implements Σ x.1 I = true.

(** A registration that puts the instance in the Type Index: a Provide of
    a type that is not there yet, or a ProvideByName that returns no error. *)
Definition registered_by (Σ : program) (x : instance) (s0 s1 : State) : Prop :=
  (typeToObjectMap (container s0) !! x.1 = None ∧ Provide Σ (Some x) s0 = (Ok tt, s1))
  ∨ (∃ name, ProvideByName Σ name (Some x) s0 = (Ok None, s1)).

(** ** Well-formed states

    Each entry of the Type Index is a non-nil instance stored under its own
    dynamic type, which is never an interface type; and a bean that points to
    a struct points to a struct of that type on the heap, with the fields
    its declaration lists. *)

Definition points_to_struct (Σ : program) (h : gmap addr object) (x : instance) : Prop :=
  ∀ p n a, x = (TPtr (TStruct p n), VPtr a) →
    ∃ o, h !! a = Some o ∧ o_type o = (p, n)
         ∧ length (o_fields o) = length (sd_fields (structs Σ p n)).

Definition instance_ok (Σ : program) (h : gmap addr object) (x : instance) : Prop :=
  kind x.1 ≠ KInterface ∧ points_to_struct Σ h x.

Definition bean_ok (Σ : program) (h : gmap addr object) (t : type) (x : any) : Prop :=
  ∃ y, x = Some y ∧ y.1 = t ∧ instance_ok Σ h y.

Definition wf (Σ : program) (s : State) : Prop :=
  map_Forall (bean_ok Σ (heap s)) (typeToObjectMap (container s)).




(** ** What the calls do to the container

    The container after a call depends on the container before it and on
    the arguments only: neither on the heap nor on the declarations. *)

Definition provide_container (x : instance) (c : Container) : Container :=
  match typeToObjectMap c !! x.1 with
  | Some _ => c
  | None =>
      let c1 := set_typeToObjectMap (<[x.1 := Some x]> (typeToObjectMap c)) c in
      match nameToObjMap c !! displayName x.1 with
      | Some _ => c1
      | None => set_nameToObjMap (<[displayName x.1 := Some x]> (nameToObjMap c1)) c1
      end
  end.

Definition provide_by_name_container (name : string) (x : instance) (c : Container) :
    Container :=
  if is_blank name then c
  else
    match nameToObjMap c !! name with
    | Some _ => set_fatalErrors (fatalErrors c ++ [err_duplicate name]) c
    | None =>
        let c1 := set_typeToObjectMap (<[x.1 := Some x]> (typeToObjectMap c)) c in
        set_nameToObjMap (<[name := Some x]> (nameToObjMap c1)) c1
    end.

Definition after_call_container (k : call) (c : Container) : Container :=
  match k with
  | CallProvide (Some x) => provide_container x c
  | CallProvideByName name (Some x) => provide_by_name_container name x c
  | _ => c
  end.

(** Every entry of the Type Index is an instance, stored under its own
    dynamic type. *)
Definition keyed (c : Container) : Prop :=
  ∀ t e, typeToObjectMap c !! t = Some e → ∃ y, e = Some y ∧ y.1 = t.

(** The tables GetObjectByType reads, in the order in which it reads them
    for an interface type. *)
Definition tables (c : Container) : list (gmap type any) :=
  [typeToObjectMap c; serviceMap c; controllerMap c].

(** The test of injection by name: the type of the bean is assignable to
    the type of the field, or the field is of interface type and the bean
    passes the test of the interface scan. *)
Definition compatible (Σ : program) (objType fieldType : type) : bool :=
  AssignableTo Σ objType fieldType
  || (bool_decide (kind fieldType = KInterface) && is_candidate Σ objType fieldType).

(** The instances the container holds: the entries of the Type Index and
    of the Name Index. *)
Definition registered (c : Container) (obj : instance) : Prop :=
  (∃ t, typeToObjectMap c !! t = Some (Some obj))
  ∨ (∃ name, nameToObjMap c !! name = Some (Some obj)).

(** Of the hooks [hs], those the type [t] has, in the order of [hs]. *)
Definition hooks_of (Σ : program) (t : type) (hs : list hook) : list hook :=
  List.filter (has_hook Σ t) hs.

(** ** The types and beans of tests/ioc_test.go

    Several tests declare a local struct type named ServiceA; these are
    different types, and they carry the name of their test here. *)

Module Tests.

Definition UserService : type := TIface "tests" "UserService".

Definition UserServiceImpl : type := TStruct "tests" "UserServiceImpl".

Definition OrderServiceImpl : type := TStruct "tests" "OrderServiceImpl".

Definition FullLifecycleTest : type := TStruct "tests" "FullLifecycleTest".

Definition CircularServiceA : type := TStruct "tests" "CircularServiceA".

Definition CircularServiceB : type := TStruct "tests" "CircularServiceB".

Definition ServiceWithMap : type := TStruct "tests" "ServiceWithMap".

Definition ServiceWithUnexported : type := TStruct "tests" "ServiceWithUnexported".

Definition ServiceWithRand : type := TStruct "tests" "ServiceWithRand".

Definition ServiceA_ByName : type := TStruct "tests" "ServiceA_ByName".

Definition ServiceA_Optional : type := TStruct "tests" "ServiceA_Optional".

Definition ServiceA_Required : type := TStruct "tests" "ServiceA_Required".

Definition NonPointerService : type := TStruct "tests" "NonPointerService".

Definition decls : list (string * StructDecl) :=
  [ ("UserServiceImpl",
     mkStruct [mkField "ID" EmptyString (TBasic "int") []] [] ["GetUser"]);
    ("OrderServiceImpl",
     mkStruct [mkField "UserService" EmptyString UserService [("autowire", "true")]]
       [] ["GetOrder"]);
    ("FullLifecycleTest",
     mkStruct [mkField "orderTracker" "tests" (TPtr (TStruct "tests" "CallbackOrderTest")) []]
       [] ["OnProvideAfter"; "OnInjectBefore"; "OnInjectAfter"; "OnInjectComplete"]);
    ("CircularServiceA",
     mkStruct [mkField "ServiceB" EmptyString (TPtr CircularServiceB) [("autowire", "CircularServiceB")]]
       [] []);
    ("CircularServiceB",
     mkStruct [mkField "ServiceA" EmptyString (TPtr CircularServiceA) [("autowire", "CircularServiceA")]]
       [] []);
    ("ServiceWithMap",
     mkStruct [mkField "DataMap" EmptyString (TMap (TBasic "string") (TBasic "int")) [];
               mkField "DataSlice" EmptyString (TSlice (TBasic "string")) []]
       [] []);
    ("ServiceWithUnexported",
     mkStruct [mkField "ExportedField" EmptyString (TPtr UserServiceImpl) [("autowire", "true")];
               mkField "unexportedField" "tests" (TPtr UserServiceImpl) [("autowire", "true")]]
       [] []);
    ("ServiceWithRand",
     mkStruct [mkField "Rand" EmptyString (TPtr (TStruct "rand" "Rand")) []] [] []);
    ("ServiceA_ByName",
     mkStruct [mkField "ServiceB" EmptyString (TPtr UserServiceImpl) [("autowire", "MyServiceB")]]
       [] []);
    ("ServiceA_Optional",
     mkStruct [mkField "OptionalService" EmptyString (TPtr UserServiceImpl)
                 [("autowire", "false")]]
       [] []);
    ("ServiceA_Required",
     mkStruct [mkField "RequiredService" EmptyString (TPtr UserServiceImpl)
                 [("autowire", "true")]]
       [] []);
    ("NonPointerService",
     mkStruct [mkField "ID" EmptyString (TBasic "int") []] [] []) ].

Fixpoint find_decl (l : list (string * StructDecl)) (n : string) : StructDecl :=
  match l with
  | [] => mkStruct [] [] []
  | (m, d) :: rest => if decide (m = n) then d else find_decl rest n
  end.

Definition prog : program :=
  mkProgram
    (λ p n, if decide (p = "tests") then find_decl decls n else mkStruct [] [] [])
    (λ p n, if decide (p = "tests" ∧ n = "UserService") then ["GetUser"] else []).

(** The heap of the tests: the structs their beans point to. *)
Definition heap0 : gmap addr object :=
  list_to_map
    [ (1%nat, mkObject ("tests", "UserServiceImpl") [VBasic 1]);
      (2%nat, mkObject ("tests", "UserServiceImpl") [VBasic 2]);
      (3%nat, mkObject ("tests", "OrderServiceImpl") [VNil]);
      (4%nat, mkObject ("tests", "FullLifecycleTest") [VPtr 9%nat]);
      (5%nat, mkObject ("tests", "CircularServiceA") [VNil]);
      (6%nat, mkObject ("tests", "CircularServiceB") [VNil]);
      (7%nat, mkObject ("tests", "ServiceWithMap") [VNil; VNil]);
      (8%nat, mkObject ("tests", "ServiceWithUnexported") [VNil; VNil]);
      (10%nat, mkObject ("tests", "ServiceWithRand") [VNil]);
      (11%nat, mkObject ("tests", "ServiceA_ByName") [VNil]);
      (12%nat, mkObject ("tests", "ServiceA_Optional") [VNil]);
      (13%nat, mkObject ("tests", "ServiceA_Required") [VNil]) ].

Definition service1 : instance := (TPtr UserServiceImpl, VPtr 1%nat).

Definition service2 : instance := (TPtr UserServiceImpl, VPtr 2%nat).

Definition orderService : instance := (TPtr OrderServiceImpl, VPtr 3%nat).

Definition fullLifecycle : instance := (TPtr FullLifecycleTest, VPtr 4%nat).

Definition serviceA : instance := (TPtr CircularServiceA, VPtr 5%nat).

Definition serviceB : instance := (TPtr CircularServiceB, VPtr 6%nat).

Definition serviceWithMap : instance := (TPtr ServiceWithMap, VPtr 7%nat).

Definition serviceWithUnexported : instance := (TPtr ServiceWithUnexported, VPtr 8%nat).

Definition serviceWithRand : instance := (TPtr ServiceWithRand, VPtr 10%nat).

Definition serviceA_ByName : instance := (TPtr ServiceA_ByName, VPtr 11%nat).

Definition serviceA_Optional : instance := (TPtr ServiceA_Optional, VPtr 12%nat).

Definition serviceA_Required : instance := (TPtr ServiceA_Required, VPtr 13%nat).

Definition nonPointerService : instance := (NonPointerService, VStruct [VBasic 1]).

(** The state the calls [ks] leave on a container that was reset. *)
Definition run (ks : list call) : State := after_calls prog ks (mkState Instance heap0 [] [] []).

(** A name made of a no-break space (U+00A0) and a tab. *)
Definition blank_name : string :=
  String (Ascii.ascii_of_nat 194) (String (Ascii.ascii_of_nat 160)
    (String (Ascii.ascii_of_nat 9) EmptyString)).

(** The state after resetContainer(), with the runtime's choices. *)
Definition fresh (order : list (list nat)) : State :=
  mkState Instance heap0 [] order [].

(** TestContainer_AutowireByType: a user service and an order service that
    wants one. *)
Definition autowire_interface : State :=
  (Provide prog (Some orderService) (Provide prog (Some service1) (fresh [])).2).2.

(** TestContainer_CircularDependency. *)
Definition circular : State :=
  (ProvideByName prog "CircularServiceB" (Some serviceB)
     (ProvideByName prog "CircularServiceA" (Some serviceA) (fresh [])).2).2.

(** TestContainer_AutowireByType with one more bean: a pointer to a
    variable that holds the *UserServiceImpl, an instance of type
    **UserServiceImpl. *)
Definition pointer_to_pointer : State :=
  after_calls prog
    [CallProvide (Some (TPtr (TPtr UserServiceImpl), VPtr 20%nat));
     CallProvide (Some orderService)]
    (fresh []).

End Tests.

(** ** A program with the field tags the tests do not combine

    An interface with two implementations, and a client whose fields carry
    the tags of the README: an optional interface field, a field tagged
    inject, a field tagged with the name of a bean of another type, and a
    mandatory interface field. *)

Module Wiring.

Definition Greeter : type := TIface "app" "Greeter".

Definition English : type := TStruct "app" "English".

Definition French : type := TStruct "app" "French".

Definition Client : type := TStruct "app" "Client".

Definition prog : program :=
  mkProgram
    (λ p n,
       if decide (p = "app" ∧ n = "English") then mkStruct [] [] ["Greet"]
       else if decide (p = "app" ∧ n = "French") then mkStruct [] [] ["Greet"]
       else if decide (p = "app" ∧ n = "Client") then
         mkStruct
           [mkField "Optional" EmptyString Greeter [("autowire", "false")];
            mkField "Injected" EmptyString (TPtr English) [("inject", "english")];
            mkField "Mismatch" EmptyString (TPtr French) [("autowire", "english")];
            mkField "Mandatory" EmptyString Greeter [("autowire", "true")]]
           [] []
       else mkStruct [] [] [])
    (λ p n, if decide (p = "app" ∧ n = "Greeter") then ["Greet"] else []).

Definition heap0 : gmap addr object :=
  list_to_map
    [ (1%nat, mkObject ("app", "English") []);
      (2%nat, mkObject ("app", "French") []);
      (3%nat, mkObject ("app", "Client") [VNil; VNil; VNil; VNil]) ].

Definition english : instance := (TPtr English, VPtr 1%nat).

Definition french : instance := (TPtr French, VPtr 2%nat).

Definition client : instance := (TPtr Client, VPtr 3%nat).

Definition run (ks : list call) : State := after_calls prog ks (mkState Instance heap0 [] [] []).

(** The client alone. *)
Definition alone : State := run [CallProvide (Some client)].

(** Both implementations, under the names english and french, and the
    client. *)
Definition all : State :=
  run [CallProvideByName "english" (Some english);
       CallProvideByName "french" (Some french);
       CallProvide (Some client)].

End Wiring.

(** ** Reasoning about the monad *)

Lemma bind_Ok_inv {A B} (m : M A) (f : A → M B) s b s2 :
  bind m f s = (Ok b, s2) → ∃ a s1, m s = (Ok a, s1) ∧ f a s1 = (Ok b, s2).
Proof.
  unfold bind. destruct (m s) as [[a|msg] s1]; [eauto | discriminate].
Qed.

Lemma bind_Ok {A B} (m : M A) (f : A → M B) s a s1 :
  m s = (Ok a, s1) → bind m f s = f a s1.
Proof. unfold bind. by intros ->. Qed.

Lemma forM__app {A} (l1 l2 : list A) (f : A → M unit) s :
  forM_ (l1 ++ l2) f s = (forM_ l1 f ;;; forM_ l2 f) s.
Proof.
  revert s. induction l1 as [|x l1 IH]; intros s; simpl.
  - done.
  - unfold bind in *. destruct (f x s) as [[[]|msg] s1]; [apply IH | done].
Qed.

(** A loop that returns went through each of its rounds, and each
    returned. *)
Lemma forM__split_Ok {A} (l1 l2 : list A) (x : A) (f : A → M unit) s s' :
  forM_ (l1 ++ x :: l2) f s = (Ok tt, s') →
  ∃ s1 s2, forM_ l1 f s = (Ok tt, s1) ∧ f x s1 = (Ok tt, s2)
           ∧ forM_ l2 f s2 = (Ok tt, s').
Proof.
  rewrite forM__app. intros H.
  apply bind_Ok_inv in H as ([] & s1 & H1 & H2). simpl in H2.
  apply bind_Ok_inv in H2 as ([] & s2 & H2 & H3). eauto 6.
Qed.

(** A relation between the state before and the state after that every run
    of [m] respects, whether [m] returns or panics. *)
Definition preserves {A} (R : relation State) (m : M A) : Prop :=
  ∀ s, R s (m s).2.

Section preserves.

Context (R : relation State) `{!PreOrder R}.

Lemma preserves_ret {A} (a : A) : preserves R (ret a).
Proof. intros s. simpl. reflexivity. Qed.

Lemma preserves_gets {A} (f : State → A) : preserves R (gets f).
Proof. intros s. simpl. reflexivity. Qed.

Lemma preserves_panic {A} msg : preserves R (@panic A msg).
Proof. intros s. simpl. reflexivity. Qed.

Lemma preserves_bind {A B} (m : M A) (f : A → M B) :
  preserves R m → (∀ a, preserves R (f a)) → preserves R (bind m f).
Proof.
  intros Hm Hf s. unfold bind. specialize (Hm s).
  destruct (m s) as [[a|msg] s1]; simpl in *; [|done].
  etrans; [exact Hm | apply Hf].
Qed.

Lemma preserves_forM_ {A} (l : list A) (f : A → M unit) :
  (∀ x, x ∈ l → preserves R (f x)) → preserves R (forM_ l f).
Proof.
  induction l as [|x l IH]; intros Hf; simpl.
  - apply preserves_ret.
  - apply preserves_bind; [apply Hf; left | intros _; apply IH].
    intros y Hy. apply Hf. by right.
Qed.

End preserves.

(** The relations the proofs use. *)
Definition same_container : relation State :=
  λ s s', container s' = container s.

Definition shape (o : object) : (string * string) * nat :=
  (o_type o, length (o_fields o)).

(** The heap keeps its structs, their types and the number of their
    fields. *)
Definition same_shape : relation State :=
  λ s s', ∀ a, shape <$> heap s' !! a = shape <$> heap s !! a.

(** The output grows, by events that satisfy [P]. *)
Definition out_grows (P : event → Prop) : relation State :=
  λ s s', ∃ evs, out s' = out s ++ evs ∧ Forall P evs.

Global Instance same_container_po : PreOrder same_container.
Proof. split; [done | intros s1 s2 s3 H1 H2; unfold same_container in *; congruence]. Qed.

Global Instance same_shape_po : PreOrder same_shape.
Proof.
  split; [done | intros s1 s2 s3 H1 H2 a; unfold same_shape in *].
  by rewrite H2, H1.
Qed.

Global Instance out_grows_po P : PreOrder (out_grows P).
Proof.
  split.
  - intros s. exists []. by rewrite app_nil_r.
  - intros s1 s2 s3 (e1 & H1 & F1) (e2 & H2 & F2). exists (e1 ++ e2).
    split; [by rewrite H2, H1, app_assoc | by apply Forall_app].
Qed.

Create HintDb pres discriminated.

Lemma preserves_modify (R : relation State) (f : State → State) :
  (∀ s, R s (f s)) → preserves R (modify f).
Proof. intros H s. apply H. Qed.

Lemma range_map_run {V} (m : gmap type V) s :
  ∃ l, range_map m s
       = (Ok l, mkState (container s) (heap s) (out s) (tail (map_order s)) (nanos s))
       ∧ l = permute (default [] (head (map_order s))) (map_to_list m).
Proof.
  unfold range_map. destruct s as [c h o [|mo rest] n]; simpl; eauto.
Qed.

Lemma time_Now_UnixNano_run s :
  ∃ z, time_Now_UnixNano s
       = (Ok z, mkState (container s) (heap s) (out s) (map_order s) (tail (nanos s))).
Proof.
  unfold time_Now_UnixNano. destruct s as [c h o mo [|z rest]]; simpl; eauto.
Qed.

(** Steps that touch neither the container, the heap nor the output. *)
Definition quiet : relation State :=
  λ s s', container s' = container s ∧ heap s' = heap s ∧ out s' = out s.

Global Instance quiet_po : PreOrder quiet.
Proof.
  split; [done | intros s1 s2 s3 (?&?&?) (?&?&?); unfold quiet; split_and!; congruence].
Qed.

Lemma range_map_quiet {V} (m : gmap type V) : preserves quiet (range_map m).
Proof. intros s. destruct (range_map_run m s) as (l & -> & _). done. Qed.

Lemma time_Now_UnixNano_quiet : preserves quiet time_Now_UnixNano.
Proof. intros s. destruct (time_Now_UnixNano_run s) as (z & ->). done. Qed.

Lemma quiet_same_container s s' : quiet s s' → same_container s s'.
Proof. by intros (?&?&?). Qed.

Lemma quiet_same_shape s s' : quiet s s' → same_shape s s'.
Proof. intros (?&H&?) a. by rewrite H. Qed.

Lemma quiet_out_grows P s s' : quiet s s' → out_grows P s s'.
Proof. intros (?&?&H). exists []. by rewrite H, app_nil_r. Qed.

(** A relation that every quiet step respects. *)
Class Coarse (R : relation State) : Prop :=
  coarse : ∀ s s', quiet s s' → R s s'.

Global Instance same_container_coarse : Coarse same_container := quiet_same_container.

Global Instance same_shape_coarse : Coarse same_shape := quiet_same_shape.

Global Instance out_grows_coarse P : Coarse (out_grows P) := quiet_out_grows P.

Lemma preserves_range_map R `{!Coarse R} {V} (m : gmap type V) :
  preserves R (range_map m).
Proof. intros s. apply coarse, range_map_quiet. Qed.

Lemma preserves_time_Now R `{!Coarse R} : preserves R time_Now_UnixNano.
Proof. intros s. apply coarse, time_Now_UnixNano_quiet. Qed.

(** Writing a field. *)
Lemma write_field_container a i v s : container (write_field a i v s) = container s.
Proof. unfold write_field. by destruct (heap s !! a). Qed.

Lemma write_field_out a i v s : out (write_field a i v s) = out s.
Proof. unfold write_field. by destruct (heap s !! a). Qed.

Lemma write_field_shape a i v s a' :
  shape <$> heap (write_field a i v s) !! a' = shape <$> heap s !! a'.
Proof.
  unfold write_field. destruct (heap s !! a) as [o|] eqn:E; [|done]. simpl.
  destruct (decide (a = a')) as [->|Hne].
  - rewrite lookup_insert_eq, E. simpl. unfold shape. simpl. by rewrite length_insert.
  - by rewrite lookup_insert_ne.
Qed.

Lemma write_field_field_ne a i v s a' i' :
  a' ≠ a ∨ i' ≠ i → field_of (write_field a i v s) a' i' = field_of s a' i'.
Proof.
  intros Hne. unfold field_of, write_field.
  destruct (heap s !! a) as [o|] eqn:E; [|done]. simpl.
  destruct (decide (a = a')) as [->|Ha].
  - rewrite lookup_insert_eq, E. simpl. destruct Hne as [?|Hi]; [done|].
    by rewrite list_lookup_insert_ne.
  - by rewrite lookup_insert_ne.
Qed.

Lemma write_field_field_eq a i v s :
  is_Some (field_of s a i) → field_of (write_field a i v s) a i = Some v.
Proof.
  unfold field_of, write_field. destruct (heap s !! a) as [o|] eqn:E; simpl.
  - intros [w Hw]. rewrite lookup_insert_eq. simpl.
    apply list_lookup_insert_eq. by eapply lookup_lt_Some.
  - by intros [? ?].
Qed.

(** Relations that allow a call of the logger, a call of hook [h], a change
    of the container. *)
Class LogOk (R : relation State) : Prop :=
  log_ok : ∀ s l msg args, R s (add_event (EvLog l msg args) s).

Class HookOk (h : hook) (R : relation State) : Prop :=
  hook_ok : ∀ s x, R s (add_event (EvHook h x) s).

Class ContainerBlind (R : relation State) : Prop :=
  container_blind : ∀ s c, R s (set_container c s).

Global Instance same_container_lo : LogOk same_container.
Proof. done. Qed.

Global Instance same_shape_lo : LogOk same_shape.
Proof. done. Qed.

Global Instance out_grows_is_log_lo : LogOk (out_grows is_log).
Proof. intros s l msg args. exists [EvLog l msg args]. split; [done | by constructor]. Qed.

Global Instance out_grows_hook_only_lo h : LogOk (out_grows (hook_only h)).
Proof. intros s l msg args. exists [EvLog l msg args]. split; [done | by constructor]. Qed.

Global Instance out_grows_any_lo : LogOk (out_grows any_event).
Proof. intros s l msg args. exists [EvLog l msg args]. split; [done | by constructor]. Qed.

Global Instance same_container_ho h : HookOk h same_container.
Proof. done. Qed.

Global Instance same_shape_ho h : HookOk h same_shape.
Proof. done. Qed.

Global Instance out_grows_hook_only_ho h : HookOk h (out_grows (hook_only h)).
Proof. intros s x. exists [EvHook h x]. split; [done | by constructor]. Qed.

Global Instance out_grows_any_ho h : HookOk h (out_grows any_event).
Proof. intros s x. exists [EvHook h x]. split; [done | by constructor]. Qed.

Global Instance same_shape_cb : ContainerBlind same_shape.
Proof. done. Qed.

Global Instance out_grows_cb P : ContainerBlind (out_grows P).
Proof. intros s c. exists []. simpl. by rewrite app_nil_r. Qed.

Lemma logf_ok R `{!LogOk R} l msg args : preserves R (logf l msg args).
Proof. intros s. apply log_ok. Qed.

Lemma call_hook_ok R h `{!HookOk h R} x : preserves R (call_hook h x).
Proof. intros s. apply hook_ok. Qed.

Lemma modify_container_blind R `{!ContainerBlind R} f : preserves R (modify_container f).
Proof. intros s. apply container_blind. Qed.

(** Where a write of field [i] at [a] is allowed to show. *)
Class WriteOk (a : addr) (i : nat) (R : relation State) : Prop :=
  write_ok : ∀ s v, R s (write_field a i v s).

Global Instance same_container_wo a i : WriteOk a i same_container.
Proof. intros s v. apply write_field_container. Qed.

Global Instance same_shape_wo a i : WriteOk a i same_shape.
Proof. intros s v a'. apply write_field_shape. Qed.

Global Instance out_grows_wo a i P : WriteOk a i (out_grows P).
Proof. intros s v. exists []. by rewrite write_field_out, app_nil_r. Qed.

Lemma IsNil_pres R `{!PreOrder R} fv : preserves R (IsNil fv).
Proof. refine (preserves_gets _ _). Qed.

Ltac pres_step :=
  match goal with
  | |- preserves _ (bind _ _) => refine (preserves_bind _ _ _ _ _); [|intros ?]
  | |- preserves _ (forM_ _ _) => refine (preserves_forM_ _ _ _ _); intros ? ?
  | |- preserves _ (ret _) => refine (preserves_ret _ _)
  | |- preserves _ (gets _) => refine (preserves_gets _ _)
  | |- preserves _ (panic _) => refine (preserves_panic _ _)
  | |- preserves _ (IsNil _) => refine (IsNil_pres _ _)
  | |- preserves _ (range_map _) => refine (preserves_range_map _ _)
  | |- preserves _ time_Now_UnixNano => refine (preserves_time_Now _)
  | |- preserves _ (logf _ _ _) => refine (logf_ok _ _ _ _)
  | |- preserves _ (call_hook _ _) => refine (call_hook_ok _ _ _)
  | |- preserves _ (modify_container _) => refine (modify_container_blind _ _)
  | |- preserves _ (match ?x with _ => _ end) => destruct x
  | |- preserves _ _ => solve [eauto with pres]
  end.

Ltac pres := unfold logDebug, logInfo, logWarn, logError; repeat pres_step.

Lemma preserves_bind_gets (R : relation State) {A B} (g : State → A) (f : A → M B) :
  (∀ s, R s (f (g s) s).2) → preserves R (bind (gets g) f).
Proof. intros H s. apply H. Qed.

(** The address an instance points to, when it is a pointer to a struct. *)
Definition addr_of (x : any) : option addr :=
  match x with
  | Some (TPtr (TStruct _ _), VPtr a) => Some a
  | _ => None
  end.

Lemma pointee_Some s x a pn :
  pointee s x = Some (a, pn) →
  x = Some (TPtr (TStruct pn.1 pn.2), VPtr a) ∧ is_Some (heap s !! a).
Proof.
  unfold pointee. intros H. destruct x as [[t v]|]; [|done].
  destruct t as [| |e| | |]; try done. destruct e; try done.
  destruct v as [|a0| | | | | |]; try done.
  destruct (heap s !! a0) eqn:E; [|done].
  injection H as <- <-. simpl. eauto.
Qed.

Section frames.

Context (Σ : program).

Lemma Set__pres R `{!PreOrder R} fv ft x :
  WriteOk (fv_addr fv) (fv_index fv) R → preserves R (Set_ Σ fv ft x).
Proof.
  intros W. unfold Set_. pres. apply preserves_modify. intros s. apply write_ok.
Qed.

Lemma ApplyDefaultProviders_pres R `{!PreOrder R, !Coarse R} field fv :
  WriteOk (fv_addr fv) (fv_index fv) R →
  preserves R (ApplyDefaultProviders Σ field fv).
Proof.
  intros W. unfold ApplyDefaultProviders.
  pres; refine (Set__pres _ _ _ _ _).
Qed.

End frames.

Global Hint Extern 1 (preserves _ (Set_ _ _ _ _)) =>
  refine (Set__pres _ _ _ _ _ _) : pres.

Global Hint Extern 1 (preserves _ (ApplyDefaultProviders _ _ _)) =>
  refine (ApplyDefaultProviders_pres _ _ _ _ _) : pres.

Section frames2.

Context (Σ : program).

Lemma initBasicField_pres R `{!PreOrder R, !Coarse R, !LogOk R} a tname i field :
  WriteOk a i R → preserves R (initBasicField Σ a tname (i, field)).
Proof. intros W. unfold initBasicField. pres. Qed.

Lemma initBasicFields_pres R `{!PreOrder R, !Coarse R, !LogOk R} x :
  (∀ a i, addr_of x = Some a → WriteOk a i R) → preserves R (initBasicFields Σ x).
Proof.
  intros W. unfold initBasicFields. apply preserves_bind_gets. intros s.
  destruct (pointee s x) as [[a pn]|] eqn:E; [|simpl; reflexivity].
  apply pointee_Some in E as [-> _].
  apply preserves_forM_; [apply _|]. intros [i field] _.
  apply initBasicField_pres; try apply _. by apply W.
Qed.

Lemma injectField_pres R `{!PreOrder R, !Coarse R, !LogOk R} a t i field :
  WriteOk a i R → preserves R (injectField Σ a t (i, field)).
Proof. intros W. unfold injectField. pres. Qed.

Lemma injectInternal_pres R `{!PreOrder R, !Coarse R, !LogOk R} x :
  (∀ a i, addr_of x = Some a → WriteOk a i R) → preserves R (injectInternal Σ x).
Proof.
  intros W. unfold injectInternal. apply preserves_bind_gets. intros s.
  destruct (pointee s x) as [[a pn]|] eqn:E; [|simpl; reflexivity].
  apply pointee_Some in E as [-> _].
  apply preserves_forM_; [apply _|]. intros [i field] _.
  apply injectField_pres; try apply _. by apply W.
Qed.

Lemma fire_pres R `{!PreOrder R, !LogOk R} h `{!HookOk h R} msg t x :
  preserves R (fire Σ h msg t x).
Proof. unfold fire. pres. Qed.

End frames2.

Section frames3.

Context (Σ : program).

Lemma injectBean_pres R `{!PreOrder R, !Coarse R, !LogOk R}
    `{!HookOk OnInjectBefore R, !HookOk OnInjectAfter R} e :
  (∀ a i, addr_of e.2 = Some a → WriteOk a i R) → preserves R (injectBean Σ e).
Proof.
  intros W. unfold injectBean. destruct e as [t x]. pres.
  - refine (fire_pres _ _ _ _ _ _).
  - by refine (injectInternal_pres _ _ _ _).
  - refine (fire_pres _ _ _ _ _ _).
Qed.

Lemma completeBean_pres R `{!PreOrder R, !LogOk R, !HookOk OnInjectComplete R} e :
  preserves R (completeBean Σ e).
Proof. unfold completeBean. destruct e as [t x]. refine (fire_pres _ _ _ _ _ _). Qed.

(** What StartUp leaves as it is: whatever logging, hook calls and writes to
    fields leave as they are. *)
Lemma StartUp_pres R `{!PreOrder R, !Coarse R, !LogOk R} :
  (∀ h, HookOk h R) → (∀ a i, WriteOk a i R) → preserves R (StartUp Σ).
Proof.
  intros Hh W. unfold StartUp. pres.
  - refine (injectBean_pres _ _ _).
  - refine (completeBean_pres _ _).
Qed.

(** What a registration leaves as it is: whatever logging, the hook after
    registration, writes to the fields of the instance and changes of the
    container leave as they are. *)
Lemma Provide_pres R `{!PreOrder R, !Coarse R, !LogOk R, !ContainerBlind R}
    `{!HookOk OnProvideAfter R} x :
  (∀ a i, addr_of x = Some a → WriteOk a i R) → preserves R (Provide Σ x).
Proof.
  intros W. unfold Provide. pres.
  all: first [by refine (initBasicFields_pres _ _ _ _) | refine (fire_pres _ _ _ _ _ _)].
Qed.

Lemma ProvideByName_pres R `{!PreOrder R, !Coarse R, !LogOk R, !ContainerBlind R}
    `{!HookOk OnProvideAfter R} name x :
  (∀ a i, addr_of x = Some a → WriteOk a i R) → preserves R (ProvideByName Σ name x).
Proof.
  intros W. unfold ProvideByName. pres.
  all: first [by refine (initBasicFields_pres _ _ _ _) | refine (fire_pres _ _ _ _ _ _)].
Qed.

End frames3.

(** ** Functions that cannot panic *)

Definition returns {A} (m : M A) : Prop := ∀ s, ∃ a s', m s = (Ok a, s').

Lemma returns_ret {A} (a : A) : returns (ret a).
Proof. intros s. by eexists _, _. Qed.

Lemma returns_gets {A} (f : State → A) : returns (gets f).
Proof. intros s. by eexists _, _. Qed.

Lemma returns_modify f : returns (modify f).
Proof. intros s. by eexists _, _. Qed.

Lemma returns_bind {A B} (m : M A) (f : A → M B) :
  returns m → (∀ a, returns (f a)) → returns (bind m f).
Proof.
  intros Hm Hf s. destruct (Hm s) as (a & s1 & E). unfold bind. rewrite E. apply Hf.
Qed.

Lemma returns_forM_ {A} (l : list A) (f : A → M unit) :
  (∀ x, x ∈ l → returns (f x)) → returns (forM_ l f).
Proof.
  induction l as [|x l IH]; intros Hf; simpl.
  - apply returns_ret.
  - apply returns_bind; [apply Hf; left | intros _; apply IH].
    intros y Hy. apply Hf. by right.
Qed.

Lemma returns_range_map {V} (m : gmap type V) : returns (range_map m).
Proof. intros s. destruct (range_map_run m s) as (l & -> & _). by eexists _, _. Qed.

Lemma returns_time_Now : returns time_Now_UnixNano.
Proof. intros s. destruct (time_Now_UnixNano_run s) as (z & ->). by eexists _, _. Qed.

Ltac rets_step :=
  match goal with
  | |- returns (bind _ _) => apply returns_bind; [|intros ?]
  | |- returns (forM_ _ _) => apply returns_forM_; intros ? ?
  | |- returns (ret _) => apply returns_ret
  | |- returns (gets _) => apply returns_gets
  | |- returns (IsNil _) => apply returns_gets
  | |- returns (modify _) => apply returns_modify
  | |- returns (modify_container _) => apply returns_modify
  | |- returns (logf _ _ _) => apply returns_modify
  | |- returns (call_hook _ _) => apply returns_modify
  | |- returns (range_map _) => apply returns_range_map
  | |- returns time_Now_UnixNano => apply returns_time_Now
  | |- returns (match ?x with _ => _ end) => destruct x eqn:?
  | |- returns _ => solve [eauto with pres]
  end.

Ltac rets := unfold logDebug, logInfo, logWarn, logError; repeat rets_step.

Section returns.

Context (Σ : program).

Lemma AssignableTo_refl t : AssignableTo Σ t t = true.
Proof. unfold AssignableTo. by rewrite bool_decide_eq_true_2. Qed.

Lemma Set__returns fv ft x :
  CanSet fv = true → AssignableTo Σ x.1 ft = true → returns (Set_ Σ fv ft x).
Proof. intros H1 H2. unfold Set_. rewrite H1, H2. simpl. apply returns_modify. Qed.

Lemma ApplyDefaultProviders_returns field fv :
  returns (ApplyDefaultProviders Σ field fv).
Proof.
  unfold ApplyDefaultProviders. destruct (CanSet fv) eqn:E; simpl; [|apply returns_ret].
  rets; apply Set__returns; auto using AssignableTo_refl.
Qed.

Lemma initBasicFields_returns x : returns (initBasicFields Σ x).
Proof.
  unfold initBasicFields, initBasicField. rets.
  apply ApplyDefaultProviders_returns.
Qed.

Lemma fire_returns h msg t x : returns (fire Σ h msg t x).
Proof. unfold fire. rets. Qed.


Lemma ProvideByName_returns name x : returns (ProvideByName Σ name x).
Proof.
  unfold ProvideByName. rets;
    first [apply initBasicFields_returns | apply fire_returns].
Qed.

End returns.

(** ** What a registration does, written out *)

Section registration.

Context (Σ : program).

Lemma add_events_nil s : add_events [] s = s.
Proof. destruct s. unfold add_events. simpl. by rewrite app_nil_r. Qed.

Lemma add_events_app e1 e2 s : add_events e2 (add_events e1 s) = add_events (e1 ++ e2) s.
Proof. unfold add_events. simpl. by rewrite app_assoc. Qed.

Lemma fire_run h msg t x s :
  fire Σ h msg t x s = (Ok tt, add_events (fire_events Σ h msg t x) s).
Proof.
  unfold fire, fire_events. destruct x as [obj|]; [|by rewrite add_events_nil].
  destruct (has_hook Σ obj.1 h); [|by rewrite add_events_nil].
  unfold bind, logInfo, logf, call_hook, modify, add_events, add_event. simpl.
  by rewrite <- app_assoc.
Qed.

(** The state before initBasicFields runs in a registration: the advice to
    register a pointer has been logged. *)
Definition advised (msg : string) (t : type) (s : State) : State :=
  if decide (kind t ≠ KPtr) then add_event (EvLog LWarn msg [String_ t]) s else s.

(** The state after [Provide], from the state [s1] that initBasicFields
    leaves. *)
Definition provided (x : instance) (s1 : State) : State :=
  let t := x.1 in
  let c := container s1 in
  match typeToObjectMap c !! t with
  | Some _ =>
      add_events [EvLog LWarn "Provide: duplicate type registration, ignored" [String_ t]] s1
  | None =>
      let c1 := set_typeToObjectMap (<[t := Some x]> (typeToObjectMap c)) c in
      let beanName := displayName t in
      let '(c2, warn) :=
        match nameToObjMap c1 !! beanName with
        | Some _ =>
            (c1, [EvLog LWarn "Provide: duplicate default bean name, ignored" [beanName]])
        | None => (set_nameToObjMap (<[beanName := Some x]> (nameToObjMap c1)) c1, [])
        end in
      add_events
        (warn ++ [EvLog LInfo "registered bean" [String_ t; String_ t]]
         ++ fire_events Σ OnProvideAfter "calling the hook after registration" t (Some x))
        (set_container c2 s1)
  end.

Lemma Provide_run x s :
  ∃ s1, initBasicFields Σ (Some x)
          (advised "Provide: registering a pointer type is advised" x.1 s) = (Ok tt, s1)
        ∧ Provide Σ (Some x) s = (Ok tt, provided x s1).
Proof.
  destruct x as [t v]. simpl.
  destruct (initBasicFields_returns Σ (Some (t, v))
              (advised "Provide: registering a pointer type is advised" t s))
    as ([] & s1 & E1).
  exists s1. split; [done|].
  unfold Provide. unfold bind at 1.
  assert ((if decide (kind t ≠ KPtr)
           then logWarn "Provide: registering a pointer type is advised" [String_ t]
           else ret tt) s
          = (Ok tt, advised "Provide: registering a pointer type is advised" t s)) as ->.
  { unfold advised. by destruct (decide (kind t ≠ KPtr)). }
  rewrite (bind_Ok _ _ _ _ _ E1). unfold provided. simpl.
  unfold bind at 1. simpl.
  destruct (typeToObjectMap (container s1) !! t) eqn:Et; [done|].
  unfold bind at 1. simpl. unfold bind at 1. simpl.
  destruct (nameToObjMap (container s1) !! displayName t) eqn:En.
  - unfold bind. simpl. rewrite fire_run. unfold add_events. simpl.
    by rewrite <- !app_assoc.
  - unfold bind. simpl. rewrite fire_run. unfold add_events. simpl.
    by rewrite <- !app_assoc.
Qed.

(** The state after a [ProvideByName] that registers, from the state [s1]
    that initBasicFields leaves. *)
Definition provided_by_name (name : string) (x : instance) (s1 : State) : State :=
  let t := x.1 in
  let c := container s1 in
  let c1 := set_typeToObjectMap (<[t := Some x]> (typeToObjectMap c)) c in
  let c2 := set_nameToObjMap (<[name := Some x]> (nameToObjMap c1)) c1 in
  add_events
    ([EvLog LInfo "registered bean by name" [name; String_ t; String_ t]]
     ++ fire_events Σ OnProvideAfter "calling the hook after registration" t (Some x))
    (set_container c2 s1).

Lemma ProvideByName_fresh name x s :
  is_blank name = false →
  nameToObjMap (container s) !! name = None →
  ∃ s1, initBasicFields Σ (Some x)
          (advised "ProvideByName: registering a pointer type is advised" x.1 s)
        = (Ok tt, s1)
        ∧ ProvideByName Σ name (Some x) s = (Ok None, provided_by_name name x s1).
Proof.
  intros Hb Hn. destruct x as [t v]. simpl.
  destruct (initBasicFields_returns Σ (Some (t, v))
              (advised "ProvideByName: registering a pointer type is advised" t s))
    as ([] & s1 & E1).
  exists s1. split; [done|].
  unfold ProvideByName. rewrite Hb. unfold bind at 1. simpl. rewrite Hn.
  unfold bind at 1.
  assert ((if decide (kind t ≠ KPtr)
           then logWarn "ProvideByName: registering a pointer type is advised" [String_ t]
           else ret tt) s
          = (Ok tt, advised "ProvideByName: registering a pointer type is advised" t s)) as ->.
  { unfold advised. by destruct (decide (kind t ≠ KPtr)). }
  rewrite (bind_Ok _ _ _ _ _ E1). unfold provided_by_name.
  unfold bind. simpl. rewrite fire_run. unfold add_events. simpl.
  by rewrite <- !app_assoc.
Qed.

Lemma ProvideByName_duplicate name x s :
  is_blank name = false →
  is_Some (nameToObjMap (container s) !! name) →
  ProvideByName Σ name (Some x) s
  = (Ok (Some (err_duplicate name)),
     add_events [EvLog LError "%s" [err_duplicate name]]
       (set_container
          (set_fatalErrors (fatalErrors (container s) ++ [err_duplicate name]) (container s))
          s)).
Proof.
  intros Hb [e He]. destruct x as [t v].
  unfold ProvideByName. rewrite Hb. unfold bind at 1. simpl. rewrite He. done.
Qed.

Lemma ProvideByName_invalid name x s :
  x = None ∨ is_blank name = true →
  ProvideByName Σ name x s = (Ok (Some err_invalid_argument), s).
Proof.
  intros [->|Hb]; [done|]. unfold ProvideByName. destruct x as [[t v]|]; [|done].
  by rewrite Hb.
Qed.

End registration.

(** Names stay registered and the fatal errors stay recorded. *)
Definition registry_grows : relation State :=
  λ s s',
    (∀ n, is_Some (nameToObjMap (container s) !! n) →
          is_Some (nameToObjMap (container s') !! n))
    ∧ fatalErrors (container s) `prefix_of` fatalErrors (container s').

Global Instance registry_grows_po : PreOrder registry_grows.
Proof.
  split.
  - intros s. split; [done | reflexivity].
  - intros s1 s2 s3 [N1 F1] [N2 F2]. split; [auto | by etrans].
Qed.

Lemma same_container_registry_grows s s' : same_container s s' → registry_grows s s'.
Proof. unfold same_container. intros E. split; rewrite E; [done | reflexivity]. Qed.

Section runs.

Context (Σ : program).

Lemma initBasicFields_container x s r s1 :
  initBasicFields Σ x s = (r, s1) → container s1 = container s.
Proof.
  intros E. pose proof (initBasicFields_pres Σ same_container x) as H.
  specialize (H ltac:(intros; apply _) s). by rewrite E in H.
Qed.

Lemma advised_container msg t s : container (advised msg t s) = container s.
Proof. unfold advised. by destruct (decide _). Qed.

Lemma Provide_registry_grows x s : registry_grows s (Provide Σ x s).2.
Proof.
  destruct x as [x|]; [|reflexivity].
  destruct (Provide_run Σ x s) as (s1 & E1 & ->). simpl.
  apply initBasicFields_container in E1. rewrite advised_container in E1.
  unfold provided. rewrite E1.
  destruct (typeToObjectMap (container s) !! x.1).
  { split; simpl; rewrite E1; [done | reflexivity]. }
  simpl. destruct (nameToObjMap (container s) !! displayName x.1) eqn:En; simpl.
  - split; simpl; [done | reflexivity].
  - split; [|reflexivity]. intros n Hn. simpl.
    destruct (decide (displayName x.1 = n)) as [->|Hne].
    + rewrite lookup_insert_eq. eauto.
    + by rewrite lookup_insert_ne.
Qed.

Lemma ProvideByName_registry_grows name x s :
  registry_grows s (ProvideByName Σ name x s).2.
Proof.
  destruct (decide (x = None ∨ is_blank name = true)) as [Hi|Hv].
  { rewrite ProvideByName_invalid by done. reflexivity. }
  destruct x as [x|]; [|by destruct Hv; left].
  destruct (is_blank name) eqn:Hb; [by destruct Hv; right|].
  destruct (nameToObjMap (container s) !! name) eqn:En.
  - rewrite ProvideByName_duplicate by eauto. simpl. split; [done|].
    by apply prefix_app_r.
  - destruct (ProvideByName_fresh Σ name x s Hb En) as (s1 & E1 & ->). simpl.
    apply initBasicFields_container in E1. rewrite advised_container in E1.
    split; simpl; rewrite E1; [|reflexivity]. intros n Hn.
    destruct (decide (name = n)) as [->|Hne].
    + rewrite lookup_insert_eq. eauto.
    + by rewrite lookup_insert_ne.
Qed.

Lemma StartUp_container s : container (StartUp Σ s).2 = container s.
Proof. apply (StartUp_pres Σ same_container); intros; apply _. Qed.

Lemma after_call_registry_grows k s : registry_grows s (after_call Σ k s).
Proof.
  destruct k; simpl.
  - apply Provide_registry_grows.
  - apply ProvideByName_registry_grows.
  - apply same_container_registry_grows. unfold same_container. apply StartUp_container.
Qed.

Lemma after_calls_registry_grows ks s : registry_grows s (after_calls Σ ks s).
Proof.
  revert s. induction ks as [|k ks IH]; intros s; simpl; [reflexivity|].
  etrans; [apply after_call_registry_grows | apply IH].
Qed.

(** After a [ProvideByName] with valid arguments the name is taken: by this
    instance, or by the one that had it. *)
Lemma ProvideByName_name_taken name x s :
  is_blank name = false →
  is_Some (nameToObjMap (container (ProvideByName Σ name (Some x) s).2) !! name).
Proof.
  intros Hb. destruct (nameToObjMap (container s) !! name) eqn:En.
  - rewrite ProvideByName_duplicate by eauto. simpl. rewrite En. eauto.
  - destruct (ProvideByName_fresh Σ name x s Hb En) as (s1 & E1 & ->). simpl.
    rewrite lookup_insert_eq. eauto.
Qed.

Lemma forM__logError msg (l : list string) s :
  forM_ l (λ e, logError msg [e]) s
  = (Ok tt, add_events ((λ e, EvLog LError msg [e]) <$> l) s).
Proof.
  revert s. induction l as [|e l IH]; intros s; simpl.
  - by rewrite add_events_nil.
  - unfold bind. simpl. rewrite IH. unfold add_events. simpl.
    by rewrite <- app_assoc.
Qed.

(** StartUp on a container with fatal errors: the errors are logged and
    nothing else happens. *)
Lemma StartUp_fatal s :
  fatalErrors (container s) ≠ [] →
  StartUp Σ s
  = (Ok (Some err_fatal),
     add_events
       (EvLog LInfo "starting the container and injecting dependencies" []
        :: ((λ e, EvLog LError "fatal error" [e]) <$> fatalErrors (container s)))
       s).
Proof.
  intros Hf. unfold StartUp. unfold bind at 1. simpl. unfold bind at 1. simpl.
  destruct (decide (0 < length (fatalErrors (container s)))) as [_|Hl].
  - unfold bind. rewrite forM__logError. simpl. unfold add_events. simpl.
    by rewrite <- app_assoc.
  - destruct (fatalErrors (container s)); [done | simpl in Hl; lia].
Qed.

End runs.

(** ** Loops over the fields of a struct *)

Lemma imap_pair_split {A} (l : list A) i x :
  l !! i = Some x →
  ∃ pre post, imap pair l = pre ++ (i, x) :: post
              ∧ ∀ e, e ∈ pre ∨ e ∈ post → e.1 ≠ i.
Proof.
  intros Hi. pose proof (lookup_lt_Some _ _ _ Hi) as Hlt.
  exists (imap pair (take i l)), (imap (λ n, pair (i + S n)) (drop (S i) l)).
  split.
  - rewrite <- (take_drop_middle l i x Hi) at 1.
    rewrite imap_app, imap_cons, length_take_le by lia.
    by rewrite Nat.add_0_r.
  - intros e [He|He]; apply elem_of_lookup_imap_1 in He as (j & y & -> & Hj); simpl.
    + apply lookup_lt_Some in Hj. rewrite length_take in Hj. lia.
    + lia.
Qed.

Lemma forM__field_split {A} (body : nat * A → M unit) (l : list A) i x s s' :
  l !! i = Some x →
  forM_ (imap pair l) body s = (Ok tt, s') →
  ∃ pre post s1 s2,
    (∀ e, e ∈ pre ∨ e ∈ post → e.1 ≠ i)
    ∧ forM_ pre body s = (Ok tt, s1)
    ∧ body (i, x) s1 = (Ok tt, s2)
    ∧ forM_ post body s2 = (Ok tt, s').
Proof.
  intros Hi H. destruct (imap_pair_split l i x Hi) as (pre & post & E & Hne).
  rewrite E in H. apply forM__split_Ok in H as (s1 & s2 & H1 & H2 & H3).
  exists pre, post, s1, s2. eauto.
Qed.

(** Field [i] of the struct at [a] keeps its value. *)
Definition keeps_field (a : addr) (i : nat) : relation State :=
  λ s s', field_of s' a i = field_of s a i.

Global Instance keeps_field_po a i : PreOrder (keeps_field a i).
Proof.
  split; [done | intros s1 s2 s3 H1 H2; unfold keeps_field in *; congruence].
Qed.

Global Instance keeps_field_coarse a i : Coarse (keeps_field a i).
Proof. intros s s' (?&H&?). unfold keeps_field, field_of. by rewrite H. Qed.

Global Instance keeps_field_lo a i : LogOk (keeps_field a i).
Proof. done. Qed.

Global Instance keeps_field_ho h a i : HookOk h (keeps_field a i).
Proof. done. Qed.

Global Instance keeps_field_cb a i : ContainerBlind (keeps_field a i).
Proof. done. Qed.

Lemma keeps_field_write a i a' j :
  a' ≠ a ∨ j ≠ i → WriteOk a' j (keeps_field a i).
Proof.
  intros Hne s v. unfold keeps_field. apply write_field_field_ne.
  destruct Hne; [left | right]; congruence.
Qed.

Lemma preserves_run {A} (R : relation State) (m : M A) s r s' :
  preserves R m → m s = (r, s') → R s s'.
Proof. intros H E. specialize (H s). by rewrite E in H. Qed.

Section fields.

Context (Σ : program).

Lemma Set__run fv ft x s :
  CanSet fv = true → AssignableTo Σ x.1 ft = true →
  Set_ Σ fv ft x s
  = (Ok tt, write_field (fv_addr fv) (fv_index fv) (store_value ft x) s).
Proof. intros H1 H2. unfold Set_. by rewrite H1, H2. Qed.

Lemma store_value_same ft v :
  kind ft ≠ KInterface → store_value ft (ft, v) = v.
Proof. intros H. unfold store_value. by destruct (decide _). Qed.

(** One round of initBasicFields on a nil map field. *)
Lemma initBasicField_map a tn i fd s r s2 :
  initBasicField Σ a tn (i, fd) s = (r, s2) →
  IsExported fd = true → untagged fd →
  kind (f_type fd) = KMap → field_of s a i = Some VNil →
  field_of s2 a i = Some (VMap []).
Proof.
  intros H He [Ha Hi] Hk Hnil. unfold initBasicField in H.
  unfold CanSet, Field in H. simpl in H. rewrite He in H. simpl in H.
  destruct (decide _) as [[?|?]|_]; [done..|].
  unfold ApplyDefaultProviders, CanSet in H. simpl in H.
  destruct (decide (kind (f_type fd) = KMap)); [|done].
  unfold bind in H. simpl in H. rewrite Hnil in H.
  rewrite Set__run in H by (by rewrite ?AssignableTo_refl). simpl in H.
  injection H as _ <-. simpl. rewrite store_value_same by (by rewrite Hk).
  apply write_field_field_eq. by rewrite Hnil.
Qed.

(** One round of initBasicFields on a nil slice field. *)
Lemma initBasicField_slice a tn i fd s r s2 :
  initBasicField Σ a tn (i, fd) s = (r, s2) →
  IsExported fd = true → untagged fd →
  kind (f_type fd) = KSlice → field_of s a i = Some VNil →
  field_of s2 a i = Some (VSlice []).
Proof.
  intros H He [Ha Hi] Hk Hnil. unfold initBasicField in H.
  unfold CanSet, Field in H. simpl in H. rewrite He in H. simpl in H.
  destruct (decide _) as [[?|?]|_]; [done..|].
  unfold ApplyDefaultProviders, CanSet in H. simpl in H.
  destruct (decide (kind (f_type fd) = KMap)) as [E|_]; [by rewrite Hk in E|].
  destruct (decide (kind (f_type fd) = KSlice)); [|done].
  unfold bind in H. simpl in H. rewrite Hnil in H.
  rewrite Set__run in H by (by rewrite ?AssignableTo_refl). simpl in H.
  injection H as _ <-. simpl. rewrite store_value_same by (by rewrite Hk).
  apply write_field_field_eq. by rewrite Hnil.
Qed.

(** One round of initBasicFields leaves a field that holds a value, or that
    is tagged or not settable, as it is. *)
Lemma initBasicField_keeps a tn i fd s r s2 :
  initBasicField Σ a tn (i, fd) s = (r, s2) →
  field_of s a i ≠ Some VNil ∨ IsExported fd = false ∨ ¬ untagged fd →
  field_of s2 a i = field_of s a i.
Proof.
  intros H Hc. unfold initBasicField in H.
  unfold CanSet, Field in H. simpl in H.
  destruct (IsExported fd) eqn:He; simpl in H; [|by injection H as _ <-].
  destruct (decide _) as [Ht|Ht]; [by injection H as _ <-|].
  assert (field_of s a i ≠ Some VNil) as Hnn.
  { destruct Hc as [?|[?|Hu]]; [done..|]. destruct Hu. split.
    - destruct (decide (Tag_Get (f_tag fd) "autowire" = EmptyString)); [done|].
      destruct Ht. by left.
    - destruct (decide (Tag_Get (f_tag fd) "inject" = EmptyString)); [done|].
      destruct Ht. by right. }
  assert (match field_of s a i with Some VNil => true | _ => false end = false) as Hn.
  { destruct (field_of s a i) as [[]|]; done. }
  unfold ApplyDefaultProviders, CanSet in H. simpl in H.
  repeat (destruct (decide _) in H);
    unfold bind in H; simpl in H; rewrite ?Hn in H; simpl in H;
    by injection H as _ <-.
Qed.

End fields.

Section seeding.

Context (Σ : program).

Lemma pointee_ptr s p n a :
  is_Some (heap s !! a) →
  pointee s (Some (TPtr (TStruct p n), VPtr a)) = Some (a, (p, n)).
Proof. intros [o Ho]. unfold pointee. by rewrite Ho. Qed.

Lemma pointee_not_ptr s t v : kind t ≠ KPtr → pointee s (Some (t, v)) = None.
Proof. by destruct t. Qed.

Lemma initBasicFields_no_pointee x s :
  pointee s x = None → initBasicFields Σ x s = (Ok tt, s).
Proof. intros H. unfold initBasicFields, bind. simpl. by rewrite H. Qed.

Lemma injectInternal_no_pointee x s :
  pointee s x = None → injectInternal Σ x s = (Ok tt, s).
Proof. intros H. unfold injectInternal, bind. simpl. by rewrite H. Qed.

(** initBasicFields, seen from one field: the rounds of the other fields
    leave it alone. *)
Lemma initBasicFields_field p n a i fd s r s' :
  is_Some (heap s !! a) →
  sd_fields (structs Σ p n) !! i = Some fd →
  initBasicFields Σ (Some (TPtr (TStruct p n), VPtr a)) s = (r, s') →
  ∃ s1 s2, keeps_field a i s s1
           ∧ initBasicField Σ a n (i, fd) s1 = (Ok tt, s2)
           ∧ keeps_field a i s2 s'.
Proof.
  intros Ha Hi H.
  destruct (initBasicFields_returns Σ (Some (TPtr (TStruct p n), VPtr a)) s)
    as ([] & s'' & E).
  rewrite E in H. injection H as _ <-.
  unfold initBasicFields, bind in E. simpl in E.
  rewrite (pointee_ptr s p n a Ha) in E. unfold fields_of in E. simpl in E.
  apply (forM__field_split _ _ i fd) in E as (pre & post & s1 & s2 & Hne & E1 & E2 & E3);
    [|done].
  exists s1, s2. split_and!; [|done|].
  - eapply preserves_run; [|exact E1]. apply preserves_forM_; [apply _|].
    intros [j fd'] Hj. apply initBasicField_pres; try apply _.
    apply keeps_field_write. right. apply (Hne (j, fd')). by left.
  - eapply preserves_run; [|exact E3]. apply preserves_forM_; [apply _|].
    intros [j fd'] Hj. apply initBasicField_pres; try apply _.
    apply keeps_field_write. right. apply (Hne (j, fd')). by right.
Qed.

Lemma initBasicFields_seeds p n a i fd s r s' :
  is_Some (heap s !! a) →
  sd_fields (structs Σ p n) !! i = Some fd →
  IsExported fd = true → untagged fd →
  initBasicFields Σ (Some (TPtr (TStruct p n), VPtr a)) s = (r, s') →
  seeds_field s s' a i fd.
Proof.
  intros Ha Hi He Hu H.
  destruct (initBasicFields_field p n a i fd s r s' Ha Hi H)
    as (s1 & s2 & K1 & E & K2).
  unfold keeps_field in *. split_and!.
  - intros Hk Hnil. rewrite K2.
    eapply initBasicField_map; eauto. by rewrite K1.
  - intros Hk Hnil. rewrite K2.
    eapply initBasicField_slice; eauto. by rewrite K1.
  - intros Hnn. rewrite K2, <- K1.
    eapply initBasicField_keeps; eauto. left. by rewrite K1.
Qed.

Lemma seeds_field_ext s0 s s' s1 a i fd :
  heap s0 = heap s → heap s1 = heap s' →
  seeds_field s s' a i fd → seeds_field s0 s1 a i fd.
Proof. unfold seeds_field, field_of. by intros -> ->. Qed.

Lemma advised_heap msg t s : heap (advised msg t s) = heap s.
Proof. unfold advised. by destruct (decide _). Qed.

Lemma advised_out msg t s :
  ∃ logs, out (advised msg t s) = out s ++ logs ∧ Forall is_log logs.
Proof.
  unfold advised. destruct (decide _).
  - eexists [_]. split; [done|]. by constructor.
  - exists []. by rewrite app_nil_r.
Qed.

Lemma provided_heap x s1 : heap (provided Σ x s1) = heap s1.
Proof.
  unfold provided. destruct (typeToObjectMap (container s1) !! x.1); [done|].
  simpl. by destruct (nameToObjMap (container s1) !! displayName x.1).
Qed.

Lemma ProvideByName_success name x s s' :
  ProvideByName Σ name (Some x) s = (Ok None, s') →
  is_blank name = false ∧ nameToObjMap (container s) !! name = None
  ∧ ∃ s1, initBasicFields Σ (Some x)
            (advised "ProvideByName: registering a pointer type is advised" x.1 s)
          = (Ok tt, s1)
          ∧ s' = provided_by_name Σ name x s1.
Proof.
  intros H. destruct (is_blank name) eqn:Hb.
  { rewrite ProvideByName_invalid in H by auto. done. }
  destruct (nameToObjMap (container s) !! name) eqn:Hn.
  { rewrite ProvideByName_duplicate in H by eauto. done. }
  destruct (ProvideByName_fresh Σ name x s Hb Hn) as (s1 & E1 & E2).
  rewrite E2 in H. injection H as <-. eauto.
Qed.

End seeding.

(** Provide never replaces an entry of the Type Index. *)
Lemma Provide_keeps_first (Σ : program) (s : State) (x : any) (t : type) (e : any) :
  typeToObjectMap (container s) !! t = Some e →
  typeToObjectMap (container (Provide Σ x s).2) !! t = Some e.
Proof.
  intros Ht. destruct x as [x|]; [|done].
  destruct (Provide_run Σ x s) as (s1 & E1 & ->). simpl.
  apply initBasicFields_container in E1. rewrite advised_container in E1.
  unfold provided. rewrite E1.
  destruct (typeToObjectMap (container s) !! x.1) eqn:Ex; simpl; [by rewrite E1|].
  assert (x.1 ≠ t) by congruence.
  destruct (nameToObjMap (container s) !! displayName x.1); simpl;
    by rewrite lookup_insert_ne.
Qed.

(** A ProvideByName that registers puts its instance in the Type Index,
    whatever was there. *)
Lemma ProvideByName_overwrites (Σ : program) (s s' : State) (name : string) (x : instance) :
  ProvideByName Σ name (Some x) s = (Ok None, s') →
  typeToObjectMap (container s') !! x.1 = Some (Some x).
Proof.
  intros H. apply ProvideByName_success in H as (_ & _ & s1 & _ & ->). simpl.
  by rewrite lookup_insert_eq.
Qed.

(** ** The order of a range over a map *)

Lemma permute_Permutation {A} (choice : list nat) (l : list A) :
  permute choice l ≡ₚ l.
Proof.
  revert l. induction choice as [|k choice IH]; intros l; simpl; [done|].
  destruct (l !! (k mod length l)%nat) as [x|] eqn:E.
  - rewrite IH. symmetry. by apply delete_Permutation.
  - apply lookup_ge_None in E. destruct l as [|y l]; [done|].
    pose proof (Nat.mod_upper_bound k (length (y :: l))) as Hlt.
    simpl in *. lia.
Qed.


Lemma range_map_inv {V} (m : gmap type V) s l s' :
  range_map m s = (Ok l, s') → l ≡ₚ map_to_list m ∧ quiet s s'.
Proof.
  intros H. destruct (range_map_run m s) as (l0 & E & ->). rewrite E in H.
  injection H as <- <-. split; [apply permute_Permutation | done].
Qed.

(** The conjunction of two relations. *)
Definition rel_and (R1 R2 : relation State) : relation State :=
  λ s s', R1 s s' ∧ R2 s s'.

Global Instance rel_and_po R1 R2 `{!PreOrder R1, !PreOrder R2} : PreOrder (rel_and R1 R2).
Proof.
  split.
  - intros s. split; reflexivity.
  - intros s1 s2 s3 [??] [??]. split; etrans; eauto.
Qed.

Global Instance rel_and_coarse R1 R2 `{!Coarse R1, !Coarse R2} : Coarse (rel_and R1 R2).
Proof. intros s s' H. split; by apply coarse. Qed.

Global Instance rel_and_lo R1 R2 `{!LogOk R1, !LogOk R2} : LogOk (rel_and R1 R2).
Proof. intros s l msg args. split; apply log_ok. Qed.

Global Instance rel_and_ho h R1 R2 `{!HookOk h R1, !HookOk h R2} : HookOk h (rel_and R1 R2).
Proof. intros s x. split; apply hook_ok. Qed.

Global Instance rel_and_cb R1 R2 `{!ContainerBlind R1, !ContainerBlind R2} :
  ContainerBlind (rel_and R1 R2).
Proof. intros s c. split; apply container_blind. Qed.

Global Instance rel_and_wo a i R1 R2 `{!WriteOk a i R1, !WriteOk a i R2} :
  WriteOk a i (rel_and R1 R2).
Proof. intros s v. split; apply write_ok. Qed.

(** What every step of StartUp respects, apart from the round of field [i]
    of the struct at [a]: the container, the shape of the heap, the value
    of that field; and the output only grows. *)
Definition around (a : addr) (i : nat) : relation State :=
  rel_and same_container
    (rel_and same_shape (rel_and (out_grows any_event) (keeps_field a i))).

Lemma around_write a i a' j : a' ≠ a ∨ j ≠ i → WriteOk a' j (around a i).
Proof.
  intros Hne. unfold around.
  pose proof (keeps_field_write a i a' j Hne). apply _.
Qed.

Global Instance around_po a i : PreOrder (around a i).
Proof. unfold around. apply _. Qed.

Global Instance around_coarse a i : Coarse (around a i).
Proof. unfold around. apply _. Qed.

Global Instance around_lo a i : LogOk (around a i).
Proof. unfold around. apply _. Qed.

Global Instance around_ho h a i : HookOk h (around a i).
Proof. unfold around. apply _. Qed.

Lemma around_add_events a i evs s : around a i s (add_events evs s).
Proof.
  unfold around, rel_and, out_grows. split_and!; try done.
  exists evs. split; [done|]. by apply Forall_true.
Qed.

(** ** StartUp, taken apart *)

Lemma addr_of_Some x a :
  addr_of x = Some a → ∃ p n, x = Some (TPtr (TStruct p n), VPtr a).
Proof.
  destruct x as [[t v]|]; [|done]. destruct t as [| |e| | |]; try done.
  destruct e; try done. destruct v; try done. intros [= ->]. eauto.
Qed.

Section startup.

Context (Σ : program).

Lemma StartUp_inv s r s' :
  fatalErrors (container s) = [] →
  StartUp Σ s = (Ok r, s') →
  r = None
  ∧ ∃ entries1 entries2 sA sB sC sD,
      quiet (add_event ev_starting s) sA
      ∧ entries1 ≡ₚ map_to_list (typeToObjectMap (container s))
      ∧ forM_ entries1 (injectBean Σ) sA = (Ok tt, sB)
      ∧ quiet sB sC
      ∧ entries2 ≡ₚ map_to_list (typeToObjectMap (container sB))
      ∧ forM_ entries2 (completeBean Σ) sC = (Ok tt, sD)
      ∧ s' = add_event ev_started sD.
Proof.
  intros Hf H. unfold StartUp in H.
  unfold bind at 1 in H. simpl in H. unfold bind at 1 in H. simpl in H.
  rewrite Hf in H. simpl in H.
  destruct (decide (0 < 0)) as [?|_]; [lia|].
  unfold bind at 1 in H. simpl in H.
  apply bind_Ok_inv in H as (entries1 & sA & E1 & H).
  apply range_map_inv in E1 as [P1 Q1].
  apply bind_Ok_inv in H as ([] & sB & E2 & H).
  unfold bind at 1 in H. simpl in H.
  apply bind_Ok_inv in H as (entries2 & sC & E3 & H).
  apply range_map_inv in E3 as [P3 Q3].
  apply bind_Ok_inv in H as ([] & sD & E4 & H).
  unfold bind in H. simpl in H. injection H as <- <-.
  split; [done|]. exists entries1, entries2, sA, sB, sC, sD. split_and!; done.
Qed.

Lemma injectBean_inv t x s s' :
  injectBean Σ (t, x) s = (Ok tt, s') →
  ∃ sJ, injectInternal Σ x
          (add_events (ev_round t :: fire_events Σ OnInjectBefore
                         "calling the hook before injection" t x) s)
        = (Ok tt, sJ)
        ∧ s' = add_events
                 (fire_events Σ OnInjectAfter "calling the hook after injection" t x) sJ.
Proof.
  intros H. unfold injectBean in H.
  unfold bind at 1 in H. simpl in H.
  unfold bind at 1 in H. rewrite fire_run in H.
  apply bind_Ok_inv in H as ([] & sJ & E & H). rewrite fire_run in H.
  injection H as <-. exists sJ. split; [|done].
  rewrite <- E. f_equal. unfold add_events, add_event. simpl.
  by rewrite <- app_assoc.
Qed.

Lemma wf_other_bean s t x t' x' a :
  wf Σ s →
  typeToObjectMap (container s) !! t = Some x →
  typeToObjectMap (container s) !! t' = Some x' →
  t ≠ t' → addr_of x = Some a → addr_of x' ≠ Some a.
Proof.
  intros Hwf Ht Ht' Hne Ha Ha'.
  apply addr_of_Some in Ha as (p & n & ->).
  apply addr_of_Some in Ha' as (p' & n' & ->).
  destruct (Hwf _ _ Ht) as (y & [= <-] & Hy & _ & Hp).
  destruct (Hwf _ _ Ht') as (y' & [= <-] & Hy' & _ & Hp').
  destruct (Hp _ _ _ eq_refl) as (o & Ho & Hty & _).
  destruct (Hp' _ _ _ eq_refl) as (o' & Ho' & Hty' & _).
  simpl in *. congruence.
Qed.

Lemma wf_bean_heap s t p n a :
  wf Σ s →
  typeToObjectMap (container s) !! t = Some (Some (TPtr (TStruct p n), VPtr a)) →
  t = TPtr (TStruct p n)
  ∧ ∃ o, heap s !! a = Some o
         ∧ length (o_fields o) = length (sd_fields (structs Σ p n)).
Proof.
  intros Hwf Ht. destruct (Hwf _ _ Ht) as (y & [= <-] & Hy & _ & Hp).
  destruct (Hp _ _ _ eq_refl) as (o & Ho & _ & Hl). eauto.
Qed.

Lemma same_shape_is_Some s s' a :
  same_shape s s' → is_Some (heap s !! a) → is_Some (heap s' !! a).
Proof.
  intros H [o Ho]. specialize (H a). rewrite Ho in H. simpl in H.
  destruct (heap s' !! a); [eauto | done].
Qed.

(** The first loop of StartUp, away from the bean at [a]: the rounds of
    the other beans respect [around a i]. *)
Lemma injectBean_around s0 t x a i e :
  wf Σ s0 →
  typeToObjectMap (container s0) !! t = Some x →
  addr_of x = Some a →
  typeToObjectMap (container s0) !! e.1 = Some e.2 →
  e.1 ≠ t →
  preserves (around a i) (injectBean Σ e).
Proof.
  intros Hwf Ht Ha He Hne.
  apply injectBean_pres; try apply _.
  intros a' j Ha'. apply around_write. left. intros ->.
  by eapply (wf_other_bean s0 t x e.1 e.2 a).
Qed.

(** StartUp, seen from one field of one bean: a single round of
    injectInternal deals with the field, and every other step leaves it
    alone. *)
Lemma StartUp_field s r s' t p n a i fd :
  wf Σ s →
  fatalErrors (container s) = [] →
  StartUp Σ s = (Ok r, s') →
  typeToObjectMap (container s) !! t = Some (Some (TPtr (TStruct p n), VPtr a)) →
  sd_fields (structs Σ p n) !! i = Some fd →
  ∃ s1 s2, around a i s s1
           ∧ injectField Σ a (TStruct p n) (i, fd) s1 = (Ok tt, s2)
           ∧ around a i s2 s'.
Proof.
  intros Hwf Hf H Ht Hi.
  apply StartUp_inv in H as (_ & en1 & en2 & sA & sB & sC & sD
                             & QA & P1 & L1 & QC & P2 & L2 & ->); [|done].
  set (x := Some (TPtr (TStruct p n), VPtr a)) in *.
  assert (around a i s sA) as RA.
  { etrans; [apply (log_ok (R := around a i)) | by apply coarse]. }
  assert ((t, x) ∈ en1) as Hin.
  { rewrite P1. by apply elem_of_map_to_list. }
  apply list_elem_of_split in Hin as (l1 & l2 & ->).
  assert (∀ e, e ∈ l1 ∨ e ∈ l2 →
               typeToObjectMap (container s) !! e.1 = Some e.2 ∧ e.1 ≠ t) as Hother.
  { pose proof (NoDup_fst_map_to_list (typeToObjectMap (container s))) as Hnd.
    rewrite <- P1, fmap_app, fmap_cons in Hnd. simpl in Hnd.
    apply list.NoDup_app in Hnd as (_ & Hd1 & Hd2).
    apply list.NoDup_cons in Hd2 as [Hd2 _].
    intros [t' x'] He. split.
    - apply elem_of_map_to_list. rewrite <- P1.
      rewrite elem_of_app, elem_of_cons. tauto.
    - simpl. intros ->. destruct He as [He|He].
      + apply (Hd1 t); [|left]. by apply (list_elem_of_fmap_2 fst _ (t, x')).
      + apply Hd2. by apply (list_elem_of_fmap_2 fst _ (t, x')). }
  apply forM__split_Ok in L1 as (sA1 & sA2 & E1 & E2 & E3).
  assert (around a i sA sA1) as R1.
  { eapply preserves_run; [|exact E1]. apply preserves_forM_; [apply _|].
    intros e He. destruct (Hother e) as [? ?]; [by left|].
    by eapply (injectBean_around s t x). }
  assert (around a i sA2 sB) as R3.
  { eapply preserves_run; [|exact E3]. apply preserves_forM_; [apply _|].
    intros e He. destruct (Hother e) as [? ?]; [by right|].
    by eapply (injectBean_around s t x). }
  assert (around a i sB (add_event ev_started sD)) as R4.
  { etrans; [by apply coarse|]. etrans; [|apply (log_ok (R := around a i))].
    eapply preserves_run; [|exact L2]. apply preserves_forM_; [apply _|].
    intros e _. apply completeBean_pres; apply _. }
  apply injectBean_inv in E2 as (sJ & EJ & ->).
  set (sI := add_events _ sA1) in EJ.
  assert (around a i sA1 sI) as RI.
  { apply around_add_events. }
  assert (around a i s sI) as RsI by (etrans; [exact RA|]; etrans; eauto).
  assert (is_Some (heap sI !! a)) as HaI.
  { destruct (wf_bean_heap s t p n a Hwf Ht) as (_ & o & Ho & _).
    destruct RsI as (_ & Hsh & _). eapply same_shape_is_Some; eauto. }
  unfold injectInternal, bind in EJ. simpl in EJ.
  subst x. rewrite (pointee_ptr sI p n a HaI) in EJ. unfold fields_of in EJ. simpl in EJ.
  apply (forM__field_split _ _ i fd) in EJ
    as (pre & post & s1 & s2 & Hne & F1 & F2 & F3); [|done].
  exists s1, s2. split_and!; [|done|].
  - etrans; [exact RsI|]. eapply preserves_run; [|exact F1].
    apply preserves_forM_; [apply _|]. intros [j fd'] Hj.
    apply injectField_pres; try apply _. apply around_write. right.
    apply (Hne (j, fd')). by left.
  - etrans; [|etrans; [|etrans; [exact R3 | exact R4]]].
    + eapply preserves_run; [|exact F3].
      apply preserves_forM_; [apply _|]. intros [j fd'] Hj.
      apply injectField_pres; try apply _. apply around_write. right.
      apply (Hne (j, fd')). by right.
    + apply around_add_events.
Qed.

End startup.

(** ** One round of injectInternal *)

Section rounds.

Context (Σ : program).

Lemma Set__Ok_inv fv ft x s s' :
  Set_ Σ fv ft x s = (Ok tt, s') →
  CanSet fv = true ∧ AssignableTo Σ x.1 ft = true
  ∧ s' = write_field (fv_addr fv) (fv_index fv) (store_value ft x) s.
Proof.
  unfold Set_. destruct (CanSet fv); [|done]. simpl.
  destruct (AssignableTo Σ x.1 ft); [|done]. simpl. by intros [= <-].
Qed.


(** The round of a settable field tagged with the name of a bean whose type
    is assignable to the type of the field: the bean is assigned. *)
Lemma injectField_by_name a t i fd s1 s2 obj :
  injectField Σ a t (i, fd) s1 = (Ok tt, s2) →
  wiring_tag fd ≠ EmptyString → wiring_tag fd ≠ "true" → wiring_tag fd ≠ "false" →
  IsExported fd = true →
  nameToObjMap (container s1) !! wiring_tag fd = Some (Some obj) →
  AssignableTo Σ obj.1 (f_type fd) = true →
  is_Some (field_of s1 a i) →
  field_of s2 a i = Some (store_value (f_type fd) obj).
Proof.
  intros H Hne Ht Hf He Hn HA Hsome. unfold injectField in H.
  fold (wiring_tag fd) in H. unfold CanSet, Field in H. simpl in H.
  rewrite He in H. simpl in H.
  destruct (decide _) as [|_]; [done|].
  unfold bind at 1 in H. simpl in H.
  destruct (decide _) as [[|]|_]; [done..|].
  unfold bind at 1 in H. simpl in H. rewrite Hn, HA in H. simpl in H.
  apply bind_Ok_inv in H as ([] & sW & EW & H).
  apply Set__Ok_inv in EW as (_ & _ & ->). injection H as <-. simpl.
  by apply write_field_field_eq.
Qed.

End rounds.

(** ** Well-formed states are kept *)

Section wf.

Context (Σ : program).

Lemma instance_ok_shape h h' x :
  (∀ a, shape <$> h' !! a = shape <$> h !! a) →
  instance_ok Σ h x → instance_ok Σ h' x.
Proof.
  intros Hs [Hk Hp]. split; [done|]. intros p n a ->.
  destruct (Hp p n a eq_refl) as (o & Ho & Ht & Hl).
  specialize (Hs a). rewrite Ho in Hs. simpl in Hs.
  destruct (h' !! a) as [o'|]; [|done]. injection Hs as Hs1 Hs2.
  exists o'. split_and!; [done|congruence..].
Qed.

Lemma wf_shape s s' :
  same_shape s s' →
  typeToObjectMap (container s') = typeToObjectMap (container s) →
  wf Σ s → wf Σ s'.
Proof.
  intros Hs Hc Hwf t x Ht. rewrite Hc in Ht.
  destruct (Hwf t x Ht) as (y & -> & Hy & Hok).
  exists y. split_and!; [done..|]. by eapply instance_ok_shape.
Qed.

Lemma wf_empty h o mo ns : wf Σ (mkState Instance h o mo ns).
Proof. apply map_Forall_empty. Qed.

Lemma wf_insert s s' x :
  same_shape s s' →
  typeToObjectMap (container s') = <[x.1 := Some x]> (typeToObjectMap (container s)) →
  instance_ok Σ (heap s) x →
  wf Σ s → wf Σ s'.
Proof.
  intros Hs Hc Hx Hwf t y Ht. rewrite Hc in Ht.
  destruct (decide (x.1 = t)) as [<-|Hne].
  - rewrite lookup_insert_eq in Ht. injection Ht as <-.
    exists x. split_and!; [done..|]. by eapply instance_ok_shape.
  - rewrite lookup_insert_ne in Ht by done.
    destruct (Hwf t y Ht) as (z & -> & Hz & Hok).
    exists z. split_and!; [done..|]. by eapply instance_ok_shape.
Qed.

Lemma Provide_wf x s :
  instance_ok Σ (heap s) x → wf Σ s → wf Σ (Provide Σ (Some x) s).2.
Proof.
  intros Hx Hwf.
  pose proof (Provide_pres Σ same_shape (Some x) ltac:(intros; apply _) s) as Hs.
  destruct (Provide_run Σ x s) as (s1 & E1 & E2). rewrite E2 in *. simpl in *.
  apply initBasicFields_container in E1. rewrite advised_container in E1.
  unfold provided in *. rewrite E1 in *.
  destruct (typeToObjectMap (container s) !! x.1) eqn:Ex.
  - eapply wf_shape; [exact Hs | | exact Hwf]. simpl. by rewrite E1.
  - eapply wf_insert; [exact Hs | | exact Hx | exact Hwf]. simpl.
    by destruct (nameToObjMap (container s) !! displayName x.1).
Qed.

Lemma ProvideByName_wf name x s :
  instance_ok Σ (heap s) x → wf Σ s → wf Σ (ProvideByName Σ name (Some x) s).2.
Proof.
  intros Hx Hwf.
  pose proof (ProvideByName_pres Σ same_shape name (Some x) ltac:(intros; apply _) s) as Hs.
  destruct (ProvideByName Σ name (Some x) s) as [[[e|]|msg] s'] eqn:E; simpl in *.
  - eapply wf_shape; [exact Hs | | exact Hwf].
    destruct (is_blank name) eqn:Hb.
    { rewrite ProvideByName_invalid in E by auto. by injection E as _ <-. }
    destruct (nameToObjMap (container s) !! name) eqn:Hn.
    + rewrite ProvideByName_duplicate in E by eauto. by injection E as _ <-.
    + destruct (ProvideByName_fresh Σ name x s Hb Hn) as (s1 & _ & E2). congruence.
  - apply ProvideByName_success in E as (_ & _ & s1 & E1 & ->).
    apply initBasicFields_container in E1. rewrite advised_container in E1.
    eapply wf_insert; [exact Hs | | exact Hx | exact Hwf]. simpl. by rewrite E1.
  - destruct (ProvideByName_returns Σ name (Some x) s) as (? & ? & ?). congruence.
Qed.

Lemma StartUp_wf s : wf Σ s → wf Σ (StartUp Σ s).2.
Proof.
  intros Hwf. eapply wf_shape; [| |exact Hwf].
  - apply (StartUp_pres Σ same_shape); intros; apply _.
  - by rewrite StartUp_container.
Qed.

(** The field of a bean that points to a struct holds a value. *)
Lemma wf_field s t p n a i fd :
  wf Σ s →
  typeToObjectMap (container s) !! t = Some (Some (TPtr (TStruct p n), VPtr a)) →
  sd_fields (structs Σ p n) !! i = Some fd →
  is_Some (field_of s a i).
Proof.
  intros Hwf Ht Hi. destruct (wf_bean_heap Σ s t p n a Hwf Ht) as (_ & o & Ho & Hl).
  unfold field_of. rewrite Ho. simpl. apply lookup_lt_is_Some.
  rewrite Hl. by eapply lookup_lt_Some.
Qed.

End wf.

Lemma elem_of_scan_candidates Σ ft entries x :
  x ∈ scan_candidates Σ ft entries ↔
  ∃ t, (t, Some x) ∈ entries ∧ is_candidate Σ x.1 ft = true.
Proof.
  unfold scan_candidates. rewrite list_elem_of_omap. split.
  - intros ([t [y|]] & He & H); simpl in H; [|done].
    destruct (is_candidate Σ y.1 ft) eqn:Ec; [|done]. injection H as ->. eauto.
  - intros (t & He & Hc). exists (t, Some x). split; [done|]. simpl. by rewrite Hc.
Qed.


(** An instance of the tests is well-formed on a heap that agrees with
    the heap of the tests on its struct. *)
Ltac instance_ok_tac :=
  split; [done|];
  let p := fresh in let n := fresh in let a := fresh in let E := fresh in
  intros p n a E; injection E as <- <- <-;
  eexists; split_and!; vm_compute; reflexivity.



(** ** The output of StartUp *)

Lemma forM__segments {A} (P : A → list event → Prop) (l : list A)
    (f : A → M unit) s s' :
  (∀ x s1 s2, x ∈ l → f x s1 = (Ok tt, s2) → ∃ evs, out s2 = out s1 ++ evs ∧ P x evs) →
  forM_ l f s = (Ok tt, s') →
  ∃ segs, Forall2 P l segs ∧ out s' = out s ++ concat segs.
Proof.
  revert s. induction l as [|x l IH]; intros s Hf H; simpl in H.
  - injection H as <-. exists []. split; [constructor | by rewrite app_nil_r].
  - apply bind_Ok_inv in H as ([] & s1 & E1 & E2).
    destruct (Hf x s s1 ltac:(left) E1) as (evs & Ho & HP).
    destruct (IH s1) as (segs & HF & Ho'); [|done|].
    { intros y sa sb Hy. apply Hf. by right. }
    exists (evs :: segs). split; [by constructor|].
    simpl. by rewrite Ho', Ho, app_assoc.
Qed.

Section trace.

Context (Σ : program).

Lemma injectBean_round e s1 s2 :
  injectBean Σ e s1 = (Ok tt, s2) → ∃ evs, out s2 = out s1 ++ evs ∧ round_of Σ e evs.
Proof.
  destruct e as [t x]. intros H. apply injectBean_inv in H as (sJ & EJ & ->).
  destruct (preserves_run (out_grows is_log) _ _ _ _
              (injectInternal_pres Σ (out_grows is_log) _ ltac:(intros; apply _)) EJ)
    as (logs & Hl & HF).
  eexists. split; [|exists logs; split; [exact HF | reflexivity]].
  simpl. rewrite Hl. simpl. by rewrite <- !app_assoc.
Qed.

Lemma forM__completeBean l s :
  forM_ l (completeBean Σ) s = (Ok tt, add_events (concat (completion_of Σ <$> l)) s).
Proof.
  revert s. induction l as [|[t x] l IH]; intros s; simpl.
  - by rewrite add_events_nil.
  - unfold bind. unfold completeBean at 1. rewrite fire_run, IH.
    by rewrite add_events_app.
Qed.

(** The output of a StartUp that returns: the first loop runs the round of
    every bean of the Type Index, in the order of its range; then the second
    loop calls the hook on completion, in the order of its range. *)
Lemma StartUp_trace s r s' :
  fatalErrors (container s) = [] →
  StartUp Σ s = (Ok r, s') →
  ∃ order1 order2 rounds,
    order1 ≡ₚ map_to_list (typeToObjectMap (container s))
    ∧ order2 ≡ₚ map_to_list (typeToObjectMap (container s))
    ∧ Forall2 (round_of Σ) order1 rounds
    ∧ out s' = out s ++ [ev_starting] ++ concat rounds
               ++ concat (completion_of Σ <$> order2) ++ [ev_started].
Proof.
  intros Hf H.
  apply StartUp_inv in H as (_ & en1 & en2 & sA & sB & sC & sD
                             & (QAc & _ & QAo) & P1 & L1 & (_ & _ & QCo) & P2 & L2 & ->);
    [|done].
  assert (container sB = container sA) as HcB.
  { eapply (preserves_run same_container); [|exact L1].
    apply preserves_forM_; [apply _|].
    intros e _. apply injectBean_pres; try apply _. }
  destruct (forM__segments (round_of Σ) en1 (injectBean Σ) sA sB) as (rounds & HF & Ho);
    [intros; by apply injectBean_round | done |].
  exists en1, en2, rounds. split_and!; [done| |done|].
  - by rewrite P2, HcB, QAc.
  - rewrite forM__completeBean in L2. injection L2 as <-. simpl.
    rewrite QCo, Ho, QAo. simpl. by rewrite <- !app_assoc.
Qed.

End trace.

(** ** The hooks called on one bean *)

Lemma hooks_on_app t l1 l2 : hooks_on t (l1 ++ l2) = hooks_on t l1 ++ hooks_on t l2.
Proof. apply omap_app. Qed.

Lemma hooks_on_logs t logs : Forall is_log logs → hooks_on t logs = [].
Proof.
  induction 1 as [|e l He _ IH]; [done|]. destruct e; [|done]. exact IH.
Qed.

Lemma hooks_on_concat t (H : list hook) (order : list (type * any)) segs :
  Forall2 (λ e evs, hooks_on t evs = if decide (e.1 = t) then H else []) order segs →
  NoDup (order.*1) →
  hooks_on t (concat segs) = if decide (t ∈ order.*1) then H else [].
Proof.
  induction 1 as [|e evs order segs He _ IH]; intros Hnd.
  - rewrite decide_False; [done|]. apply not_elem_of_nil.
  - rewrite fmap_cons in *. apply list.NoDup_cons in Hnd as [Hni Hnd].
    change (concat (evs :: segs)) with (evs ++ concat segs).
    rewrite hooks_on_app, He, (IH Hnd).
    destruct (decide (e.1 = t)) as [<-|Hne].
    + rewrite (decide_False (P := e.1 ∈ order.*1)) by done.
      rewrite (decide_True (P := e.1 ∈ e.1 :: order.*1)) by left.
      apply app_nil_r.
    + destruct (decide (t ∈ order.*1)) as [Hin|Hnin].
      * rewrite (decide_True (P := t ∈ e.1 :: order.*1)) by by right. done.
      * rewrite (decide_False (P := t ∈ e.1 :: order.*1)); [done|].
        rewrite elem_of_cons. by intros [->|?].
Qed.

Section hooks.

Context (Σ : program).

Lemma hooks_on_fire_events t h msg t' y :
  hooks_on t (fire_events Σ h msg t' (Some y))
  = if has_hook Σ y.1 h then (if decide (y.1 = t) then [h] else []) else [].
Proof.
  unfold fire_events. destruct (has_hook Σ y.1 h); [|done]. simpl.
  by destruct (decide (y.1 = t)).
Qed.



Lemma wf_entries s order :
  wf Σ s →
  order ≡ₚ map_to_list (typeToObjectMap (container s)) →
  NoDup (order.*1)
  ∧ ∀ e, e ∈ order →
         typeToObjectMap (container s) !! e.1 = Some e.2
         ∧ ∃ y, e.2 = Some y ∧ y.1 = e.1.
Proof.
  intros Hwf Hp. split.
  - rewrite Hp. apply NoDup_fst_map_to_list.
  - intros [t x] He. rewrite Hp in He. apply elem_of_map_to_list in He.
    split; [done|]. destruct (Hwf _ _ He) as (y & -> & Hy & _). eauto.
Qed.



End hooks.

Lemma Forall2_and_l {A B} (P : A → B → Prop) (Q : A → Prop) l k :
  Forall2 P l k → Forall Q l → Forall2 (λ x y, P x y ∧ Q x) l k.
Proof.
  induction 1 as [|x y l k HP _ IH]; intros HQ; [constructor|].
  apply list.Forall_cons in HQ as [Hx HQ]. constructor; auto.
Qed.

Section lifecycle.

Context (Σ : program).



End lifecycle.

(** ** When StartUp returns

    A Set panics when the scan has kept a candidate whose type is not
    assignable to the field.  That takes a registered instance whose type is
    a pointer to a pointer or to an interface; without one StartUp returns. *)









Section plain.

Context (Σ : program).








(** A settable by-name field whose name is not registered: StartUp leaves
    it as it is. *)
Lemma StartUp_by_name_unregistered_kept s s' t p n a i fd name :
  wf Σ s →
  fatalErrors (container s) = [] →
  StartUp Σ s = (Ok None, s') →
  typeToObjectMap (container s) !! t = Some (Some (TPtr (TStruct p n), VPtr a)) →
  sd_fields (structs Σ p n) !! i = Some fd →
  by_name_field fd name →
  nameToObjMap (container s) !! name = None →
  field_of s' a i = field_of s a i.
Proof.
  intros Hwf Hf H Ht Hi (Htag & Hne & Htr & Hfa & He) Hn.
  destruct (StartUp_field Σ s _ s' t p n a i fd Hwf Hf H Ht Hi)
    as (s1 & s2 & (Hc1 & _ & _ & K1) & E & (_ & _ & _ & K2)).
  unfold keeps_field, same_container in *. rewrite K2, <- K1.
  assert (wiring_tag fd = name) as Hw.
  { unfold wiring_tag. rewrite Htag. by destruct (decide (name = EmptyString)). }
  unfold injectField in E. fold (wiring_tag fd) in E. rewrite Hw in E.
  unfold CanSet, Field in E. simpl in E. rewrite He in E. simpl in E.
  destruct (decide _) as [|_]; [done|].
  unfold bind at 1 in E. simpl in E.
  destruct (decide _) as [[|]|_]; [done..|].
  unfold bind at 1 in E. simpl in E. rewrite Hc1, Hn in E.
  by injection E as <-.
Qed.

End plain.

(** ** The tests of the repository, run on the model *)

Module TestRuns.
Import Tests.

(** TestContainer_ProvideDuplicateType: the first instance is kept. *)
Example ProvideDuplicateType :
  typeToObjectMap (container (run [CallProvide (Some service1); CallProvide (Some service2)]))
    !! TPtr UserServiceImpl
  = Some (Some service1).
Proof. vm_compute. reflexivity. Qed.

(** TestContainer_ProvideNil: a nil instance is ignored. *)
Example ProvideNil s : Provide prog None s = (Ok tt, s).
Proof. reflexivity. Qed.

(** TestContainer_ProvideByNameDuplicate and
    TestContainer_StartUpWithFatalError. *)
Example ProvideByNameDuplicate :
  let s1 := run [CallProvideByName "MyService" (Some service1)] in
  (ProvideByName prog "MyService" (Some service1) (run [])).1 = Ok None
  ∧ (ProvideByName prog "MyService" (Some service2) s1).1
    = Ok (Some (err_duplicate "MyService"))
  ∧ (StartUp prog (ProvideByName prog "MyService" (Some service2) s1).2).1
    = Ok (Some err_fatal).
Proof. vm_compute. split_and!; reflexivity. Qed.

(** A blank name is an invalid argument. *)
Example ProvideByName_blank :
  is_blank EmptyString = true ∧ is_blank blank_name = true ∧ is_blank " x" = false
  ∧ ProvideByName prog blank_name (Some service1) (run [])
    = (Ok (Some err_invalid_argument), run []).
Proof. vm_compute. split_and!; reflexivity. Qed.

(** TestContainer_AutowireByType. *)
Example AutowireByType :
  let r := StartUp prog (run [CallProvide (Some service1); CallProvide (Some orderService)]) in
  r.1 = Ok None ∧ field_of r.2 3 0 = Some (VIface (TPtr UserServiceImpl) (VPtr 1%nat)).
Proof. vm_compute. split; reflexivity. Qed.

(** TestContainer_AutowireByName. *)
Example AutowireByName :
  let r := StartUp prog (run [CallProvideByName "MyServiceB" (Some service2);
                              CallProvide (Some serviceA_ByName)]) in
  r.1 = Ok None ∧ field_of r.2 11 0 = Some (VPtr 2%nat).
Proof. vm_compute. split; reflexivity. Qed.

(** TestContainer_AutowireOptional. *)
Example AutowireOptional :
  let r := StartUp prog (run [CallProvide (Some serviceA_Optional)]) in
  r.1 = Ok None ∧ field_of r.2 12 0 = Some VNil.
Proof. vm_compute. split; reflexivity. Qed.

(** TestContainer_AutowireRequiredNotFound: the error is logged, StartUp
    returns nil and the field stays nil. *)
Example AutowireRequiredNotFound :
  let r := StartUp prog (run [CallProvide (Some serviceA_Required)]) in
  r.1 = Ok None ∧ field_of r.2 13 0 = Some VNil
  ∧ EvLog LError "injection by type name failed: no instance of this type name"
      ["ServiceA_Required"; "RequiredService"; "UserServiceImpl"] ∈ out r.2.
Proof.
  vm_compute. split_and!; [reflexivity..|]. apply list_elem_of_In. simpl. tauto.
Qed.

(** TestContainer_UnexportedField: the exported field is injected by the
    name of its type, the other one is skipped. *)
Example UnexportedField :
  let r := StartUp prog (run [CallProvide (Some service1);
                              CallProvide (Some serviceWithUnexported)]) in
  r.1 = Ok None ∧ field_of r.2 8 0 = Some (VPtr 1%nat) ∧ field_of r.2 8 1 = Some VNil.
Proof. vm_compute. split_and!; reflexivity. Qed.

(** TestContainer_NonPointerType and TestContainer_EmptyContainer. *)
Example NonPointerType :
  (StartUp prog (run [CallProvide (Some nonPointerService)])).1 = Ok None
  ∧ (StartUp prog (run [])).1 = Ok None.
Proof. vm_compute. split; reflexivity. Qed.

(** TestContainer_AutoInitMap, TestContainer_AutoInitSlice and
    TestContainer_AutoInitRand (the clock reads 42). *)
Example AutoInit :
  field_of (run [CallProvide (Some serviceWithMap)]) 7 0 = Some (VMap [])
  ∧ field_of (run [CallProvide (Some serviceWithMap)]) 7 1 = Some (VSlice [])
  ∧ field_of (Provide prog (Some serviceWithRand) (mkState Instance heap0 [] [] [42%Z])).2
      10 0
    = Some (VRand 42).
Proof. vm_compute. split_and!; reflexivity. Qed.

(** TestLifecycle_CallbackOrder. *)
Example CallbackOrder :
  hooks_on (TPtr FullLifecycleTest)
    (out (StartUp prog (run [CallProvide (Some fullLifecycle)])).2)
  = [OnProvideAfter; OnInjectBefore; OnInjectAfter; OnInjectComplete].
Proof. vm_compute. reflexivity. Qed.

(** TestContainer_CircularDependency. *)
Example CircularDependency :
  let r := StartUp prog circular in
  r.1 = Ok None ∧ field_of r.2 5 0 = Some (VPtr 6%nat) ∧ field_of r.2 6 0 = Some (VPtr 5%nat).
Proof. vm_compute. split_and!; reflexivity. Qed.

(** TestContainer_MultipleImplementations: the second instance of the type
    is not registered, so a single implementation is found. *)
Example MultipleImplementations :
  let r := StartUp prog (run [CallProvide (Some service1); CallProvide (Some service2);
                              CallProvide (Some orderService)]) in
  r.1 = Ok None ∧ field_of r.2 3 0 = Some (VIface (TPtr UserServiceImpl) (VPtr 1%nat)).
Proof. vm_compute. split; reflexivity. Qed.

End TestRuns.

(** * The claims *)

(** ** C1: a duplicate name blocks every later start-up *)

(** C1. When ProvideByName is called twice with the same non-blank name and
    non-nil instances, whatever calls come in between, the second call returns
    the duplicate-registration error and appends it to the fatal errors; and
    whatever calls come later, StartUp then returns the fatal error and leaves
    the container, the heap and the oracles as they are, adding only log
    entries to the output: no hook is called and no field is resolved. *)
Theorem C1_duplicate_name_blocks_startup
    (Σ : program) (s : State) (name : string) (x1 x2 : instance)
    (mid later : list call) :
  is_blank name = false →
  let s1 := (ProvideByName Σ name (Some x1) s).2 in
  let s2 := after_calls Σ mid s1 in
  let s3 := (ProvideByName Σ name (Some x2) s2).2 in
  let s4 := after_calls Σ later s3 in
  (ProvideByName Σ name (Some x2) s2).1 = Ok (Some (err_duplicate name))
  ∧ fatalErrors (container s3) = fatalErrors (container s2) ++ [err_duplicate name]
  ∧ ∃ logs, Forall is_log logs
            ∧ StartUp Σ s4 = (Ok (Some err_fatal), add_events logs s4).
Proof.
  intros Hb s1 s2 s3 s4.
  assert (is_Some (nameToObjMap (container s2) !! name)) as Htaken.
  { apply (after_calls_registry_grows Σ mid s1).
    by apply ProvideByName_name_taken. }
  pose proof (ProvideByName_duplicate Σ name x2 s2 Hb Htaken) as Edup.
  split; [by rewrite Edup|]. split; [subst s3; by rewrite Edup|].
  assert (fatalErrors (container s3) ≠ []) as H3.
  { subst s3. rewrite Edup. simpl. by destruct (fatalErrors (container s2)). }
  assert (fatalErrors (container s4) ≠ []) as Hfatal.
  { destruct (after_calls_registry_grows Σ later s3) as [_ [k Hk]].
    fold s4 in Hk. rewrite Hk. by destruct (fatalErrors (container s3)). }
  eexists. split; [|by apply StartUp_fatal].
  constructor; [done|]. apply Forall_fmap. by apply Forall_true.
Qed.

Lemma C1_duplicate_name_blocks_startup_witness :
  is_blank "MyService" = false
  ∧ (ProvideByName Tests.prog "MyService" (Some Tests.service2)
       (ProvideByName Tests.prog "MyService" (Some Tests.service1) (Tests.fresh [])).2).1
    = Ok (Some (err_duplicate "MyService")).
Proof.
  split; [reflexivity|].
  exact (proj1 (C1_duplicate_name_blocks_startup Tests.prog (Tests.fresh [])
                  "MyService" Tests.service1 Tests.service2 [] [] eq_refl)).
Defined.

(** ** C2: which instance the Type Index keeps for a type *)

(** C2 fails on the code.  After Provide(service1) and then
    ProvideByName("second", service2), two instances of the one type
    *UserServiceImpl, the second call returns no error and the Type Index
    holds service2 for the type: the entry of service1, registered first, has
    been replaced. *)
Theorem C2_ProvideByName_replaces_type_entry :
  let s1 := (Provide Tests.prog (Some Tests.service1) (Tests.fresh [])).2 in
  let r := ProvideByName Tests.prog "second" (Some Tests.service2) s1 in
  typeToObjectMap (container s1) !! TPtr Tests.UserServiceImpl = Some (Some Tests.service1)
  ∧ r.1 = Ok None
  ∧ typeToObjectMap (container r.2) !! TPtr Tests.UserServiceImpl
    = Some (Some Tests.service2)
  ∧ Tests.service2 ≠ Tests.service1.
Proof. vm_compute. split_and!; [reflexivity..|discriminate]. Qed.

(** ** C3: a mandatory interface field *)



(** ** C4: the order of the lifecycle hooks *)



(** ** C5: resolution errors and the result of StartUp *)

(** C5 fails on the code.  With a bean of type **UserServiceImpl and an
    OrderServiceImpl registered, and no fatal error recorded, the scan for the
    field UserService keeps the pointer to the pointer as a candidate, because
    the type it points to implements the interface, and setting the field to
    it panics: StartUp does not return. *)
Theorem C5_StartUp_panics_without_fatal_error :
  wf Tests.prog Tests.pointer_to_pointer
  ∧ fatalErrors (container Tests.pointer_to_pointer) = []
  ∧ is_candidate Tests.prog (TPtr (TPtr Tests.UserServiceImpl)) Tests.UserService = true
  ∧ AssignableTo Tests.prog (TPtr (TPtr Tests.UserServiceImpl)) Tests.UserService = false
  ∧ (StartUp Tests.prog Tests.pointer_to_pointer).1
    = Panic "reflect.Set: value is not assignable to type".
Proof.
  split.
  - unfold Tests.pointer_to_pointer, after_calls. simpl.
    apply Provide_wf; [instance_ok_tac|].
    apply Provide_wf; [|apply wf_empty].
    split; [done|]. intros p n a [=].
  - vm_compute. split_and!; reflexivity.
Qed.

(** ** C6: the order in which StartUp visits the beans *)




(** ** C7: two beans that refer to each other by name *)



(** ** C8: registration seeds the nil maps and slices *)

(** C8. For an instance that points to a struct, passed to Provide, or to a
    ProvideByName that registers it: right after the call, every settable
    field without autowire or inject tag that was a nil map is an empty
    non-nil map, every such field that was a nil slice is an empty non-nil
    slice, and every such field that was not nil holds the value it held. *)
Theorem C8_registration_seeds_nil_maps_and_slices
    (Σ : program) (s s' : State) (p n : string) (a : addr) (i : nat)
    (fd : StructField) :
  let x : instance := (TPtr (TStruct p n), VPtr a) in
  is_Some (heap s !! a) →
  sd_fields (structs Σ p n) !! i = Some fd →
  IsExported fd = true →
  untagged fd →
  (Provide Σ (Some x) s = (Ok tt, s')
   ∨ ∃ name, ProvideByName Σ name (Some x) s = (Ok None, s')) →
  (kind (f_type fd) = KMap → field_of s a i = Some VNil →
   field_of s' a i = Some (VMap []))
  ∧ (kind (f_type fd) = KSlice → field_of s a i = Some VNil →
     field_of s' a i = Some (VSlice []))
  ∧ (field_of s a i ≠ Some VNil → field_of s' a i = field_of s a i).
Proof.
  intros x Ha Hi He Hu [H|[name H]].
  - destruct (Provide_run Σ x s) as (s1 & E1 & E2). rewrite E2 in H.
    injection H as <-.
    pose proof (initBasicFields_seeds Σ p n a i fd _ _ _
                  ltac:(rewrite advised_heap; exact Ha) Hi He Hu E1) as Hs.
    eapply seeds_field_ext; [| |exact Hs];
      [by rewrite advised_heap | by rewrite provided_heap].
  - apply ProvideByName_success in H as (_ & _ & s1 & E1 & ->).
    pose proof (initBasicFields_seeds Σ p n a i fd _ _ _
                  ltac:(rewrite advised_heap; exact Ha) Hi He Hu E1) as Hs.
    eapply seeds_field_ext; [| |exact Hs]; [by rewrite advised_heap | done].
Qed.

Lemma C8_registration_seeds_nil_maps_and_slices_witness :
  field_of (Tests.fresh []) 7 0 = Some VNil
  ∧ field_of (Provide Tests.prog (Some Tests.serviceWithMap) (Tests.fresh [])).2 7 0
    = Some (VMap []).
Proof.
  split; [reflexivity|].
  refine (proj1 (C8_registration_seeds_nil_maps_and_slices Tests.prog (Tests.fresh [])
            _ "tests" "ServiceWithMap" 7%nat 0%nat
            (mkField "DataMap" EmptyString (TMap (TBasic "string") (TBasic "int")) [])
            _ eq_refl eq_refl (conj eq_refl eq_refl) (or_introl _)) eq_refl eq_refl).
  - by eexists.
  - vm_compute. reflexivity.
Defined.

(** ** C9: a rejected duplicate type is seeded all the same *)

(** C9. When Provide is called with an instance whose type is already in the
    Type Index: the call returns, the container (its tables and its fatal
    errors) is as before, the output grows by log entries only, so the hook
    after registration is not called, and initBasicFields has run on the
    rejected instance: if it points to a struct, each of its settable fields
    without autowire or inject tag that was a nil map or a nil slice is now
    an empty one. *)
Theorem C9_duplicate_type_rejected_but_seeded
    (Σ : program) (s : State) (x : instance) (e : any) :
  typeToObjectMap (container s) !! x.1 = Some e →
  ∃ s', Provide Σ (Some x) s = (Ok tt, s')
        ∧ container s' = container s
        ∧ (∃ logs, out s' = out s ++ logs ∧ Forall is_log logs)
        ∧ ∀ p n a i fd,
            x = (TPtr (TStruct p n), VPtr a) →
            is_Some (heap s !! a) →
            sd_fields (structs Σ p n) !! i = Some fd →
            IsExported fd = true → untagged fd →
            (kind (f_type fd) = KMap → field_of s a i = Some VNil →
             field_of s' a i = Some (VMap []))
            ∧ (kind (f_type fd) = KSlice → field_of s a i = Some VNil →
               field_of s' a i = Some (VSlice [])).
Proof.
  intros Hdup. destruct (Provide_run Σ x s) as (s1 & E1 & E2).
  exists (provided Σ x s1). split; [done|].
  pose proof (initBasicFields_container Σ _ _ _ _ E1) as Hc.
  rewrite advised_container in Hc.
  assert (provided Σ x s1
          = add_events [EvLog LWarn "Provide: duplicate type registration, ignored"
                          [String_ x.1]] s1) as Ep.
  { unfold provided. by rewrite Hc, Hdup. }
  split_and!.
  - by rewrite Ep.
  - rewrite Ep. simpl.
    destruct (advised_out "Provide: registering a pointer type is advised" x.1 s)
      as (l0 & E0 & F0).
    destruct (preserves_run (out_grows is_log) _ _ _ _
                (initBasicFields_pres Σ (out_grows is_log) _ ltac:(intros; apply _)) E1)
      as (l1 & El1 & F1).
    eexists. rewrite El1, E0, <- !app_assoc. split; [done|].
    repeat apply Forall_app_2; auto. by constructor.
  - intros p n a i fd -> Ha Hi He Hu.
    pose proof (initBasicFields_seeds Σ p n a i fd _ _ _
                  ltac:(rewrite advised_heap; exact Ha) Hi He Hu E1) as Hs.
    assert (seeds_field s (provided Σ (TPtr (TStruct p n), VPtr a) s1) a i fd)
      as (H1 & H2 & _); [|by split].
    eapply seeds_field_ext; [| |exact Hs];
      [by rewrite advised_heap | by rewrite provided_heap].
Qed.

Lemma C9_duplicate_type_rejected_but_seeded_witness :
  ∃ s', Provide Tests.prog (Some Tests.serviceWithMap)
          (Provide Tests.prog
             (Some (TPtr Tests.ServiceWithMap, VPtr 99%nat)) (Tests.fresh [])).2
        = (Ok tt, s')
        ∧ field_of s' 7 1 = Some (VSlice []).
Proof.
  destruct (C9_duplicate_type_rejected_but_seeded Tests.prog
              (Provide Tests.prog
                 (Some (TPtr Tests.ServiceWithMap, VPtr 99%nat)) (Tests.fresh [])).2
              Tests.serviceWithMap
              (Some (TPtr Tests.ServiceWithMap, VPtr 99%nat)))
    as (s' & E & _ & _ & H).
  - vm_compute. reflexivity.
  - exists s'. split; [exact E|].
    refine (proj2 (H "tests" "ServiceWithMap" 7%nat 1%nat
              (mkField "DataSlice" EmptyString (TSlice (TBasic "string")) [])
              eq_refl _ eq_refl eq_refl (conj eq_refl eq_refl)) eq_refl eq_refl).
    by eexists.
Defined.

(** ** C10: an instance registered by value *)

(** C10. An instance whose type is not a pointer is registered by Provide
    like any other: when its type is not yet in the Type Index it is put
    there, and under its default name in the Name Index when that name is
    free.  For such an instance injectInternal returns at once and leaves
    the whole state as it is: no field is set and nothing is logged, so no
    resolution error is reported; its round of StartUp consists of the log
    line that opens the round and of the hooks around injection. *)
Theorem C10_non_pointer_registered_but_not_injected
    (Σ : program) (s : State) (t : type) (v : value) :
  kind t ≠ KPtr →
  (typeToObjectMap (container s) !! t = None →
   ∃ s', Provide Σ (Some (t, v)) s = (Ok tt, s')
         ∧ typeToObjectMap (container s')
           = <[t := Some (t, v)]> (typeToObjectMap (container s))
         ∧ (nameToObjMap (container s) !! displayName t = None →
            nameToObjMap (container s')
            = <[displayName t := Some (t, v)]> (nameToObjMap (container s)))
         ∧ heap s' = heap s)
  ∧ injectInternal Σ (Some (t, v)) s = (Ok tt, s)
  ∧ injectBean Σ (t, Some (t, v)) s
    = (Ok tt,
       add_events
         ([EvLog LInfo "injecting the fields of" [displayName t]]
          ++ fire_events Σ OnInjectBefore "calling the hook before injection" t (Some (t, v))
          ++ fire_events Σ OnInjectAfter "calling the hook after injection" t (Some (t, v)))
         s).
Proof.
  intros Hk. split_and!.
  - intros Hfresh. destruct (Provide_run Σ (t, v) s) as (s1 & E1 & E2).
    rewrite initBasicFields_no_pointee in E1 by by apply pointee_not_ptr.
    injection E1 as <-. eexists. split; [exact E2|].
    unfold provided. rewrite advised_container. simpl. rewrite Hfresh.
    destruct (nameToObjMap (container s) !! displayName t) eqn:En; simpl;
      rewrite advised_heap; done.
  - apply injectInternal_no_pointee. by apply pointee_not_ptr.
  - unfold injectBean, bind. simpl. rewrite fire_run.
    rewrite injectInternal_no_pointee by by apply pointee_not_ptr.
    rewrite fire_run. f_equal. unfold add_events. simpl.
    by rewrite <- !app_assoc.
Qed.

Lemma C10_non_pointer_registered_but_not_injected_witness :
  kind Tests.OrderServiceImpl ≠ KPtr
  ∧ injectInternal Tests.prog (Some (Tests.OrderServiceImpl, VStruct [VNil]))
      (Tests.fresh [])
    = (Ok tt, Tests.fresh []).
Proof.
  split; [done|].
  exact (proj1 (proj2 (C10_non_pointer_registered_but_not_injected Tests.prog
                         (Tests.fresh []) Tests.OrderServiceImpl (VStruct [VNil])
                         ltac:(done)))).
Defined.

(** * Further properties of the code *)

(** ** The container along a run of calls *)

Section containers.

Context (Σ : program).

Lemma Provide_container x s :
  container (Provide Σ (Some x) s).2 = provide_container x (container s).
Proof.
  destruct (Provide_run Σ x s) as (s1 & E1 & ->). simpl.
  apply initBasicFields_container in E1. rewrite advised_container in E1.
  unfold provided, provide_container. rewrite E1.
  destruct (typeToObjectMap (container s) !! x.1); simpl; [done|].
  by destruct (nameToObjMap (container s) !! displayName x.1).
Qed.

Lemma ProvideByName_container name x s :
  container (ProvideByName Σ name (Some x) s).2
  = provide_by_name_container name x (container s).
Proof.
  unfold provide_by_name_container. destruct (is_blank name) eqn:Hb.
  { by rewrite ProvideByName_invalid by auto. }
  destruct (nameToObjMap (container s) !! name) eqn:Hn.
  { by rewrite ProvideByName_duplicate by eauto. }
  destruct (ProvideByName_fresh Σ name x s Hb Hn) as (s1 & E1 & ->). simpl.
  apply initBasicFields_container in E1. rewrite advised_container in E1.
  by rewrite E1.
Qed.

Lemma after_call_container_eq k s :
  container (after_call Σ k s) = after_call_container k (container s).
Proof.
  destruct k as [[x|]|name [x|]|]; simpl.
  - apply Provide_container.
  - done.
  - apply ProvideByName_container.
  - done.
  - apply StartUp_container.
Qed.

Lemma after_calls_snoc ks k s :
  after_calls Σ (ks ++ [k]) s = after_call Σ k (after_calls Σ ks s).
Proof. unfold after_calls. by rewrite foldl_app. Qed.

(** A relation between containers that every call respects holds along
    every run. *)
Lemma after_calls_container_ind (R : relation Container) `{!PreOrder R} :
  (∀ k c, R c (after_call_container k c)) →
  ∀ ks s, R (container s) (container (after_calls Σ ks s)).
Proof.
  intros Hk ks. induction ks as [|k ks IH]; intros s; simpl; [reflexivity|].
  etrans; [|apply IH]. rewrite after_call_container_eq. apply Hk.
Qed.

End containers.

(** The tables the container keeps for older callers. *)
Definition same_legacy : relation Container :=
  λ c c', serviceMap c' = serviceMap c ∧ controllerMap c' = controllerMap c
          ∧ controllerList c' = controllerList c.

Global Instance same_legacy_po : PreOrder same_legacy.
Proof.
  split; [done|]. intros c1 c2 c3 (?&?&?) (?&?&?). unfold same_legacy.
  split_and!; congruence.
Qed.

Lemma after_call_same_legacy k c : same_legacy c (after_call_container k c).
Proof.
  destruct k as [[x|]|name [x|]|]; simpl; try done.
  - unfold provide_container. destruct (typeToObjectMap c !! x.1); [done|].
    by destruct (nameToObjMap c !! displayName x.1).
  - unfold provide_by_name_container. destruct (is_blank name); [done|].
    by destruct (nameToObjMap c !! name).
Qed.

(** A name keeps the instance it is bound to. *)
Definition names_kept : relation Container :=
  λ c c', ∀ n e, nameToObjMap c !! n = Some e → nameToObjMap c' !! n = Some e.

Global Instance names_kept_po : PreOrder names_kept.
Proof. split; [by intros c n e|]. intros c1 c2 c3 H1 H2 n e Hn. auto. Qed.

Lemma after_call_names_kept k c : names_kept c (after_call_container k c).
Proof.
  destruct k as [[x|]|name [x|]|]; simpl; try reflexivity; intros n e Hn.
  - unfold provide_container. destruct (typeToObjectMap c !! x.1); [done|].
    destruct (nameToObjMap c !! displayName x.1) eqn:Ed; simpl; [done|].
    rewrite lookup_insert_ne; [done|]. congruence.
  - unfold provide_by_name_container. destruct (is_blank name); [done|].
    destruct (nameToObjMap c !! name) eqn:Ed; simpl; [done|].
    rewrite lookup_insert_ne; [done|]. congruence.
Qed.

(** X1. No sequence of Provide, ProvideByName and StartUp calls writes the
    tables serviceMap and controllerMap or the list of controllers: after
    the calls they are what they were, and GetControllersAny returns the
    list the container had at the start (the empty list, for the container
    Instance builds) and changes nothing. *)
Theorem X1_legacy_tables_never_written (Σ : program) (ks : list call) (s : State) :
  let s' := after_calls Σ ks s in
  serviceMap (container s') = serviceMap (container s)
  ∧ controllerMap (container s') = controllerMap (container s)
  ∧ GetControllersAny s' = (Ok (controllerList (container s)), s').
Proof.
  intros s'.
  destruct (after_calls_container_ind Σ same_legacy after_call_same_legacy ks s)
    as (H1 & H2 & H3).
  split_and!; [done..|]. unfold GetControllersAny, gets. subst s'. by rewrite H3.
Qed.

(** X2. A name of the Name Index stays bound to its instance: whatever
    calls follow, neither Provide (which skips a default name that is
    taken), nor ProvideByName (which rejects a name that is taken), nor
    StartUp binds it to another instance or removes it. *)
Theorem X2_names_stay_bound (Σ : program) (ks : list call) (s : State)
    (n : string) (e : any) :
  nameToObjMap (container s) !! n = Some e →
  nameToObjMap (container (after_calls Σ ks s)) !! n = Some e.
Proof.
  intros H. by apply (after_calls_container_ind Σ names_kept after_call_names_kept ks s).
Qed.

Lemma X2_names_stay_bound_witness :
  let s := Tests.run [CallProvide (Some Tests.service1)] in
  let ks := [CallProvide (Some Tests.service2);
             CallProvideByName "UserServiceImpl" (Some Tests.service2);
             CallStartUp] in
  nameToObjMap (container s) !! "UserServiceImpl" = Some (Some Tests.service1)
  ∧ nameToObjMap (container (after_calls Tests.prog ks s)) !! "UserServiceImpl"
    = Some (Some Tests.service1).
Proof.
  intros s ks.
  assert (nameToObjMap (container s) !! "UserServiceImpl" = Some (Some Tests.service1)) as H
    by (vm_compute; reflexivity).
  split; [exact H|]. exact (X2_names_stay_bound Tests.prog ks s _ _ H).
Defined.

(** X3. An entry of the Type Index stays as it is through every run of
    calls in which no ProvideByName is given an instance of that type:
    Provide never replaces an entry, and StartUp does not change the
    container. *)
Theorem X3_type_entry_kept_without_ProvideByName
    (Σ : program) (ks : list call) (s : State) (t : type) (e : any) :
  typeToObjectMap (container s) !! t = Some e →
  (∀ name x, CallProvideByName name (Some x) ∈ ks → x.1 ≠ t) →
  typeToObjectMap (container (after_calls Σ ks s)) !! t = Some e.
Proof.
  revert s. induction ks as [|k ks IH]; intros s Ht Hks; simpl; [done|].
  apply IH; [|intros name x Hin; apply (Hks name); by right].
  rewrite after_call_container_eq.
  destruct k as [[x|]|name [x|]|]; simpl; try done.
  - unfold provide_container. destruct (typeToObjectMap (container s) !! x.1) eqn:Ex; [done|].
    assert (x.1 ≠ t) by congruence.
    destruct (nameToObjMap (container s) !! displayName x.1); simpl;
      by rewrite lookup_insert_ne.
  - unfold provide_by_name_container. destruct (is_blank name); [done|].
    destruct (nameToObjMap (container s) !! name); simpl; [done|].
    rewrite lookup_insert_ne; [done|]. apply (Hks name). left.
Qed.

Lemma X3_type_entry_kept_without_ProvideByName_witness :
  let s := Tests.run [CallProvide (Some Tests.service1)] in
  let ks := [CallProvide (Some Tests.service2);
             CallProvideByName "order" (Some Tests.orderService);
             CallStartUp] in
  typeToObjectMap (container (after_calls Tests.prog ks s)) !! TPtr Tests.UserServiceImpl
  = Some (Some Tests.service1).
Proof.
  intros s ks.
  apply (X3_type_entry_kept_without_ProvideByName Tests.prog ks s).
  - vm_compute. reflexivity.
  - intros name x Hin. apply list_elem_of_In in Hin. simpl in Hin.
    destruct Hin as [E|[E|[E|[]]]]; try discriminate E.
    injection E as _ <-. discriminate.
Defined.

Section failures.

Context (Σ : program).

Lemma after_call_fatalErrors k s :
  fatalErrors (container (after_call Σ k s)) = fatalErrors (container s)
  ∨ ∃ name x, k = CallProvideByName name (Some x)
              ∧ (ProvideByName Σ name (Some x) s).1 = Ok (Some (err_duplicate name)).
Proof.
  rewrite after_call_container_eq.
  destruct k as [[x|]|name [x|]|]; simpl; auto.
  - left. unfold provide_container. destruct (typeToObjectMap (container s) !! x.1); [done|].
    by destruct (nameToObjMap (container s) !! displayName x.1).
  - unfold provide_by_name_container. destruct (is_blank name) eqn:Hb; [by left|].
    destruct (nameToObjMap (container s) !! name) eqn:Hn; [|by left].
    right. exists name, x. split; [done|]. by rewrite ProvideByName_duplicate by eauto.
Qed.

(** A fatal error is recorded by a ProvideByName that finds its name
    taken, and by nothing else. *)
Lemma fatalErrors_origin ks s0 :
  fatalErrors (container s0) = [] →
  fatalErrors (container (after_calls Σ ks s0)) ≠ [] →
  ∃ ks1 name x ks2,
    ks = ks1 ++ CallProvideByName name (Some x) :: ks2
    ∧ (ProvideByName Σ name (Some x) (after_calls Σ ks1 s0)).1
      = Ok (Some (err_duplicate name)).
Proof.
  intros H0. induction ks as [|k ks IH] using rev_ind; [done|].
  rewrite after_calls_snoc. intros Hne.
  destruct (fatalErrors (container (after_calls Σ ks s0))) as [|e0 l0] eqn:Ef.
  - destruct (after_call_fatalErrors k (after_calls Σ ks s0)) as [E|(name & x & -> & E)].
    + rewrite E, Ef in Hne. done.
    + exists ks, name, x, []. done.
  - destruct IH as (ks1 & name & x & ks2 & -> & E); [done|].
    exists ks1, name, x, (ks2 ++ [k]). split; [|done].
    by rewrite <- app_assoc.
Qed.

End failures.

(** X4. Starting from a container without fatal errors, a StartUp that
    returns an error returns the fatal error, and some ProvideByName call of
    the run before it found its name taken and returned the
    duplicate-registration error.  No other call makes StartUp fail. *)
Theorem X4_StartUp_fails_only_after_duplicate_name
    (Σ : program) (ks : list call) (s0 s' : State) (e : string) :
  fatalErrors (container s0) = [] →
  StartUp Σ (after_calls Σ ks s0) = (Ok (Some e), s') →
  e = err_fatal
  ∧ ∃ ks1 name x ks2,
      ks = ks1 ++ CallProvideByName name (Some x) :: ks2
      ∧ (ProvideByName Σ name (Some x) (after_calls Σ ks1 s0)).1
        = Ok (Some (err_duplicate name)).
Proof.
  intros H0 H.
  assert (fatalErrors (container (after_calls Σ ks s0)) ≠ []) as Hne.
  { intros Hf. by destruct (StartUp_inv Σ _ _ _ Hf H) as [? _]. }
  split; [|by apply fatalErrors_origin].
  rewrite StartUp_fatal in H by done. by injection H as <- _.
Qed.

Lemma X4_StartUp_fails_only_after_duplicate_name_witness :
  let ks := [CallProvideByName "MyService" (Some Tests.service1);
             CallProvideByName "MyService" (Some Tests.service2)] in
  (StartUp Tests.prog (after_calls Tests.prog ks (Tests.fresh []))).1 = Ok (Some err_fatal)
  ∧ ∃ ks1 name x ks2,
      ks = ks1 ++ CallProvideByName name (Some x) :: ks2
      ∧ (ProvideByName Tests.prog name (Some x)
           (after_calls Tests.prog ks1 (Tests.fresh []))).1
        = Ok (Some (err_duplicate name)).
Proof.
  intros ks. split; [vm_compute; reflexivity|].
  refine (proj2 (X4_StartUp_fails_only_after_duplicate_name Tests.prog ks (Tests.fresh [])
                   (StartUp Tests.prog (after_calls Tests.prog ks (Tests.fresh []))).2
                   err_fatal eq_refl _)).
  vm_compute. reflexivity.
Defined.

(** ** Looking a bean up by its type *)

Definition keeps_keyed : relation Container := λ c c', keyed c → keyed c'.

Global Instance keeps_keyed_po : PreOrder keeps_keyed.
Proof. split; [intros c H; exact H|]. intros c1 c2 c3 H1 H2 H. apply H2, H1, H. Qed.

Lemma keyed_insert (x : instance) (m : gmap type any) (c : Container) :
  keyed c → typeToObjectMap c = m →
  ∀ t e, <[x.1 := Some x]> m !! t = Some e → ∃ y, e = Some y ∧ y.1 = t.
Proof.
  intros Hk <- t e. destruct (decide (x.1 = t)) as [<-|Hne].
  - rewrite lookup_insert_eq. intros [= <-]. eauto.
  - rewrite lookup_insert_ne by done. apply Hk.
Qed.

Lemma after_call_keeps_keyed k c : keeps_keyed c (after_call_container k c).
Proof.
  destruct k as [[x|]|name [x|]|]; simpl; try reflexivity; intros Hk.
  - unfold provide_container. destruct (typeToObjectMap c !! x.1); [done|].
    destruct (nameToObjMap c !! displayName x.1); simpl;
      intros t e; simpl; by apply (keyed_insert x _ c).
  - unfold provide_by_name_container. destruct (is_blank name); [done|].
    destruct (nameToObjMap c !! name); simpl; [done|].
    intros t e; simpl; by apply (keyed_insert x _ c).
Qed.

Lemma keyed_Instance : keyed Instance.
Proof. intros t e. simpl. by rewrite lookup_empty. Qed.

Section lookup.

Context (Σ : program).

Lemma type_assert_concrete T x :
  kind T ≠ KInterface → x.1 = T → type_assert Σ T (Some x) = Some x.
Proof.
  intros Hk Hx. unfold type_assert.
  destruct (decide (kind T = KInterface)); [done|]. by destruct (decide (x.1 = T)).
Qed.

Lemma GetObjectByType_concrete T s :
  kind T ≠ KInterface →
  lookup_table Σ T (serviceMap (container s)) = None →
  lookup_table Σ T (controllerMap (container s)) = None →
  GetObjectByType Σ T s
  = match lookup_table Σ T (typeToObjectMap (container s)) with
    | Some x => (Ok (Some x), s)
    | None => (Ok None, add_event (EvLog LError "no instance of the type" [String_ T]) s)
    end.
Proof.
  intros Hk H1 H2. unfold GetObjectByType, bind. simpl.
  destruct (decide (kind T = KInterface)); [done|]. rewrite H1, H2.
  by destruct (lookup_table Σ T (typeToObjectMap (container s))).
Qed.

Lemma find_implementation_Some T entries x :
  kind T = KInterface →
  find_implementation Σ T entries = Some x →
  ∃ t, (t, Some x) ∈ entries ∧ Implements Σ x.1 T = true.
Proof.
  intros Hk. induction entries as [|[t [obj|]] rest IH]; simpl; [done| |].
  - unfold type_assert. destruct (decide (kind T = KInterface)); [|done].
    destruct (is_candidate Σ obj.1 T).
    + destruct (Implements Σ obj.1 T) eqn:Ei.
      * intros [= <-]. exists t. split; [left | done].
      * intros H. destruct (IH H) as (t' & ? & ?). exists t'. split; [by right | done].
    + intros H. destruct (IH H) as (t' & ? & ?). exists t'. split; [by right | done].
  - intros H. destruct (IH H) as (t' & ? & ?). exists t'. split; [by right | done].
Qed.

Lemma find_implementation_None T entries t y :
  kind T = KInterface →
  find_implementation Σ T entries = None →
  (t, Some y) ∈ entries → Implements Σ y.1 T = false.
Proof.
  intros Hk. induction entries as [|[t' [obj|]] rest IH]; simpl.
  - intros _ Hin. by apply not_elem_of_nil in Hin.
  - unfold type_assert. destruct (decide (kind T = KInterface)); [|done].
    unfold is_candidate. destruct (Implements Σ obj.1 T) eqn:Ei; simpl; [done|].
    intros H Hin. apply elem_of_cons in Hin as [[= <- <-]|Hin]; [done|].
    apply IH; [|done]. by destruct (_ && _).
  - intros H Hin. apply elem_of_cons in Hin as [[=]|Hin]. by apply IH.
Qed.

End lookup.

(** X5. An instance that a registration has put in the Type Index (a
    Provide of a type not yet there, or a ProvideByName that returned nil)
    is what GetObjectByType returns for its type, with the state unchanged,
    when the tables serviceMap and controllerMap hold nothing under that
    type. *)
Theorem X5_registered_bean_found_by_type
    (Σ : program) (x : instance) (s0 s1 : State) :
  registered_by Σ x s0 s1 →
  kind x.1 ≠ KInterface →
  serviceMap (container s0) !! x.1 = None →
  controllerMap (container s0) !! x.1 = None →
  GetObjectByType Σ x.1 s1 = (Ok (Some x), s1).
Proof.
  intros Hreg Hk Hs Hc.
  assert (typeToObjectMap (container s1) !! x.1 = Some (Some x)
          ∧ same_legacy (container s0) (container s1)) as [Ht (L1 & L2 & _)].
  { destruct Hreg as [[Hfresh H]|[name H]].
    - pose proof (Provide_container Σ x s0) as E. rewrite H in E. simpl in E.
      rewrite E. split; [|apply (after_call_same_legacy (CallProvide (Some x)))].
      unfold provide_container. rewrite Hfresh.
      destruct (nameToObjMap (container s0) !! displayName x.1); simpl;
        by rewrite lookup_insert_eq.
    - split; [by eapply ProvideByName_overwrites|].
      pose proof (ProvideByName_container Σ name x s0) as E. rewrite H in E. simpl in E.
      rewrite E. apply (after_call_same_legacy (CallProvideByName name (Some x))). }
  rewrite GetObjectByType_concrete; unfold lookup_table; rewrite ?L1, ?L2, ?Hs, ?Hc; try done.
  by rewrite Ht, type_assert_concrete.
Qed.

Lemma X5_registered_bean_found_by_type_witness :
  let s0 := Tests.fresh [] in
  let s1 := (ProvideByName Tests.prog "MyUserService" (Some Tests.service2) s0).2 in
  registered_by Tests.prog Tests.service2 s0 s1
  ∧ GetObjectByType Tests.prog (TPtr Tests.UserServiceImpl) s1 = (Ok (Some Tests.service2), s1).
Proof.
  intros s0 s1.
  assert (registered_by Tests.prog Tests.service2 s0 s1) as H.
  { right. exists "MyUserService". vm_compute. reflexivity. }
  split; [exact H|].
  exact (X5_registered_bean_found_by_type Tests.prog Tests.service2 s0 s1 H
           ltac:(discriminate) eq_refl eq_refl).
Defined.

(** X6. In every state reached from a new container, GetObjectByType for
    a type T that is no interface reads the Type Index under T: with an
    entry it returns the instance stored there, whose dynamic type is T, and
    changes nothing; without one it logs the error and returns the zero
    value.  The Name Index plays no part. *)
Theorem X6_lookup_by_concrete_type_reads_the_Type_Index
    (Σ : program) (h : gmap addr object) (o : list event) (mo : list (list nat))
    (ns : list Z) (ks : list call) (T : type) :
  kind T ≠ KInterface →
  let s := after_calls Σ ks (mkState Instance h o mo ns) in
  match typeToObjectMap (container s) !! T with
  | Some e =>
      ∃ x, e = Some x ∧ x.1 = T ∧ GetObjectByType Σ T s = (Ok (Some x), s)
  | None =>
      GetObjectByType Σ T s
      = (Ok None, add_event (EvLog LError "no instance of the type" [String_ T]) s)
  end.
Proof.
  intros Hk s.
  destruct (after_calls_container_ind Σ same_legacy after_call_same_legacy ks
              (mkState Instance h o mo ns)) as (L1 & L2 & _).
  pose proof (after_calls_container_ind Σ keeps_keyed after_call_keeps_keyed ks
                (mkState Instance h o mo ns) keyed_Instance) as Hkeyed.
  fold s in L1, L2, Hkeyed. simpl in L1, L2.
  assert (GetObjectByType Σ T s
          = match lookup_table Σ T (typeToObjectMap (container s)) with
            | Some x => (Ok (Some x), s)
            | None => (Ok None, add_event (EvLog LError "no instance of the type" [String_ T]) s)
            end) as ->.
  { apply GetObjectByType_concrete; [done|..]; unfold lookup_table;
      rewrite ?L1, ?L2; by rewrite lookup_empty. }
  unfold lookup_table.
  destruct (typeToObjectMap (container s) !! T) as [e|] eqn:Et; [|done].
  destruct (Hkeyed T e Et) as (y & -> & Hy). exists y.
  by rewrite type_assert_concrete.
Qed.

Lemma X6_lookup_by_concrete_type_reads_the_Type_Index_witness :
  kind (TPtr Tests.UserServiceImpl) ≠ KInterface
  ∧ GetObjectByType Tests.prog (TPtr Tests.UserServiceImpl)
      (after_calls Tests.prog [CallProvide (Some Tests.orderService)] (Tests.fresh []))
    = (Ok None,
       add_event (EvLog LError "no instance of the type" ["*tests.UserServiceImpl"])
         (after_calls Tests.prog [CallProvide (Some Tests.orderService)] (Tests.fresh []))).
Proof.
  split; [discriminate|].
  exact (X6_lookup_by_concrete_type_reads_the_Type_Index Tests.prog Tests.heap0 [] [] []
           [CallProvide (Some Tests.orderService)] (TPtr Tests.UserServiceImpl)
           ltac:(discriminate)).
Defined.

(** X7. GetObjectByType for an interface type T returns and changes
    neither the container nor the heap.  An instance it returns is held by
    one of the three tables and its dynamic type implements T, and nothing
    is logged; when it returns the zero value, no instance of any of the
    three tables implements T and the error has been logged.  An instance
    that only passes the test of the scan through the type it points to is
    never returned. *)
Theorem X7_lookup_by_interface_finds_an_implementation
    (Σ : program) (s : State) (T : type) :
  kind T = KInterface →
  ∃ r s', GetObjectByType Σ T s = (Ok r, s')
    ∧ container s' = container s ∧ heap s' = heap s
    ∧ match r with
      | Some x =>
          (∃ table t, table ∈ tables (container s) ∧ table !! t = Some (Some x))
          ∧ Implements Σ x.1 T = true
          ∧ out s' = out s
      | None =>
          (∀ table t y, table ∈ tables (container s) → table !! t = Some (Some y) →
                        Implements Σ y.1 T = false)
          ∧ out s' = out s ++ [EvLog LError "no instance implements the interface" [String_ T]]
      end.
Proof.
  intros Hk. unfold GetObjectByType, bind. simpl.
  destruct (decide (kind T = KInterface)) as [_|]; [|done].
  destruct (range_map_run (typeToObjectMap (container s)) s) as (l1 & -> & Hl1).
  pose proof (permute_Permutation (default [] (head (map_order s)))
                (map_to_list (typeToObjectMap (container s)))) as P1.
  rewrite <- Hl1 in P1. clear Hl1.
  assert (∀ (m : gmap type any) l x, l ≡ₚ map_to_list m →
            find_implementation Σ T l = Some x →
            (∃ t, m !! t = Some (Some x)) ∧ Implements Σ x.1 T = true) as Hfound.
  { intros m l x Hp Hf. destruct (find_implementation_Some Σ T l x Hk Hf) as (t & Hin & Hi).
    split; [|done]. exists t. apply elem_of_map_to_list. by rewrite <- Hp. }
  assert (∀ (m : gmap type any) l t y, l ≡ₚ map_to_list m →
            find_implementation Σ T l = None →
            m !! t = Some (Some y) → Implements Σ y.1 T = false) as Hnone.
  { intros m l t y Hp Hf Hm. apply (find_implementation_None Σ T l t y Hk Hf).
    rewrite Hp. by apply elem_of_map_to_list. }
  destruct (find_implementation Σ T l1) as [x|] eqn:F1.
  { eexists _, _. split; [done|]. simpl. split_and!; try done.
    - destruct (Hfound _ _ _ P1 F1) as [[t Ht] _]. exists (typeToObjectMap (container s)), t.
      split; [left | done].
    - by destruct (Hfound _ _ _ P1 F1). }
  set (s1 := mkState _ _ _ _ _).
  destruct (range_map_run (serviceMap (container s)) s1) as (l2 & -> & Hl2).
  pose proof (permute_Permutation (default [] (head (map_order s1)))
                (map_to_list (serviceMap (container s)))) as P2.
  rewrite <- Hl2 in P2. clear Hl2.
  destruct (find_implementation Σ T l2) as [x|] eqn:F2.
  { eexists _, _. split; [done|]. simpl. split_and!; try done.
    - destruct (Hfound _ _ _ P2 F2) as [[t Ht] _]. exists (serviceMap (container s)), t.
      split; [right; left | done].
    - by destruct (Hfound _ _ _ P2 F2). }
  set (s2 := mkState _ _ _ _ _).
  destruct (range_map_run (controllerMap (container s)) s2) as (l3 & -> & Hl3).
  pose proof (permute_Permutation (default [] (head (map_order s2)))
                (map_to_list (controllerMap (container s)))) as P3.
  rewrite <- Hl3 in P3. clear Hl3.
  destruct (find_implementation Σ T l3) as [x|] eqn:F3.
  { eexists _, _. split; [done|]. simpl. split_and!; try done.
    - destruct (Hfound _ _ _ P3 F3) as [[t Ht] _]. exists (controllerMap (container s)), t.
      split; [right; right; left | done].
    - by destruct (Hfound _ _ _ P3 F3). }
  eexists _, _. split; [done|]. simpl. split_and!; try done.
  intros table t y Hin Hm. unfold tables in Hin.
  apply elem_of_cons in Hin as [->|Hin]; [by eapply (Hnone _ l1)|].
  apply elem_of_cons in Hin as [->|Hin]; [by eapply (Hnone _ l2)|].
  apply elem_of_cons in Hin as [->|Hin]; [by eapply (Hnone _ l3)|].
  by apply not_elem_of_nil in Hin.
Qed.

Lemma X7_lookup_by_interface_finds_an_implementation_witness :
  kind Tests.UserService = KInterface
  ∧ ∃ r s', GetObjectByType Tests.prog Tests.UserService Tests.pointer_to_pointer = (Ok r, s')
    ∧ container s' = container Tests.pointer_to_pointer
    ∧ heap s' = heap Tests.pointer_to_pointer
    ∧ match r with
      | Some x =>
          (∃ table t, table ∈ tables (container Tests.pointer_to_pointer)
                      ∧ table !! t = Some (Some x))
          ∧ Implements Tests.prog x.1 Tests.UserService = true
          ∧ out s' = out Tests.pointer_to_pointer
      | None =>
          (∀ table t y, table ∈ tables (container Tests.pointer_to_pointer) →
                        table !! t = Some (Some y) →
                        Implements Tests.prog y.1 Tests.UserService = false)
          ∧ out s' = out Tests.pointer_to_pointer
                     ++ [EvLog LError "no instance implements the interface"
                           [String_ Tests.UserService]]
      end.
Proof.
  split; [reflexivity|].
  exact (X7_lookup_by_interface_finds_an_implementation Tests.prog Tests.pointer_to_pointer
           Tests.UserService eq_refl).
Defined.

(** ** What a registration does to the heap *)

(** The struct at [a] stays as it is. *)
Definition keeps_object (a : addr) : relation State :=
  λ s s', heap s' !! a = heap s !! a.

Global Instance keeps_object_po a : PreOrder (keeps_object a).
Proof.
  split; [done | intros s1 s2 s3 H1 H2; unfold keeps_object in *; congruence].
Qed.

Global Instance keeps_object_coarse a : Coarse (keeps_object a).
Proof. intros s s' (?&H&?). unfold keeps_object. by rewrite H. Qed.

Global Instance keeps_object_lo a : LogOk (keeps_object a).
Proof. done. Qed.

Global Instance keeps_object_ho h a : HookOk h (keeps_object a).
Proof. done. Qed.

Global Instance keeps_object_cb a : ContainerBlind (keeps_object a).
Proof. done. Qed.

Lemma keeps_object_write a a' i : a' ≠ a → WriteOk a' i (keeps_object a).
Proof.
  intros Hne s v. unfold keeps_object, write_field.
  destruct (heap s !! a'); [|done]. simpl. by rewrite lookup_insert_ne.
Qed.

Section registration_heap.

Context (Σ : program).


(** initBasicFields leaves a field that is not settable, or tagged, or not
    nil, as it is. *)
Lemma initBasicFields_keeps p n a i fd s r s' :
  sd_fields (structs Σ p n) !! i = Some fd →
  IsExported fd = false ∨ ¬ untagged fd ∨ field_of s a i ≠ Some VNil →
  initBasicFields Σ (Some (TPtr (TStruct p n), VPtr a)) s = (r, s') →
  field_of s' a i = field_of s a i.
Proof.
  intros Hi Hc H. destruct (heap s !! a) as [ob|] eqn:Ha.
  - destruct (initBasicFields_field Σ p n a i fd s r s' ltac:(eauto) Hi H)
      as (s1 & s2 & K1 & E & K2).
    unfold keeps_field in *. rewrite K2, <- K1.
    eapply initBasicField_keeps; [exact E|]. rewrite K1. tauto.
  - rewrite initBasicFields_no_pointee in H; [by injection H as _ <-|].
    unfold pointee. by rewrite Ha.
Qed.

(** What the run of initBasicFields inside a registration shows on the
    heap is what the registration shows. *)
Lemma registration_heap k x s :
  k = CallProvide (Some x) ∨ (∃ name, k = CallProvideByName name (Some x)) →
  heap (after_call Σ k s) = heap s
  ∨ ∃ msg s1, initBasicFields Σ (Some x) (advised msg x.1 s) = (Ok tt, s1)
              ∧ heap (after_call Σ k s) = heap s1.
Proof.
  intros [->|[name ->]]; simpl.
  - right. destruct (Provide_run Σ x s) as (s1 & E1 & ->). simpl.
    eexists _, s1. split; [exact E1|]. apply provided_heap.
  - destruct (is_blank name) eqn:Hb.
    { left. by rewrite ProvideByName_invalid by auto. }
    destruct (nameToObjMap (container s) !! name) eqn:Hn.
    { left. by rewrite ProvideByName_duplicate by eauto. }
    right. destruct (ProvideByName_fresh Σ name x s Hb Hn) as (s1 & E1 & ->). simpl.
    eexists _, s1. split; [exact E1 | done].
Qed.

End registration_heap.




(** X10. A registration (Provide or ProvideByName, whatever it returns)
    changes nothing of the heap but fields of the struct its instance
    points to; and of these it leaves alone every field that is not
    exported, every field that carries an autowire or inject tag, and every
    field that is not nil. *)
Theorem X10_registration_touches_only_seedable_fields
    (Σ : program) (k : call) (x : instance) (s : State) :
  k = CallProvide (Some x) ∨ (∃ name, k = CallProvideByName name (Some x)) →
  let s' := after_call Σ k s in
  (∀ a', addr_of (Some x) ≠ Some a' → heap s' !! a' = heap s !! a')
  ∧ (∀ p n a i fd,
       x = (TPtr (TStruct p n), VPtr a) →
       sd_fields (structs Σ p n) !! i = Some fd →
       IsExported fd = false ∨ ¬ untagged fd ∨ field_of s a i ≠ Some VNil →
       field_of s' a i = field_of s a i).
Proof.
  intros Hk s'. split.
  - intros a' Hne.
    assert (∀ a i, addr_of (Some x) = Some a → WriteOk a i (keeps_object a')) as W.
    { intros a i Ha. apply keeps_object_write. congruence. }
    subst s'. destruct Hk as [->|[name ->]]; simpl.
    + apply (Provide_pres Σ (keeps_object a') (Some x) W).
    + apply (ProvideByName_pres Σ (keeps_object a') name (Some x) W).
  - intros p n a i fd -> Hi Hc.
    destruct (registration_heap Σ k _ s Hk) as [E|(msg & s1 & E1 & E)];
      subst s'; unfold field_of; rewrite E; [done|].
    apply (initBasicFields_keeps Σ p n a i fd) in E1; [| done |].
    + unfold field_of in E1. by rewrite E1, advised_heap.
    + unfold field_of. by rewrite advised_heap.
Qed.

Lemma X10_registration_touches_only_seedable_fields_witness :
  let s' := after_call Tests.prog (CallProvide (Some Tests.serviceWithUnexported))
              (Tests.fresh []) in
  (∀ a', addr_of (Some Tests.serviceWithUnexported) ≠ Some a' →
         heap s' !! a' = heap (Tests.fresh []) !! a')
  ∧ (∀ p n a i fd,
       Tests.serviceWithUnexported = (TPtr (TStruct p n), VPtr a) →
       sd_fields (structs Tests.prog p n) !! i = Some fd →
       IsExported fd = false ∨ ¬ untagged fd ∨ field_of (Tests.fresh []) a i ≠ Some VNil →
       field_of s' a i = field_of (Tests.fresh []) a i).
Proof.
  exact (X10_registration_touches_only_seedable_fields Tests.prog
           (CallProvide (Some Tests.serviceWithUnexported)) Tests.serviceWithUnexported
           (Tests.fresh []) (or_introl eq_refl)).
Defined.

(** X11. When Provide is given an instance of a new type whose default
    bean name is already taken, the instance enters the Type Index, the Name
    Index stays as it is (the name keeps its first instance), no fatal error
    is recorded, the warning is logged, and the hook after registration is
    called as for any registration. *)
Theorem X11_default_name_taken
    (Σ : program) (x : instance) (s : State) (e : any) :
  typeToObjectMap (container s) !! x.1 = None →
  nameToObjMap (container s) !! displayName x.1 = Some e →
  ∃ s' logs,
    Provide Σ (Some x) s = (Ok tt, s')
    ∧ typeToObjectMap (container s') = <[x.1 := Some x]> (typeToObjectMap (container s))
    ∧ nameToObjMap (container s') = nameToObjMap (container s)
    ∧ fatalErrors (container s') = fatalErrors (container s)
    ∧ Forall is_log logs
    ∧ out s' = out s ++ logs
               ++ [EvLog LWarn "Provide: duplicate default bean name, ignored"
                     [displayName x.1];
                   EvLog LInfo "registered bean" [String_ x.1; String_ x.1]]
               ++ fire_events Σ OnProvideAfter "calling the hook after registration"
                    x.1 (Some x).
Proof.
  intros Ht Hn. destruct (Provide_run Σ x s) as (s1 & E1 & E2).
  pose proof (initBasicFields_container Σ _ _ _ _ E1) as Hc.
  rewrite advised_container in Hc.
  destruct (advised_out "Provide: registering a pointer type is advised" x.1 s)
    as (l0 & E0 & F0).
  destruct (preserves_run (out_grows is_log) _ _ _ _
              (initBasicFields_pres Σ (out_grows is_log) _ ltac:(intros; apply _)) E1)
    as (l1 & El1 & F1).
  exists (provided Σ x s1), (l0 ++ l1). split; [done|].
  unfold provided. rewrite Hc, Ht. simpl. rewrite Hn. simpl.
  split_and!; try done.
  - by apply Forall_app_2.
  - rewrite El1, E0, <- !app_assoc. done.
Qed.

Lemma X11_default_name_taken_witness :
  let s := Tests.run [CallProvide (Some Tests.service1)] in
  let x : instance := (Tests.UserServiceImpl, VStruct [VBasic 2]) in
  typeToObjectMap (container s) !! x.1 = None
  ∧ nameToObjMap (container s) !! displayName x.1 = Some (Some Tests.service1)
  ∧ nameToObjMap (container (Provide Tests.prog (Some x) s).2) !! "UserServiceImpl"
    = Some (Some Tests.service1).
Proof.
  intros s x.
  assert (typeToObjectMap (container s) !! x.1 = None) as Ht by (vm_compute; reflexivity).
  assert (nameToObjMap (container s) !! displayName x.1 = Some (Some Tests.service1)) as Hn
    by (vm_compute; reflexivity).
  split_and!; [exact Ht | exact Hn |].
  destruct (X11_default_name_taken Tests.prog x s _ Ht Hn) as (s' & logs & E & _ & En & _).
  rewrite E. simpl. rewrite En. exact Hn.
Defined.

(** ** The states of the examples are well-formed *)

Ltac wiring_ok_tac :=
  split; [done|];
  let p := fresh in let n := fresh in let a := fresh in let E := fresh in
  intros p n a E; injection E as <- <- <-;
  eexists; split_and!; vm_compute; reflexivity.

Lemma Wiring_alone_wf : wf Wiring.prog Wiring.alone.
Proof.
  unfold Wiring.alone, Wiring.run, after_calls, foldl, after_call.
  apply Provide_wf; [wiring_ok_tac|]. apply wf_empty.
Qed.

Lemma Wiring_all_wf : wf Wiring.prog Wiring.all.
Proof.
  unfold Wiring.all, Wiring.run, after_calls, foldl, after_call.
  apply Provide_wf; [wiring_ok_tac|].
  apply ProvideByName_wf; [wiring_ok_tac|].
  apply ProvideByName_wf; [wiring_ok_tac|]. apply wf_empty.
Qed.

Lemma serviceWithUnexported_wf :
  wf Tests.prog
    (Tests.run [CallProvide (Some Tests.service1);
                CallProvide (Some Tests.serviceWithUnexported)]).
Proof.
  unfold Tests.run, after_calls, foldl, after_call.
  apply Provide_wf; [instance_ok_tac|].
  apply Provide_wf; [instance_ok_tac|]. apply wf_empty.
Qed.

Lemma by_custom_name_wf :
  wf Tests.prog
    (Tests.run [CallProvideByName "MyUserService" (Some Tests.service1);
                CallProvide (Some Tests.serviceA_Required)]).
Proof.
  unfold Tests.run, after_calls, foldl, after_call.
  apply Provide_wf; [instance_ok_tac|].
  apply ProvideByName_wf; [instance_ok_tac|]. apply wf_empty.
Qed.

Lemma fullLifecycle_wf : wf Tests.prog (Tests.run [CallProvide (Some Tests.fullLifecycle)]).
Proof.
  unfold Tests.run, after_calls, foldl, after_call.
  apply Provide_wf; [instance_ok_tac|]. apply wf_empty.
Qed.

(** ** The round of one field in StartUp *)

Section field_round.

Context (Σ : program).

(** StartUp, seen from one field of a registered bean: the state before the
    round of the field has the container and the value of the field of the
    state before StartUp, and the value the round leaves is the value after
    StartUp. *)
Lemma StartUp_field_round s s' t p n a i fd :
  wf Σ s →
  fatalErrors (container s) = [] →
  StartUp Σ s = (Ok None, s') →
  typeToObjectMap (container s) !! t = Some (Some (TPtr (TStruct p n), VPtr a)) →
  sd_fields (structs Σ p n) !! i = Some fd →
  ∃ s1 s2,
    injectField Σ a (TStruct p n) (i, fd) s1 = (Ok tt, s2)
    ∧ container s1 = container s
    ∧ field_of s1 a i = field_of s a i
    ∧ is_Some (field_of s1 a i)
    ∧ field_of s' a i = field_of s2 a i
    ∧ (∃ before, out s1 = out s ++ before)
    ∧ (∃ after, out s' = out s2 ++ after).
Proof.
  intros Hwf Hf H Ht Hi.
  destruct (StartUp_field Σ s _ s' t p n a i fd Hwf Hf H Ht Hi)
    as (s1 & s2 & (Hc1 & _ & (ev1 & Ho1 & _) & K1) & E & (_ & _ & (ev2 & Ho2 & _) & K2)).
  exists s1, s2. unfold keeps_field, same_container in *.
  split_and!; eauto. rewrite K1. by eapply wf_field.
Qed.

Lemma log_run l msg args s r s2 :
  logf l msg args s = (r, s2) → s2 = add_event (EvLog l msg args) s.
Proof. by intros [= _ <-]. Qed.

Lemma field_of_add_event e s a i : field_of (add_event e s) a i = field_of s a i.
Proof. done. Qed.

End field_round.

Ltac log_only H :=
  unfold logDebug, logInfo, logWarn, logError in H;
  apply log_run in H; subst.

(** X12. A field of a registered bean that carries an autowire or inject
    tag but is not exported is skipped by StartUp: it keeps its value, and
    the error that says so is logged. *)
Theorem X12_tagged_unexported_field_skipped
    (Σ : program) (s s' : State) (t : type) (p n : string) (a : addr)
    (i : nat) (fd : StructField) :
  wf Σ s →
  fatalErrors (container s) = [] →
  StartUp Σ s = (Ok None, s') →
  typeToObjectMap (container s) !! t = Some (Some (TPtr (TStruct p n), VPtr a)) →
  sd_fields (structs Σ p n) !! i = Some fd →
  wiring_tag fd ≠ EmptyString →
  IsExported fd = false →
  field_of s' a i = field_of s a i
  ∧ ∃ before after,
      out s' = out s ++ before
               ++ [EvLog LError "field is tagged autowire but not exported, skipped"
                     [n; f_name fd]]
               ++ after.
Proof.
  intros Hwf Hf H Ht Hi Htag He.
  destruct (StartUp_field_round Σ s s' t p n a i fd Hwf Hf H Ht Hi)
    as (s1 & s2 & E & Hc & K1 & Hs & K2 & [before Hb] & [after Ha]).
  unfold injectField in E. fold (wiring_tag fd) in E.
  destruct (decide (wiring_tag fd = EmptyString)); [done|].
  unfold CanSet, Field in E. simpl in E. rewrite He in E. simpl in E.
  log_only E. split; [by rewrite K2|].
  exists before, after. rewrite Ha. simpl. rewrite Hb. by rewrite <- !app_assoc.
Qed.

Lemma X12_tagged_unexported_field_skipped_witness :
  let s := Tests.run [CallProvide (Some Tests.service1);
                      CallProvide (Some Tests.serviceWithUnexported)] in
  wf Tests.prog s
  ∧ field_of (StartUp Tests.prog s).2 8 1 = field_of s 8 1.
Proof.
  intros s. split; [exact serviceWithUnexported_wf|].
  refine (proj1 (X12_tagged_unexported_field_skipped Tests.prog s (StartUp Tests.prog s).2
                   (TPtr Tests.ServiceWithUnexported) "tests" "ServiceWithUnexported"
                   8%nat 1%nat
                   (mkField "unexportedField" "tests" (TPtr Tests.UserServiceImpl)
                      [("autowire", "true")])
                   serviceWithUnexported_wf _ _ _ eq_refl _ eq_refl)).
  - vm_compute. reflexivity.
  - vm_compute. reflexivity.
  - vm_compute. reflexivity.
  - vm_compute. discriminate.
Defined.

Section one_round.

Context (Σ : program).

(** The round of a settable field of a type that is no interface, tagged
    [true] or [false]: the Name Index is read under the name of the type of
    the field. *)
Lemma injectField_by_type_name a t i fd s1 s2 :
  injectField Σ a t (i, fd) s1 = (Ok tt, s2) →
  wiring_tag fd = "true" ∨ wiring_tag fd = "false" →
  IsExported fd = true →
  kind (f_type fd) ≠ KInterface →
  is_Some (field_of s1 a i) →
  match nameToObjMap (container s1) !! displayName (f_type fd) with
  | Some (Some obj) =>
      if AssignableTo Σ obj.1 (f_type fd) then field_of s2 a i = Some obj.2
      else
        field_of s2 a i = field_of s1 a i
        ∧ ∃ msg args,
            out s2 = out s1
                     ++ [ev_trying t fd;
                         EvLog (if decide (wiring_tag fd = "true") then LError else LInfo)
                           msg args]
  | _ =>
      field_of s2 a i = field_of s1 a i
      ∧ ∃ msg args,
          out s2 = out s1
                   ++ [ev_trying t fd;
                       EvLog (if decide (wiring_tag fd = "true") then LError else LInfo)
                         msg args]
  end.
Proof.
  intros E Htag He Hk Hsome. unfold injectField in E. fold (wiring_tag fd) in E.
  assert (wiring_tag fd ≠ EmptyString) as Hne by (by destruct Htag as [-> | ->]).
  destruct (decide (wiring_tag fd = EmptyString)); [done|].
  unfold CanSet, Field in E. simpl in E. rewrite He in E. simpl in E.
  unfold bind at 1 in E. simpl in E.
  destruct (decide (wiring_tag fd = "true" ∨ wiring_tag fd = "false")); [|done].
  destruct (decide (kind (f_type fd) = KInterface)); [done|].
  unfold bind at 1 in E. simpl in E.
  assert (∀ l msg args,
            out (add_event (EvLog l msg args)
                   (add_event (ev_trying t fd) s1))
            = out s1 ++ [ev_trying t fd; EvLog l msg args]) as Hout.
  { intros. simpl. by rewrite <- app_assoc. }
  fold (ev_trying t fd) in E.
  destruct (nameToObjMap (container s1) !! displayName (f_type fd)) as [[obj|]|].
  - destruct (AssignableTo Σ obj.1 (f_type fd)) eqn:HA.
    + apply bind_Ok_inv in E as ([] & sW & EW & E).
      apply Set__Ok_inv in EW as (_ & _ & ->). log_only E.
      rewrite field_of_add_event. simpl.
      unfold store_value. destruct (decide (kind (f_type fd) = KInterface)); [done|].
      by apply write_field_field_eq.
    + destruct (bool_decide (wiring_tag fd = "true")) eqn:Hm.
      * apply bool_decide_eq_true in Hm. log_only E. split; [done|].
        rewrite decide_True by done. eauto.
      * apply bool_decide_eq_false in Hm. log_only E. split; [done|].
        rewrite decide_False by done. eauto.
  - destruct (bool_decide (wiring_tag fd = "true")) eqn:Hm.
    * apply bool_decide_eq_true in Hm. log_only E. split; [done|].
      rewrite decide_True by done. eauto.
    * apply bool_decide_eq_false in Hm. log_only E. split; [done|].
      rewrite decide_False by done. eauto.
  - destruct (bool_decide (wiring_tag fd = "true")) eqn:Hm.
    * apply bool_decide_eq_true in Hm. log_only E. split; [done|].
      rewrite decide_True by done. eauto.
    * apply bool_decide_eq_false in Hm. log_only E. split; [done|].
      rewrite decide_False by done. eauto.
Qed.

End one_round.

(** X13. A settable field tagged true or false whose type is no
    interface is resolved through the Name Index, under the name of the type
    of the field: when the instance found there has the type of the field,
    the field holds it after a StartUp that returned nil. *)
Theorem X13_concrete_field_wired_by_type_name
    (Σ : program) (s s' : State) (t : type) (p n : string) (a : addr)
    (i : nat) (fd : StructField) (obj : instance) :
  wf Σ s →
  fatalErrors (container s) = [] →
  StartUp Σ s = (Ok None, s') →
  typeToObjectMap (container s) !! t = Some (Some (TPtr (TStruct p n), VPtr a)) →
  sd_fields (structs Σ p n) !! i = Some fd →
  wiring_tag fd = "true" ∨ wiring_tag fd = "false" →
  IsExported fd = true →
  kind (f_type fd) ≠ KInterface →
  nameToObjMap (container s) !! displayName (f_type fd) = Some (Some obj) →
  AssignableTo Σ obj.1 (f_type fd) = true →
  obj.1 = f_type fd ∧ field_of s' a i = Some obj.2.
Proof.
  intros Hwf Hf H Ht Hi Htag He Hk Hn HA.
  destruct (StartUp_field_round Σ s s' t p n a i fd Hwf Hf H Ht Hi)
    as (s1 & s2 & E & Hc & K1 & Hs & K2 & _ & _).
  split.
  - unfold AssignableTo in HA. apply orb_true_iff in HA as [HA|HA].
    + by apply bool_decide_eq_true in HA.
    + unfold Implements in HA. by destruct (f_type fd).
  - pose proof (injectField_by_type_name Σ a _ i fd s1 s2 E Htag He Hk Hs) as R.
    rewrite Hc, Hn, HA in R. by rewrite K2.
Qed.

Lemma X13_concrete_field_wired_by_type_name_witness :
  let s := Tests.run [CallProvide (Some Tests.service1);
                      CallProvide (Some Tests.serviceWithUnexported)] in
  wf Tests.prog s
  ∧ field_of (StartUp Tests.prog s).2 8 0 = Some (VPtr 1%nat).
Proof.
  intros s. split; [exact serviceWithUnexported_wf|].
  refine (proj2 (X13_concrete_field_wired_by_type_name Tests.prog s (StartUp Tests.prog s).2
                   (TPtr Tests.ServiceWithUnexported) "tests" "ServiceWithUnexported"
                   8%nat 0%nat
                   (mkField "ExportedField" EmptyString (TPtr Tests.UserServiceImpl)
                      [("autowire", "true")])
                   Tests.service1
                   serviceWithUnexported_wf _ _ _ eq_refl (or_introl eq_refl) eq_refl _ _
                   eq_refl)).
  - vm_compute. reflexivity.
  - vm_compute. reflexivity.
  - vm_compute. reflexivity.
  - discriminate.
  - vm_compute. reflexivity.
Defined.

(** X14. For a settable field tagged true or false whose type is no
    interface, the Type Index is not consulted: when the Name Index holds no
    instance of the type of the field under the name of that type, StartUp
    leaves the field as it is and logs the failure, as an error for the tag
    true and as information for the tag false.  This is so even when the
    Type Index holds an instance of that very type, registered by
    ProvideByName under another name. *)
Theorem X14_concrete_field_not_wired_from_the_Type_Index
    (Σ : program) (s s' : State) (t : type) (p n : string) (a : addr)
    (i : nat) (fd : StructField) :
  wf Σ s →
  fatalErrors (container s) = [] →
  StartUp Σ s = (Ok None, s') →
  typeToObjectMap (container s) !! t = Some (Some (TPtr (TStruct p n), VPtr a)) →
  sd_fields (structs Σ p n) !! i = Some fd →
  wiring_tag fd = "true" ∨ wiring_tag fd = "false" →
  IsExported fd = true →
  kind (f_type fd) ≠ KInterface →
  (∀ obj, nameToObjMap (container s) !! displayName (f_type fd) = Some (Some obj) →
          obj.1 ≠ f_type fd) →
  field_of s' a i = field_of s a i
  ∧ ∃ before msg args after,
      out s' = out s ++ before
               ++ [ev_trying (TStruct p n) fd;
                   EvLog (if decide (wiring_tag fd = "true") then LError else LInfo) msg args]
               ++ after.
Proof.
  intros Hwf Hf H Ht Hi Htag He Hk Hn.
  destruct (StartUp_field_round Σ s s' t p n a i fd Hwf Hf H Ht Hi)
    as (s1 & s2 & E & Hc & K1 & Hs & K2 & [before Hb] & [after Ha]).
  pose proof (injectField_by_type_name Σ a _ i fd s1 s2 E Htag He Hk Hs) as R.
  rewrite Hc in R.
  assert (field_of s2 a i = field_of s1 a i
          ∧ ∃ msg args,
              out s2 = out s1
                       ++ [ev_trying (TStruct p n) fd;
                           EvLog (if decide (wiring_tag fd = "true") then LError else LInfo)
                             msg args]) as [R1 (msg & args & R2)].
  { destruct (nameToObjMap (container s) !! displayName (f_type fd)) as [[obj|]|] eqn:En;
      [|done..].
    destruct (AssignableTo Σ obj.1 (f_type fd)) eqn:HA; [|done].
    destruct (Hn obj eq_refl).
    unfold AssignableTo in HA. apply orb_true_iff in HA as [HA|HA].
    + by apply bool_decide_eq_true in HA.
    + unfold Implements in HA. by destruct (f_type fd). }
  split; [by rewrite K2, R1|].
  exists before, msg, args, after. rewrite Ha, R2, Hb. by rewrite <- !app_assoc.
Qed.

Lemma X14_concrete_field_not_wired_from_the_Type_Index_witness :
  let s := Tests.run [CallProvideByName "MyUserService" (Some Tests.service1);
                      CallProvide (Some Tests.serviceA_Required)] in
  typeToObjectMap (container s) !! TPtr Tests.UserServiceImpl = Some (Some Tests.service1)
  ∧ field_of (StartUp Tests.prog s).2 13 0 = Some VNil.
Proof.
  intros s. split; [vm_compute; reflexivity|].
  refine (proj1 (X14_concrete_field_not_wired_from_the_Type_Index Tests.prog s
                   (StartUp Tests.prog s).2
                   (TPtr Tests.ServiceA_Required) "tests" "ServiceA_Required"
                   13%nat 0%nat
                   (mkField "RequiredService" EmptyString (TPtr Tests.UserServiceImpl)
                      [("autowire", "true")])
                   by_custom_name_wf _ _ _ eq_refl (or_introl eq_refl) eq_refl _ _)).
  - vm_compute. reflexivity.
  - vm_compute. reflexivity.
  - vm_compute. reflexivity.
  - discriminate.
  - intros obj Hobj. vm_compute in Hobj. discriminate Hobj.
Defined.

Section interface_round.

Context (Σ : program).

(** The round of a settable interface field tagged [true] or [false]. *)
Lemma injectField_interface a t i fd s1 s2 :
  injectField Σ a t (i, fd) s1 = (Ok tt, s2) →
  wiring_tag fd = "true" ∨ wiring_tag fd = "false" →
  IsExported fd = true →
  kind (f_type fd) = KInterface →
  is_Some (field_of s1 a i) →
  ∃ entries, entries ≡ₚ map_to_list (typeToObjectMap (container s1))
    ∧ match scan_candidates Σ (f_type fd) entries with
      | c0 :: _ =>
          AssignableTo Σ c0.1 (f_type fd) = true
          ∧ field_of s2 a i = Some (VIface c0.1 c0.2)
      | [] =>
          field_of s2 a i = field_of s1 a i
          ∧ out s2
            = out s1
              ++ [ev_trying t fd;
                  if decide (wiring_tag fd = "true") then ev_no_implementation t fd
                  else EvLog LInfo
                         "optional interface injection: no implementation found, stays nil"
                         [displayName t; f_name fd; String_ (f_type fd)]]
      end.
Proof.
  intros E Htag He Hk Hsome. unfold injectField in E. fold (wiring_tag fd) in E.
  assert (wiring_tag fd ≠ EmptyString) as Hne by (by destruct Htag as [-> | ->]).
  destruct (decide (wiring_tag fd = EmptyString)); [done|].
  unfold CanSet, Field in E. simpl in E. rewrite He in E. simpl in E.
  unfold bind at 1 in E. simpl in E.
  destruct (decide (wiring_tag fd = "true" ∨ wiring_tag fd = "false")); [|done].
  destruct (decide (kind (f_type fd) = KInterface)) as [_|]; [|done].
  unfold bind at 1 in E. simpl in E.
  apply bind_Ok_inv in E as (entries & sR & ER & E).
  apply range_map_inv in ER as [PR (Qc & Qh & Qo)].
  exists entries. split; [done|]. fold (ev_trying t fd) in Qo, Qh, Qc.
  destruct (scan_candidates Σ (f_type fd) entries) as [|c0 rest].
  - destruct (bool_decide (wiring_tag fd = "true")) eqn:Hm.
    + apply bool_decide_eq_true in Hm. log_only E. rewrite decide_True by done.
      split; [unfold field_of; simpl; by rewrite Qh|].
      simpl. rewrite Qo. simpl. by rewrite <- app_assoc.
    + apply bool_decide_eq_false in Hm. log_only E. rewrite decide_False by done.
      split; [unfold field_of; simpl; by rewrite Qh|].
      simpl. rewrite Qo. simpl. by rewrite <- app_assoc.
  - apply bind_Ok_inv in E as ([] & sW & EW & E).
    apply Set__Ok_inv in EW as (_ & HA & ->). simpl in *.
    split; [done|].
    assert (field_of s2 a i
            = field_of (write_field a i (store_value (f_type fd) c0) sR) a i) as ->.
    { destruct rest; by log_only E. }
    unfold store_value. destruct (decide (kind (f_type fd) = KInterface)); [|done].
    apply write_field_field_eq. unfold field_of in *. by rewrite Qh.
Qed.

(** In a well-formed state the candidates whose assignment does not panic
    are the registered beans whose type implements the interface. *)
Lemma wf_assignable_implementer s ft entries c0 :
  wf Σ s →
  kind ft = KInterface →
  entries ≡ₚ map_to_list (typeToObjectMap (container s)) →
  c0 ∈ scan_candidates Σ ft entries →
  AssignableTo Σ c0.1 ft = true →
  implementer Σ (container s) ft c0.
Proof.
  intros Hwf Hk Hp Hin HA. apply elem_of_scan_candidates in Hin as (t0 & Hin & _).
  rewrite Hp in Hin. apply elem_of_map_to_list in Hin.
  exists t0. split; [done|].
  destruct (Hwf _ _ Hin) as (y & [= <-] & _ & Hki & _).
  unfold AssignableTo in HA. apply orb_true_iff in HA as [HA|HA]; [|done].
  apply bool_decide_eq_true in HA. rewrite HA in Hki. done.
Qed.

End interface_round.

(** X15. A settable interface field tagged true or false, when at least
    one registered bean has a type that implements the interface, holds
    after a StartUp that returned nil one of the registered beans whose type
    implements the interface. *)
Theorem X15_interface_field_gets_a_registered_implementation
    (Σ : program) (s s' : State) (t : type) (p n : string) (a : addr)
    (i : nat) (fd : StructField) :
  wf Σ s →
  fatalErrors (container s) = [] →
  StartUp Σ s = (Ok None, s') →
  typeToObjectMap (container s) !! t = Some (Some (TPtr (TStruct p n), VPtr a)) →
  sd_fields (structs Σ p n) !! i = Some fd →
  wiring_tag fd = "true" ∨ wiring_tag fd = "false" →
  IsExported fd = true →
  kind (f_type fd) = KInterface →
  (∃ y, implementer Σ (container s) (f_type fd) y) →
  ∃ x0, implementer Σ (container s) (f_type fd) x0
        ∧ field_of s' a i = Some (VIface x0.1 x0.2).
Proof.
  intros Hwf Hf H Ht Hi Htag He Hk [y (ty & Hy & Himpl)].
  destruct (StartUp_field_round Σ s s' t p n a i fd Hwf Hf H Ht Hi)
    as (s1 & s2 & E & Hc & K1 & Hs & K2 & _ & _).
  destruct (injectField_interface Σ a _ i fd s1 s2 E Htag He Hk Hs) as (entries & Hp & R).
  rewrite Hc in Hp.
  destruct (scan_candidates Σ (f_type fd) entries) as [|c0 rest] eqn:Es.
  - assert (y ∈ scan_candidates Σ (f_type fd) entries) as Hin.
    { apply elem_of_scan_candidates. exists ty. split.
      - rewrite Hp. by apply elem_of_map_to_list.
      - unfold is_candidate. by rewrite Himpl. }
    rewrite Es in Hin. by apply not_elem_of_nil in Hin.
  - destruct R as [HA R]. exists c0. split; [|by rewrite K2].
    apply (wf_assignable_implementer Σ s _ entries); try done. rewrite Es. left.
Qed.

Lemma X15_interface_field_gets_a_registered_implementation_witness :
  wf Wiring.prog Wiring.all
  ∧ ∃ x0, implementer Wiring.prog (container Wiring.all) Wiring.Greeter x0
          ∧ field_of (StartUp Wiring.prog Wiring.all).2 3 3 = Some (VIface x0.1 x0.2).
Proof.
  split; [exact Wiring_all_wf|].
  refine (X15_interface_field_gets_a_registered_implementation Wiring.prog Wiring.all
            (StartUp Wiring.prog Wiring.all).2
            (TPtr Wiring.Client) "app" "Client" 3%nat 3%nat
            (mkField "Mandatory" EmptyString Wiring.Greeter [("autowire", "true")])
            Wiring_all_wf _ _ _ eq_refl (or_introl eq_refl) eq_refl eq_refl _).
  - vm_compute. reflexivity.
  - vm_compute. reflexivity.
  - vm_compute. reflexivity.
  - exists Wiring.french, (TPtr Wiring.French). split; vm_compute; reflexivity.
Defined.

(** X16. A settable interface field tagged false, when no registered
    bean implements the interface, keeps its value through StartUp, and the
    round of the field logs that at the level of information, not as an
    error. *)
Theorem X16_optional_interface_field_without_implementation
    (Σ : program) (s s' : State) (t : type) (p n : string) (a : addr)
    (i : nat) (fd : StructField) :
  wf Σ s →
  fatalErrors (container s) = [] →
  StartUp Σ s = (Ok None, s') →
  typeToObjectMap (container s) !! t = Some (Some (TPtr (TStruct p n), VPtr a)) →
  sd_fields (structs Σ p n) !! i = Some fd →
  wiring_tag fd = "false" →
  IsExported fd = true →
  kind (f_type fd) = KInterface →
  (∀ y, ¬ implementer Σ (container s) (f_type fd) y) →
  field_of s' a i = field_of s a i
  ∧ ∃ before after,
      out s' = out s ++ before
               ++ [ev_trying (TStruct p n) fd;
                   EvLog LInfo
                     "optional interface injection: no implementation found, stays nil"
                     [displayName (TStruct p n); f_name fd; String_ (f_type fd)]]
               ++ after.
Proof.
  intros Hwf Hf H Ht Hi Htag He Hk Hnone.
  destruct (StartUp_field_round Σ s s' t p n a i fd Hwf Hf H Ht Hi)
    as (s1 & s2 & E & Hc & K1 & Hs & K2 & [before Hb] & [after Ha]).
  destruct (injectField_interface Σ a _ i fd s1 s2 E (or_intror Htag) He Hk Hs)
    as (entries & Hp & R).
  rewrite Hc in Hp.
  destruct (scan_candidates Σ (f_type fd) entries) as [|c0 rest] eqn:Es.
  - destruct R as [R1 R2]. split; [by rewrite K2, R1|].
    exists before, after. rewrite Ha, R2, Hb, Htag. simpl. by rewrite <- !app_assoc.
  - destruct R as [HA _]. destruct (Hnone c0).
    apply (wf_assignable_implementer Σ s _ entries); try done. rewrite Es. left.
Qed.

Lemma X16_optional_interface_field_without_implementation_witness :
  wf Wiring.prog Wiring.alone
  ∧ field_of (StartUp Wiring.prog Wiring.alone).2 3 0 = Some VNil.
Proof.
  split; [exact Wiring_alone_wf|].
  refine (proj1 (X16_optional_interface_field_without_implementation Wiring.prog Wiring.alone
                   (StartUp Wiring.prog Wiring.alone).2
                   (TPtr Wiring.Client) "app" "Client" 3%nat 0%nat
                   (mkField "Optional" EmptyString Wiring.Greeter [("autowire", "false")])
                   Wiring_alone_wf _ _ _ eq_refl eq_refl eq_refl eq_refl _)).
  - vm_compute. reflexivity.
  - vm_compute. reflexivity.
  - vm_compute. reflexivity.
  - intros y (t0 & Ht0 & Hy). apply elem_of_map_to_list in Ht0.
    vm_compute in Ht0. apply list_elem_of_In in Ht0. simpl in Ht0.
    destruct Ht0 as [E|[]]. injection E as <- <-. vm_compute in Hy. discriminate.
Defined.

Section by_name_round.

Context (Σ : program).

(** The round of a settable field tagged with the name of a bean. *)
Lemma injectField_named a t i fd s1 s2 :
  injectField Σ a t (i, fd) s1 = (Ok tt, s2) →
  wiring_tag fd ≠ EmptyString → wiring_tag fd ≠ "true" → wiring_tag fd ≠ "false" →
  IsExported fd = true →
  is_Some (field_of s1 a i) →
  match nameToObjMap (container s1) !! wiring_tag fd with
  | Some (Some obj) =>
      if compatible Σ obj.1 (f_type fd) then
        AssignableTo Σ obj.1 (f_type fd) = true
        ∧ field_of s2 a i = Some (store_value (f_type fd) obj)
      else
        field_of s2 a i = field_of s1 a i
        ∧ ∃ msg args, out s2 = out s1 ++ [ev_trying t fd; EvLog LError msg args]
  | _ =>
      field_of s2 a i = field_of s1 a i
      ∧ ∃ msg args, out s2 = out s1 ++ [ev_trying t fd; EvLog LError msg args]
  end.
Proof.
  intros E Hne Ht Hf He Hsome. unfold injectField in E. fold (wiring_tag fd) in E.
  destruct (decide (wiring_tag fd = EmptyString)); [done|].
  unfold CanSet, Field in E. simpl in E. rewrite He in E. simpl in E.
  unfold bind at 1 in E. simpl in E.
  destruct (decide (wiring_tag fd = "true" ∨ wiring_tag fd = "false")) as [[|]|_]; [done..|].
  unfold bind at 1 in E. simpl in E. fold (ev_trying t fd) in E.
  assert (∀ l msg args,
            out (add_event (EvLog l msg args) (add_event (ev_trying t fd) s1))
            = out s1 ++ [ev_trying t fd; EvLog l msg args]) as Hout.
  { intros. simpl. by rewrite <- app_assoc. }
  destruct (nameToObjMap (container s1) !! wiring_tag fd) as [[obj|]|].
  - change (AssignableTo Σ obj.1 (f_type fd) || _) with (compatible Σ obj.1 (f_type fd)) in E.
    destruct (compatible Σ obj.1 (f_type fd)).
    + apply bind_Ok_inv in E as ([] & sW & EW & E).
      apply Set__Ok_inv in EW as (_ & HA & ->). log_only E. split; [done|].
      rewrite field_of_add_event. by apply write_field_field_eq.
    + log_only E. split; [done|]. eauto.
  - log_only E. split; [done|]. eauto.
  - log_only E. split; [done|]. eauto.
Qed.

(** Whatever its tag, the round of a field leaves it as it is or assigns a
    registered instance to it. *)
Lemma injectField_safe a t i fd s1 s2 :
  injectField Σ a t (i, fd) s1 = (Ok tt, s2) →
  is_Some (field_of s1 a i) →
  field_of s2 a i = field_of s1 a i
  ∨ (wiring_tag fd ≠ EmptyString ∧ IsExported fd = true
     ∧ ∃ obj, registered (container s1) obj
              ∧ AssignableTo Σ obj.1 (f_type fd) = true
              ∧ field_of s2 a i = Some (store_value (f_type fd) obj)).
Proof.
  intros E Hsome.
  destruct (decide (wiring_tag fd = EmptyString)) as [Hempty|Hne].
  { left. unfold injectField in E. fold (wiring_tag fd) in E.
    destruct (decide (wiring_tag fd = EmptyString)); [|done]. by injection E as <-. }
  destruct (IsExported fd) eqn:He.
  2: { left. unfold injectField in E. fold (wiring_tag fd) in E.
       destruct (decide (wiring_tag fd = EmptyString)); [done|].
       unfold CanSet, Field in E. simpl in E. rewrite He in E. simpl in E.
       by log_only E. }
  destruct (decide (wiring_tag fd = "true" ∨ wiring_tag fd = "false")) as [Htag|Hname].
  - destruct (decide (kind (f_type fd) = KInterface)) as [Hk|Hk].
    + destruct (injectField_interface Σ a t i fd s1 s2 E Htag He Hk Hsome)
        as (entries & Hp & R).
      destruct (scan_candidates Σ (f_type fd) entries) as [|c0 rest] eqn:Es.
      * left. by destruct R.
      * right. destruct R as [HA R]. split_and!; [done..|]. exists c0.
        split_and!; [|done|].
        -- assert (c0 ∈ scan_candidates Σ (f_type fd) entries) as Hin by (rewrite Es; left).
           apply elem_of_scan_candidates in Hin as (t0 & Hin & _).
           left. exists t0. apply elem_of_map_to_list. by rewrite <- Hp.
        -- unfold store_value. by destruct (decide _).
    + pose proof (injectField_by_type_name Σ a t i fd s1 s2 E Htag He Hk Hsome) as R.
      destruct (nameToObjMap (container s1) !! displayName (f_type fd)) as [[obj|]|] eqn:En;
        [|left; by destruct R..].
      destruct (AssignableTo Σ obj.1 (f_type fd)) eqn:HA; [|left; by destruct R].
      right. split_and!; [done..|]. exists obj. split_and!; [right; eauto | done |].
      unfold store_value. by destruct (decide _).
  - pose proof (injectField_named a t i fd s1 s2 E Hne
                  ltac:(tauto) ltac:(tauto) He Hsome) as R.
    destruct (nameToObjMap (container s1) !! wiring_tag fd) as [[obj|]|] eqn:En;
      [|left; by destruct R..].
    destruct (compatible Σ obj.1 (f_type fd)); [|left; by destruct R].
    right. destruct R as [HA R]. split_and!; [done..|]. exists obj.
    split_and!; [right; eauto | done | done].
Qed.

End by_name_round.

(** X17. A settable field tagged with the name of a bean keeps its value
    through StartUp, and an error is logged in its round, when the Name
    Index holds no instance under that name or holds one whose type fails
    the compatibility test. *)
Theorem X17_named_field_without_compatible_bean
    (Σ : program) (s s' : State) (t : type) (p n : string) (a : addr)
    (i : nat) (fd : StructField) :
  wf Σ s →
  fatalErrors (container s) = [] →
  StartUp Σ s = (Ok None, s') →
  typeToObjectMap (container s) !! t = Some (Some (TPtr (TStruct p n), VPtr a)) →
  sd_fields (structs Σ p n) !! i = Some fd →
  wiring_tag fd ≠ EmptyString → wiring_tag fd ≠ "true" → wiring_tag fd ≠ "false" →
  IsExported fd = true →
  (∀ obj, nameToObjMap (container s) !! wiring_tag fd = Some (Some obj) →
          compatible Σ obj.1 (f_type fd) = false) →
  field_of s' a i = field_of s a i
  ∧ ∃ before msg args after,
      out s' = out s ++ before
               ++ [ev_trying (TStruct p n) fd; EvLog LError msg args] ++ after.
Proof.
  intros Hwf Hf H Ht Hi Hne Htr Hfa He Hn.
  destruct (StartUp_field_round Σ s s' t p n a i fd Hwf Hf H Ht Hi)
    as (s1 & s2 & E & Hc & K1 & Hs & K2 & [before Hb] & [after Ha]).
  pose proof (injectField_named Σ a _ i fd s1 s2 E Hne Htr Hfa He Hs) as R.
  rewrite Hc in R.
  assert (field_of s2 a i = field_of s1 a i
          ∧ ∃ msg args,
              out s2 = out s1 ++ [ev_trying (TStruct p n) fd; EvLog LError msg args])
    as [R1 (msg & args & R2)].
  { destruct (nameToObjMap (container s) !! wiring_tag fd) as [[obj|]|] eqn:En; [|done..].
    by rewrite (Hn obj eq_refl) in R. }
  split; [by rewrite K2, R1|].
  exists before, msg, args, after. rewrite Ha, R2, Hb. by rewrite <- !app_assoc.
Qed.

Lemma X17_named_field_without_compatible_bean_witness :
  wf Wiring.prog Wiring.all
  ∧ nameToObjMap (container Wiring.all) !! "english" = Some (Some Wiring.english)
  ∧ field_of (StartUp Wiring.prog Wiring.all).2 3 2 = Some VNil.
Proof.
  split; [exact Wiring_all_wf|]. split; [vm_compute; reflexivity|].
  refine (proj1 (X17_named_field_without_compatible_bean Wiring.prog Wiring.all
                   (StartUp Wiring.prog Wiring.all).2
                   (TPtr Wiring.Client) "app" "Client" 3%nat 2%nat
                   (mkField "Mismatch" EmptyString (TPtr Wiring.French)
                      [("autowire", "english")])
                   Wiring_all_wf _ _ _ eq_refl _ _ _ eq_refl _)).
  - vm_compute. reflexivity.
  - vm_compute. reflexivity.
  - vm_compute. reflexivity.
  - vm_compute. discriminate.
  - vm_compute. discriminate.
  - vm_compute. discriminate.
  - intros obj Hobj. vm_compute in Hobj. injection Hobj as <-. vm_compute. reflexivity.
Defined.

(** X18. The inject tag is read when a field has no autowire tag: a
    settable field tagged inject with the name of a registered bean whose
    type is assignable to the type of the field holds that bean after a
    StartUp that returned nil. *)
Theorem X18_inject_tag_read_when_autowire_absent
    (Σ : program) (s s' : State) (t : type) (p n : string) (a : addr)
    (i : nat) (fd : StructField) (name : string) (obj : instance) :
  wf Σ s →
  fatalErrors (container s) = [] →
  StartUp Σ s = (Ok None, s') →
  typeToObjectMap (container s) !! t = Some (Some (TPtr (TStruct p n), VPtr a)) →
  sd_fields (structs Σ p n) !! i = Some fd →
  Tag_Get (f_tag fd) "autowire" = EmptyString →
  Tag_Get (f_tag fd) "inject" = name →
  name ≠ EmptyString → name ≠ "true" → name ≠ "false" →
  IsExported fd = true →
  nameToObjMap (container s) !! name = Some (Some obj) →
  AssignableTo Σ obj.1 (f_type fd) = true →
  field_of s' a i = Some (store_value (f_type fd) obj).
Proof.
  intros Hwf Hf H Ht Hi Haw Hinj Hne Htr Hfa He Hn HA.
  destruct (StartUp_field_round Σ s s' t p n a i fd Hwf Hf H Ht Hi)
    as (s1 & s2 & E & Hc & K1 & Hs & K2 & _ & _).
  assert (wiring_tag fd = name) as Hw.
  { unfold wiring_tag. rewrite Haw, Hinj. by destruct (decide _). }
  rewrite K2.
  eapply injectField_by_name; eauto; rewrite ?Hw, ?Hc; done.
Qed.

Lemma X18_inject_tag_read_when_autowire_absent_witness :
  wf Wiring.prog Wiring.all
  ∧ field_of (StartUp Wiring.prog Wiring.all).2 3 1 = Some (VPtr 1%nat).
Proof.
  split; [exact Wiring_all_wf|].
  refine (X18_inject_tag_read_when_autowire_absent Wiring.prog Wiring.all
            (StartUp Wiring.prog Wiring.all).2
            (TPtr Wiring.Client) "app" "Client" 3%nat 1%nat
            (mkField "Injected" EmptyString (TPtr Wiring.English) [("inject", "english")])
            "english" Wiring.english
            Wiring_all_wf _ _ _ eq_refl eq_refl eq_refl _ _ _ eq_refl _ _).
  - vm_compute. reflexivity.
  - vm_compute. reflexivity.
  - vm_compute. reflexivity.
  - discriminate.
  - discriminate.
  - discriminate.
  - vm_compute. reflexivity.
  - vm_compute. reflexivity.
Defined.

(** X19. Whatever its tags, a field of a registered bean holds after a
    StartUp that returned nil either the value it held before or an
    instance of the Type Index or of the Name Index whose type is assignable
    to the type of the field; and only a field that is exported and carries
    an autowire or inject tag is ever assigned. *)
Theorem X19_StartUp_assigns_registered_instances_only
    (Σ : program) (s s' : State) (t : type) (p n : string) (a : addr)
    (i : nat) (fd : StructField) :
  wf Σ s →
  fatalErrors (container s) = [] →
  StartUp Σ s = (Ok None, s') →
  typeToObjectMap (container s) !! t = Some (Some (TPtr (TStruct p n), VPtr a)) →
  sd_fields (structs Σ p n) !! i = Some fd →
  field_of s' a i = field_of s a i
  ∨ (wiring_tag fd ≠ EmptyString ∧ IsExported fd = true
     ∧ ∃ obj, registered (container s) obj
              ∧ AssignableTo Σ obj.1 (f_type fd) = true
              ∧ field_of s' a i = Some (store_value (f_type fd) obj)).
Proof.
  intros Hwf Hf H Ht Hi.
  destruct (StartUp_field_round Σ s s' t p n a i fd Hwf Hf H Ht Hi)
    as (s1 & s2 & E & Hc & K1 & Hs & K2 & _ & _).
  destruct (injectField_safe Σ a _ i fd s1 s2 E Hs) as [R|(? & ? & obj & Hr & HA & R)].
  - left. by rewrite K2, R.
  - right. split_and!; [done..|]. exists obj. rewrite Hc in Hr. by rewrite K2.
Qed.

Lemma X19_StartUp_assigns_registered_instances_only_witness :
  let fd := mkField "Mandatory" EmptyString Wiring.Greeter [("autowire", "true")] in
  wf Wiring.prog Wiring.all
  ∧ (field_of (StartUp Wiring.prog Wiring.all).2 3 3 = field_of Wiring.all 3 3
     ∨ (wiring_tag fd ≠ EmptyString ∧ IsExported fd = true
        ∧ ∃ obj, registered (container Wiring.all) obj
                 ∧ AssignableTo Wiring.prog obj.1 (f_type fd) = true
                 ∧ field_of (StartUp Wiring.prog Wiring.all).2 3 3
                   = Some (store_value (f_type fd) obj))).
Proof.
  intros fd. split; [exact Wiring_all_wf|].
  refine (X19_StartUp_assigns_registered_instances_only Wiring.prog Wiring.all
            (StartUp Wiring.prog Wiring.all).2
            (TPtr Wiring.Client) "app" "Client" 3%nat 3%nat fd
            Wiring_all_wf _ _ _ eq_refl).
  - vm_compute. reflexivity.
  - vm_compute. reflexivity.
  - vm_compute. reflexivity.
Defined.

(** X20. A StartUp that returns has written to no struct but those the
    entries of the Type Index point to: every other struct of the heap is as
    it was. *)
Theorem X20_StartUp_writes_to_registered_beans_only
    (Σ : program) (s s' : State) (r : option string) (a' : addr) :
  StartUp Σ s = (Ok r, s') →
  (∀ t x, typeToObjectMap (container s) !! t = Some x → addr_of x ≠ Some a') →
  heap s' !! a' = heap s !! a'.
Proof.
  intros H Hfree.
  destruct (decide (fatalErrors (container s) = [])) as [Hf|Hf].
  2: { rewrite StartUp_fatal in H by done. by injection H as _ <-. }
  apply StartUp_inv in H as (_ & en1 & en2 & sA & sB & sC & sD
                             & QA & P1 & L1 & QC & P2 & L2 & ->); [|done].
  change (keeps_object a' s (add_event ev_started sD)).
  etrans; [apply (log_ok (R := keeps_object a') s LInfo
                    "starting the container and injecting dependencies" [])|].
  etrans; [apply coarse, QA|].
  etrans.
  { eapply preserves_run; [|exact L1]. apply preserves_forM_; [apply _|].
    intros [t x] He. apply injectBean_pres; try apply _.
    intros a i Ha. apply keeps_object_write. intros ->.
    rewrite P1 in He. apply elem_of_map_to_list in He. by apply (Hfree t x). }
  etrans; [apply coarse, QC|].
  etrans.
  { eapply preserves_run; [|exact L2]. apply preserves_forM_; [apply _|].
    intros e _. apply completeBean_pres; apply _. }
  done.
Qed.

Lemma X20_StartUp_writes_to_registered_beans_only_witness :
  let s := Tests.autowire_interface in
  (StartUp Tests.prog s).1 = Ok None
  ∧ heap (StartUp Tests.prog s).2 !! 7%nat = heap s !! 7%nat.
Proof.
  intros s. split; [vm_compute; reflexivity|].
  refine (X20_StartUp_writes_to_registered_beans_only Tests.prog s (StartUp Tests.prog s).2
            None 7%nat _ _).
  - vm_compute. reflexivity.
  - intros t x Ht. apply elem_of_map_to_list in Ht.
    vm_compute in Ht. apply list_elem_of_In in Ht. simpl in Ht.
    destruct Ht as [E|[E|[]]]; injection E as <- <-; discriminate.
Defined.

(** ** The hooks of any bean *)

Section any_hooks.

Context (Σ : program).

Lemma hooks_on_round_of t e evs :
  (∃ y, e.2 = Some y ∧ y.1 = e.1) →
  round_of Σ e evs →
  hooks_on t evs
  = if decide (e.1 = t) then hooks_of Σ t [OnInjectBefore; OnInjectAfter] else [].
Proof.
  destruct e as [t' x]. simpl.
  intros (y & -> & Hty) (logs & Hl & ->). simpl.
  change (hooks_on t (?a :: ?l)) with (hooks_on t l).
  rewrite !hooks_on_app, (hooks_on_logs t logs Hl), !hooks_on_fire_events, Hty.
  unfold hooks_of. simpl.
  destruct (decide (t' = t)) as [->|Hne].
  - by destruct (has_hook Σ t OnInjectBefore), (has_hook Σ t OnInjectAfter).
  - by destruct (has_hook Σ t' OnInjectBefore), (has_hook Σ t' OnInjectAfter).
Qed.

Lemma hooks_on_completion_of t e :
  (∃ y, e.2 = Some y ∧ y.1 = e.1) →
  hooks_on t (completion_of Σ e)
  = if decide (e.1 = t) then hooks_of Σ t [OnInjectComplete] else [].
Proof.
  destruct e as [t' x]. simpl.
  intros (y & -> & Hty). unfold completion_of. simpl.
  rewrite hooks_on_fire_events, Hty. unfold hooks_of. simpl.
  destruct (decide (t' = t)) as [->|Hne].
  - by destruct (has_hook Σ t OnInjectComplete).
  - by destruct (has_hook Σ t' OnInjectComplete).
Qed.

Lemma elem_of_keys_order (m : gmap type any) order t :
  order ≡ₚ map_to_list m → t ∈ order.*1 ↔ is_Some (m !! t).
Proof.
  intros Hp. rewrite Hp. rewrite list_elem_of_fmap. split.
  - intros ([t' x] & -> & Hin). apply elem_of_map_to_list in Hin. eauto.
  - intros [x Hx]. exists (t, x). split; [done|]. by apply elem_of_map_to_list.
Qed.

End any_hooks.

(** The hooks a StartUp that returns nil has called on the instances of a
    type. *)
Lemma StartUp_hooks_on
    (Σ : program) (s s' : State) :
  wf Σ s →
  fatalErrors (container s) = [] →
  StartUp Σ s = (Ok None, s') →
  ∃ evs, out s' = out s ++ evs
    ∧ ∀ t, hooks_on t evs
           = if decide (is_Some (typeToObjectMap (container s) !! t))
             then hooks_of Σ t [OnInjectBefore; OnInjectAfter; OnInjectComplete]
             else [].
Proof.
  intros Hwf Hf H.
  destruct (StartUp_trace Σ s _ s' Hf H) as (order1 & order2 & rounds & P1 & P2 & HF & Ho).
  destruct (wf_entries Σ s order1 Hwf P1) as [Hnd1 Hb1].
  destruct (wf_entries Σ s order2 Hwf P2) as [Hnd2 Hb2].
  eexists. split; [exact Ho|]. intros t.
  change (hooks_on t ([ev_starting] ++ ?l)) with (hooks_on t l).
  rewrite !hooks_on_app.
  rewrite (hooks_on_concat t (hooks_of Σ t [OnInjectBefore; OnInjectAfter]) order1 rounds);
    [| |done].
  2: { eapply list.Forall2_impl.
       - apply (Forall2_and_l _ (λ e, e ∈ order1) _ _ HF). by apply list.Forall_forall.
       - intros e evs [Hr He]. simpl. apply (hooks_on_round_of Σ); [|done].
         by apply Hb1. }
  rewrite (hooks_on_concat t (hooks_of Σ t [OnInjectComplete]) order2
             (completion_of Σ <$> order2)); [| |done].
  2: { apply Forall2_fmap_r, Forall_Forall2_diag, list.Forall_forall.
       intros e He. apply (hooks_on_completion_of Σ). by apply Hb2. }
  simpl. rewrite app_nil_r.
  destruct (decide (is_Some (typeToObjectMap (container s) !! t))) as [Hin|Hni].
  - rewrite !decide_True by (by eapply elem_of_keys_order).
    unfold hooks_of. simpl.
    by destruct (has_hook Σ t OnInjectBefore), (has_hook Σ t OnInjectAfter),
      (has_hook Σ t OnInjectComplete).
  - rewrite !decide_False; [done|..]; intros Hin; apply Hni;
      first [by apply (elem_of_keys_order _ order1 t P1)
            | by apply (elem_of_keys_order _ order2 t P2)].
Qed.

(** X21. A StartUp that returns nil has called, on the beans of each
    type of the Type Index, exactly the hooks that type has among
    OnInjectBefore, OnInjectAfter and OnInjectComplete, once each and in
    this order; and it has called no hook on an instance of a type that is
    not in the Type Index. *)
Theorem X21_StartUp_calls_the_hooks_each_bean_has
    (Σ : program) (s s' : State) :
  wf Σ s →
  fatalErrors (container s) = [] →
  StartUp Σ s = (Ok None, s') →
  ∃ evs, out s' = out s ++ evs
    ∧ ∀ t, hooks_on t evs
           = if decide (is_Some (typeToObjectMap (container s) !! t))
             then hooks_of Σ t [OnInjectBefore; OnInjectAfter; OnInjectComplete]
             else [].
Proof. apply StartUp_hooks_on. Qed.

Lemma X21_StartUp_calls_the_hooks_each_bean_has_witness :
  let s := Tests.run [CallProvide (Some Tests.fullLifecycle)] in
  wf Tests.prog s
  ∧ ∃ evs, out (StartUp Tests.prog s).2 = out s ++ evs
      ∧ ∀ t, hooks_on t evs
             = if decide (is_Some (typeToObjectMap (container s) !! t))
               then hooks_of Tests.prog t [OnInjectBefore; OnInjectAfter; OnInjectComplete]
               else [].
Proof.
  intros s. split; [exact fullLifecycle_wf|].
  refine (X21_StartUp_calls_the_hooks_each_bean_has Tests.prog s (StartUp Tests.prog s).2
            fullLifecycle_wf _ _).
  - vm_compute. reflexivity.
  - vm_compute. reflexivity.
Defined.



(** X23. Registration and injection compose: an instance given to
    Provide when its type and its default bean name were free is what every
    settable field of that type tagged true or false holds after a later
    StartUp that returned nil, whatever calls came in between. *)
Theorem X23_provided_bean_reaches_the_fields_of_its_type
    (Σ : program) (s0 s' : State) (ks : list call) (x : instance)
    (t : type) (p n : string) (a : addr) (i : nat) (fd : StructField) :
  let s := after_calls Σ ks (Provide Σ (Some x) s0).2 in
  typeToObjectMap (container s0) !! x.1 = None →
  nameToObjMap (container s0) !! displayName x.1 = None →
  kind x.1 ≠ KInterface →
  wf Σ s →
  fatalErrors (container s) = [] →
  StartUp Σ s = (Ok None, s') →
  typeToObjectMap (container s) !! t = Some (Some (TPtr (TStruct p n), VPtr a)) →
  sd_fields (structs Σ p n) !! i = Some fd →
  wiring_tag fd = "true" ∨ wiring_tag fd = "false" →
  IsExported fd = true →
  f_type fd = x.1 →
  field_of s' a i = Some x.2.
Proof.
  intros s Hfresh Hname Hk Hwf Hf H Ht Hi Htag He Hty.
  assert (nameToObjMap (container s) !! displayName x.1 = Some (Some x)) as Hn.
  { apply (after_calls_container_ind Σ names_kept after_call_names_kept ks).
    rewrite Provide_container. unfold provide_container. rewrite Hfresh, Hname. simpl.
    by rewrite lookup_insert_eq. }
  destruct (StartUp_field_round Σ s s' t p n a i fd Hwf Hf H Ht Hi)
    as (s1 & s2 & E & Hc & K1 & Hs & K2 & _ & _).
  pose proof (injectField_by_type_name Σ a _ i fd s1 s2 E Htag He
                ltac:(by rewrite Hty) Hs) as R.
  rewrite Hc, Hty, Hn, AssignableTo_refl in R. by rewrite K2.
Qed.

Lemma X23_provided_bean_reaches_the_fields_of_its_type_witness :
  let s := after_calls Tests.prog [CallProvide (Some Tests.serviceWithUnexported)]
             (Provide Tests.prog (Some Tests.service1) (Tests.fresh [])).2 in
  wf Tests.prog s
  ∧ field_of (StartUp Tests.prog s).2 8 0 = Some (VPtr 1%nat).
Proof.
  intros s. split; [exact serviceWithUnexported_wf|].
  refine (X23_provided_bean_reaches_the_fields_of_its_type Tests.prog (Tests.fresh [])
            (StartUp Tests.prog s).2 [CallProvide (Some Tests.serviceWithUnexported)]
            Tests.service1
            (TPtr Tests.ServiceWithUnexported) "tests" "ServiceWithUnexported" 8%nat 0%nat
            (mkField "ExportedField" EmptyString (TPtr Tests.UserServiceImpl)
               [("autowire", "true")])
            eq_refl eq_refl _ serviceWithUnexported_wf _ _ _ eq_refl (or_introl eq_refl)
            eq_refl eq_refl).
  - discriminate.
  - vm_compute. reflexivity.
  - vm_compute. reflexivity.
  - vm_compute. reflexivity.
Defined.

(** ** A registration that is refused *)

(** X24. A ProvideByName that returns an error registers nothing: the heap
    (so no field is seeded, unlike in a Provide that rejects a duplicate
    type), the Type Index and the Name Index are as they were.  The error is
    the invalid-argument error, and then the whole state is as it was, or
    the duplicate-registration error for a name that is taken, and then the
    error has been appended to the fatal errors and logged, once. *)
Theorem X24_refused_ProvideByName_registers_nothing
    (Σ : program) (name : string) (x : any) (s s' : State) (e : string) :
  ProvideByName Σ name x s = (Ok (Some e), s') →
  heap s' = heap s
  ∧ typeToObjectMap (container s') = typeToObjectMap (container s)
  ∧ nameToObjMap (container s') = nameToObjMap (container s)
  ∧ ((e = err_invalid_argument ∧ s' = s)
     ∨ (e = err_duplicate name
        ∧ is_Some (nameToObjMap (container s) !! name)
        ∧ fatalErrors (container s') = fatalErrors (container s) ++ [e]
        ∧ out s' = out s ++ [EvLog LError "%s" [e]])).
Proof.
  intros H. destruct (decide (x = None ∨ is_blank name = true)) as [Hi|Hv].
  { rewrite ProvideByName_invalid in H by done. injection H as <- <-.
    split_and!; try done. by left. }
  destruct x as [x|]; [|by destruct Hv; left].
  destruct (is_blank name) eqn:Hb; [by destruct Hv; right|].
  destruct (nameToObjMap (container s) !! name) eqn:En.
  - rewrite ProvideByName_duplicate in H by eauto. injection H as <- <-.
    split_and!; try done. right. split_and!; eauto.
  - destruct (ProvideByName_fresh Σ name x s Hb En) as (s1 & _ & E). congruence.
Qed.

Lemma X24_refused_ProvideByName_registers_nothing_witness :
  let s := Tests.run [CallProvideByName "MyService" (Some Tests.service1)] in
  let r := ProvideByName Tests.prog "MyService" (Some Tests.serviceWithMap) s in
  r.1 = Ok (Some (err_duplicate "MyService"))
  ∧ heap r.2 = heap s
  ∧ typeToObjectMap (container r.2) = typeToObjectMap (container s).
Proof.
  intros s r.
  assert (r = (Ok (Some (err_duplicate "MyService")), r.2)) as E
    by (vm_compute; reflexivity).
  split; [by rewrite E|].
  destruct (X24_refused_ProvideByName_registers_nothing Tests.prog "MyService"
              (Some Tests.serviceWithMap) s r.2 _ E) as (H1 & H2 & _).
  by split.
Defined.

(** ** Several implementations of an interface *)

Section several.

Context (Σ : program).

(** The round of a settable interface field tagged [true] or [false] for
    which the scan keeps two candidates or more: the warning names the types
    of all of them. *)
Lemma injectField_interface_several a t i fd s1 s2 :
  injectField Σ a t (i, fd) s1 = (Ok tt, s2) →
  wiring_tag fd = "true" ∨ wiring_tag fd = "false" →
  IsExported fd = true →
  kind (f_type fd) = KInterface →
  ∃ entries, entries ≡ₚ map_to_list (typeToObjectMap (container s1))
    ∧ match scan_candidates Σ (f_type fd) entries with
      | c0 :: c1 :: rest =>
          out s2
          = out s1
            ++ [ev_trying t fd;
                EvLog LWarn "interface has several implementations, injecting the first"
                  (displayName t :: f_name fd :: String_ (f_type fd)
                   :: ((λ cnd : instance, String_ cnd.1) <$> c0 :: c1 :: rest))]
      | _ => True
      end.
Proof.
  intros E Htag He Hk. unfold injectField in E. fold (wiring_tag fd) in E.
  assert (wiring_tag fd ≠ EmptyString) as Hne by (by destruct Htag as [-> | ->]).
  destruct (decide (wiring_tag fd = EmptyString)); [done|].
  unfold CanSet, Field in E. simpl in E. rewrite He in E. simpl in E.
  unfold bind at 1 in E. simpl in E.
  destruct (decide (wiring_tag fd = "true" ∨ wiring_tag fd = "false")); [|done].
  destruct (decide (kind (f_type fd) = KInterface)) as [_|]; [|done].
  unfold bind at 1 in E. simpl in E.
  apply bind_Ok_inv in E as (entries & sR & ER & E).
  apply range_map_inv in ER as [PR (Qc & Qh & Qo)].
  exists entries. split; [done|]. fold (ev_trying t fd) in Qo, Qh, Qc.
  destruct (scan_candidates Σ (f_type fd) entries) as [|c0 [|c1 rest]]; [done..|].
  apply bind_Ok_inv in E as ([] & sW & EW & E).
  apply Set__Ok_inv in EW as (_ & HA & ->). log_only E. simpl.
  rewrite write_field_out, Qo. simpl. by rewrite <- app_assoc.
Qed.

End several.

(** X25. When two registered beans of different types pass the test of the
    interface scan for a settable interface field tagged true or false, a
    StartUp that returned nil has logged, in the round of that field, the
    warning that the interface has several implementations, and the warning
    names the types of both beans. *)
Theorem X25_several_implementations_are_reported
    (Σ : program) (s s' : State) (t : type) (p n : string) (a : addr)
    (i : nat) (fd : StructField) (t1 t2 : type) (x1 x2 : instance) :
  wf Σ s →
  fatalErrors (container s) = [] →
  StartUp Σ s = (Ok None, s') →
  typeToObjectMap (container s) !! t = Some (Some (TPtr (TStruct p n), VPtr a)) →
  sd_fields (structs Σ p n) !! i = Some fd →
  wiring_tag fd = "true" ∨ wiring_tag fd = "false" →
  IsExported fd = true →
  kind (f_type fd) = KInterface →
  typeToObjectMap (container s) !! t1 = Some (Some x1) →
  typeToObjectMap (container s) !! t2 = Some (Some x2) →
  t1 ≠ t2 →
  is_candidate Σ x1.1 (f_type fd) = true →
  is_candidate Σ x2.1 (f_type fd) = true →
  ∃ before args after,
    out s' = out s ++ before
             ++ [ev_trying (TStruct p n) fd;
                 EvLog LWarn "interface has several implementations, injecting the first"
                   args]
             ++ after
    ∧ String_ x1.1 ∈ args ∧ String_ x2.1 ∈ args.
Proof.
  intros Hwf Hf H Ht Hi Htag He Hk H1 H2 Hne Hc1 Hc2.
  destruct (StartUp_field_round Σ s s' t p n a i fd Hwf Hf H Ht Hi)
    as (s1 & s2 & E & Hc & K1 & Hs & K2 & [before Hb] & [after Ha]).
  destruct (injectField_interface_several Σ a _ i fd s1 s2 E Htag He Hk)
    as (entries & Hp & R).
  rewrite Hc in Hp.
  assert (x1 ∈ scan_candidates Σ (f_type fd) entries) as Hin1.
  { apply elem_of_scan_candidates. exists t1. split; [|done].
    rewrite Hp. by apply elem_of_map_to_list. }
  assert (x2 ∈ scan_candidates Σ (f_type fd) entries) as Hin2.
  { apply elem_of_scan_candidates. exists t2. split; [|done].
    rewrite Hp. by apply elem_of_map_to_list. }
  assert (x1 ≠ x2) as Hx.
  { destruct (Hwf _ _ H1) as (y1 & [= <-] & Hy1 & _).
    destruct (Hwf _ _ H2) as (y2 & [= <-] & Hy2 & _). congruence. }
  destruct (scan_candidates Σ (f_type fd) entries) as [|c0 [|c1 rest]] eqn:Es.
  - by apply not_elem_of_nil in Hin1.
  - apply list_elem_of_singleton in Hin1, Hin2. congruence.
  - eexists before, _, after. split.
    + rewrite Ha, R, Hb. by rewrite <- !app_assoc.
    + split; do 3 (apply elem_of_cons; right);
        by apply (list_elem_of_fmap_2 (λ cnd : instance, String_ cnd.1)).
Qed.

Lemma X25_several_implementations_are_reported_witness :
  wf Wiring.prog Wiring.all
  ∧ ∃ before args after,
      out (StartUp Wiring.prog Wiring.all).2
      = out Wiring.all ++ before
        ++ [ev_trying (TStruct "app" "Client")
              (mkField "Mandatory" EmptyString Wiring.Greeter [("autowire", "true")]);
            EvLog LWarn "interface has several implementations, injecting the first" args]
        ++ after
      ∧ "*app.English" ∈ args ∧ "*app.French" ∈ args.
Proof.
  split; [exact Wiring_all_wf|].
  refine (X25_several_implementations_are_reported Wiring.prog Wiring.all
            (StartUp Wiring.prog Wiring.all).2
            (TPtr Wiring.Client) "app" "Client" 3%nat 3%nat
            (mkField "Mandatory" EmptyString Wiring.Greeter [("autowire", "true")])
            (TPtr Wiring.English) (TPtr Wiring.French) Wiring.english Wiring.french
            Wiring_all_wf _ _ _ eq_refl (or_introl eq_refl) eq_refl eq_refl _ _ _ _ _).
  - vm_compute. reflexivity.
  - vm_compute. reflexivity.
  - vm_compute. reflexivity.
  - vm_compute. reflexivity.
  - vm_compute. reflexivity.
  - discriminate.
  - vm_compute. reflexivity.
  - vm_compute. reflexivity.
Defined.

(** ** StartUp, called again *)

(** X26. StartUp keeps no record of having run.  When a second StartUp on
    the state the first one left returns nil as well, the container is still
    the one before the first call, and the second call has called on the
    instances of each type the hooks the first one called: for a type of the
    Type Index those of OnInjectBefore, OnInjectAfter and OnInjectComplete
    the type has, once more each. *)
Theorem X26_StartUp_runs_the_lifecycle_again
    (Σ : program) (s s1 s2 : State) :
  wf Σ s →
  fatalErrors (container s) = [] →
  StartUp Σ s = (Ok None, s1) →
  StartUp Σ s1 = (Ok None, s2) →
  container s2 = container s
  ∧ ∃ evs1 evs2,
      out s1 = out s ++ evs1
      ∧ out s2 = out s1 ++ evs2
      ∧ ∀ t, hooks_on t evs2 = hooks_on t evs1
             ∧ hooks_on t evs1
               = if decide (is_Some (typeToObjectMap (container s) !! t))
                 then hooks_of Σ t [OnInjectBefore; OnInjectAfter; OnInjectComplete]
                 else [].
Proof.
  intros Hwf Hf H1 H2.
  assert (container s1 = container s) as Hc1.
  { pose proof (StartUp_container Σ s) as E. by rewrite H1 in E. }
  assert (container s2 = container s1) as Hc2.
  { pose proof (StartUp_container Σ s1) as E. by rewrite H2 in E. }
  assert (wf Σ s1) as Hwf1.
  { pose proof (StartUp_wf Σ s Hwf) as E. by rewrite H1 in E. }
  split; [congruence|].
  destruct (StartUp_hooks_on Σ s s1 Hwf Hf H1) as (evs1 & Ho1 & Hh1).
  destruct (StartUp_hooks_on Σ s1 s2 Hwf1 ltac:(by rewrite Hc1) H2)
    as (evs2 & Ho2 & Hh2).
  exists evs1, evs2. split_and!; [done..|]. intros t.
  rewrite Hh1, Hh2, Hc1. done.
Qed.

Lemma X26_StartUp_runs_the_lifecycle_again_witness :
  let s := Tests.run [CallProvide (Some Tests.fullLifecycle)] in
  let s1 := (StartUp Tests.prog s).2 in
  let s2 := (StartUp Tests.prog s1).2 in
  wf Tests.prog s
  ∧ hooks_on (TPtr Tests.FullLifecycleTest) (out s2)
    = [OnProvideAfter; OnInjectBefore; OnInjectAfter; OnInjectComplete;
       OnInjectBefore; OnInjectAfter; OnInjectComplete].
Proof.
  intros s s1 s2. split; [exact fullLifecycle_wf|].
  assert (StartUp Tests.prog s = (Ok None, s1)) as H1 by (vm_compute; reflexivity).
  assert (StartUp Tests.prog s1 = (Ok None, s2)) as H2 by (vm_compute; reflexivity).
  destruct (X26_StartUp_runs_the_lifecycle_again Tests.prog s s1 s2 fullLifecycle_wf
              eq_refl H1 H2) as (_ & evs1 & evs2 & E1 & E2 & Hh).
  destruct (Hh (TPtr Tests.FullLifecycleTest)) as [Hh2 Hh1].
  rewrite E2, E1, !hooks_on_app, Hh2, Hh1. vm_compute. reflexivity.
Defined.
